(** * Outline block nodes: traversal, append, clear and text normalization

    A shallow embedding of [packages/outline/src/OutlineBlockNode.js]
    and of the part of its collaborators ([OutlineNode], [TextNode],
    [OutlineSelection], [OutlineView], [OutlineUtils]) that the block node
    calls.  Node objects are a key together with a version of their fields;
    the registry of the active view model maps a key to the latest version.
    A reference to a registered object is therefore its key, and a field of
    a writable object is read and written through the registry, which is
    how two references to one JavaScript object stay in step. *)

From Stdlib Require Import ZArith String.
From stdpp Require Import base option list gmap strings fin_maps.

(** ** Data model *)

Abbreviation NodeKey := string.

(** The fields that the subclasses add to [OutlineNode].  [BaseBody] is an
    instance of the base class that is neither a [TextNode] nor a
    [BlockNode]. *)
Inductive NodeBody : Type :=
| TextBody (text : string) (url : option string)
| BlockBody (children : list NodeKey)
| BaseBody.

(** One version of a node: every field but the key.  [parent = None] and
    [url = None] are JavaScript's [null].  A character of a [string] stands
    for one UTF-16 code unit, the unit in which JavaScript counts the
    [length] of a string and the offsets into it; [flags] and the offsets
    of a selection are integers. *)
Record NodeFields : Type := mkFields {
  parent : option NodeKey;
  flags : Z;
  body : NodeBody
}.

(** A node object: the key never changes, the fields are those of the
    version the reference was taken from (possibly stale). *)
Record OutlineNode : Type := mkNode {
  key : NodeKey;
  fields :> NodeFields
}.

Record Selection : Type := mkSelection {
  anchorKey : NodeKey;
  anchorOffset : Z;
  focusKey : NodeKey;
  focusOffset : Z;
  isDirty : bool
}.

Record ViewModel : Type := mkViewModel {
  nodeMap : gmap NodeKey NodeFields;
  dirtySubTrees : gset NodeKey;
  dirtyNodes : gset NodeKey
}.

(** The ambient state of the module: the active view model, the current
    selection ([None] is [null]), the read-only gate and the keys handed
    out so far. *)
Record Env : Type := mkEnv {
  viewModel : ViewModel;
  selection : option Selection;
  readOnly : bool;
  usedKeys : gset NodeKey
}.

#[global] Instance NodeBody_eq_dec : EqDecision NodeBody.
Proof. solve_decision. Defined.
#[global] Instance NodeFields_eq_dec : EqDecision NodeFields.
Proof. solve_decision. Defined.
#[global] Instance OutlineNode_eq_dec : EqDecision OutlineNode.
Proof. solve_decision. Defined.

(** The offsets of the selection and the lengths of texts are JavaScript
    numbers, that is doubles, with integer values; [Z] holds the value.
    The doubles of magnitude up to [2 ^ 53] are all the integers; between
    [2 ^ e] and [2 ^ (e + 1)], for [53 <= e], they are the multiples of
    [2 ^ (e - 52)].  [roundToDouble x] is the double nearest to the integer
    [x], and of two that are equally near the one with the even
    significand. *)
Definition roundToDouble (x : Z) : Z :=
  let m := Z.abs x in
  if (m <=? 2 ^ 53)%Z then x
  else
    let ulp := (2 ^ (Z.log2 m - 52))%Z in
    let q := (m / ulp)%Z in
    let r := (m mod ulp)%Z in
    let q' := if (2 * r <? ulp)%Z then q
              else if (ulp <? 2 * r)%Z then (q + 1)%Z
              else if Z.even q then q else (q + 1)%Z in
    (Z.sgn x * (q' * ulp))%Z.

(** [a + b] on two such numbers: the exact sum, rounded.  One of the two
    is a text length wherever the program adds, so the sum stays below the
    largest double. *)
Definition numberAdd (a b : Z) : Z := roundToDouble (a + b).

Definition isTextNode (f : NodeFields) : bool :=
  match body f with TextBody _ _ => true | _ => false end.

Definition isBlockNode (f : NodeFields) : bool :=
  match body f with BlockBody _ => true | _ => false end.

(** ** Errors and the state monad of the mutators *)

Inductive Error : Type :=
| ReadOnlyViolation
| InvariantViolation
| TypeError
| RangeError.

Inductive Result (A : Type) : Type :=
| Ok (a : A)
| Err (e : Error).
Arguments Ok {A} a.
Arguments Err {A} e.

Definition bindR {A B} (r : Result A) (k : A → Result B) : Result B :=
  match r with Ok a => k a | Err e => Err e end.

Definition M (A : Type) : Type := Env → Result (A * Env).

Definition ret {A} (a : A) : M A := λ env, Ok (a, env).

Definition bind {A B} (m : M A) (k : A → M B) : M B :=
  λ env, match m env with
         | Ok (a, env') => k a env'
         | Err e => Err e
         end.

Definition throw {A} (e : Error) : M A := λ _, Err e.

Definition gets {A} (f : Env → A) : M A := λ env, Ok (f env, env).

Definition modify (f : Env → Env) : M unit := λ env, Ok (tt, f env).

(** A read that may throw, run inside a mutator. *)
Definition liftR {A} (r : Env → Result A) : M A :=
  λ env, match r env with Ok a => Ok (a, env) | Err e => Err e end.

Definition when (b : bool) (m : M unit) : M unit := if b then m else ret tt.

Declare Scope outline_scope.
Delimit Scope outline_scope with outline.
Notation "'let*' x ':=' m 'in' k" := (bind m (λ x, k))
  (at level 10, x name, m at level 100, k at level 200) : outline_scope.
Notation "m ;;; k" := (bind m (λ _, k))
  (at level 100, right associativity) : outline_scope.
Local Open Scope outline_scope.

(** ** State updates *)

Definition withNodeMap (g : gmap NodeKey NodeFields → gmap NodeKey NodeFields)
    (env : Env) : Env :=
  let vm := viewModel env in
  mkEnv (mkViewModel (g (nodeMap vm)) (dirtySubTrees vm) (dirtyNodes vm))
        (selection env) (readOnly env) (usedKeys env).

Definition withDirtySubTrees (g : gset NodeKey → gset NodeKey) (env : Env) : Env :=
  let vm := viewModel env in
  mkEnv (mkViewModel (nodeMap vm) (g (dirtySubTrees vm)) (dirtyNodes vm))
        (selection env) (readOnly env) (usedKeys env).

Definition withDirtyNodes (g : gset NodeKey → gset NodeKey) (env : Env) : Env :=
  let vm := viewModel env in
  mkEnv (mkViewModel (nodeMap vm) (dirtySubTrees vm) (g (dirtyNodes vm)))
        (selection env) (readOnly env) (usedKeys env).

Definition withSelection (g : Selection → Selection) (env : Env) : Env :=
  mkEnv (viewModel env) (g <$> selection env) (readOnly env) (usedKeys env).

Definition withUsedKeys (g : gset NodeKey → gset NodeKey) (env : Env) : Env :=
  mkEnv (viewModel env) (selection env) (readOnly env) (g (usedKeys env)).

Definition setParentF (p : option NodeKey) (f : NodeFields) : NodeFields :=
  mkFields p (flags f) (body f).

Definition setChildrenF (cs : list NodeKey) (f : NodeFields) : NodeFields :=
  mkFields (parent f) (flags f) (BlockBody cs).

Definition setTextF (t : string) (f : NodeFields) : NodeFields :=
  match body f with
  | TextBody _ u => mkFields (parent f) (flags f) (TextBody t u)
  | _ => f
  end.

Definition setAnchor (k : NodeKey) (o : Z) (s : Selection) : Selection :=
  mkSelection k o (focusKey s) (focusOffset s) (isDirty s).

Definition setFocus (k : NodeKey) (o : Z) (s : Selection) : Selection :=
  mkSelection (anchorKey s) (anchorOffset s) k o (isDirty s).

Definition setIsDirty (b : bool) (s : Selection) : Selection :=
  mkSelection (anchorKey s) (anchorOffset s) (focusKey s) (focusOffset s) b.

(** ** Collaborators of the block node *)

(** Modelled from the spec: [getNodeByKey] of OutlineNode.js, the registry
    lookup "resolve(key) -> Node | none" that reflects the latest written
    version within the active transaction. *)
Definition getNodeByKey (k : NodeKey) (env : Env) : option OutlineNode :=
  mkNode k <$> nodeMap (viewModel env) !! k.

(** Modelled from the spec: [OutlineNode.getLatest] of OutlineNode.js,
    which "resolves any (possibly stale) node reference to the most recent
    version known in the current transaction"; for an object that was never
    registered that version is the object itself. *)
Definition getLatest (this : OutlineNode) (env : Env) : OutlineNode :=
  default this (getNodeByKey (key this) env).

(** Modelled from the spec: [shouldErrorOnReadOnly] of OutlineView.js, the
    binary read-only gate checked at the start of every public mutator. *)
Definition shouldErrorOnReadOnly : M unit :=
  λ env, if readOnly env then Err ReadOnlyViolation else Ok (tt, env).

(** Modelled from the spec: [invariant] of OutlineUtils.js, which fails
    loudly with an InvariantViolation when its condition is false. *)
Definition invariant (cond : bool) : M unit :=
  if cond then ret tt else throw InvariantViolation.

(** Modelled from the spec: [getSelection] of OutlineSelection.js,
    "currentSelection() -> Selection | none". *)
Definition getSelection : M (option Selection) := gets selection.

(** Modelled from the spec: [getWritableNode] of OutlineNode.js.  A node
    already cloned in this transaction is returned as it is; otherwise a
    clone with the same key and the same field values becomes the
    registered version (and a node that was never registered is entered).
    The registry keeps one version per key, so in both cases the stored
    fields are those of the latest version, and the key is recorded among
    the nodes cloned in this transaction. *)
Definition getWritableNode (node : OutlineNode) : M OutlineNode :=
  λ env,
    let latest := getLatest node env in
    Ok (latest,
        withDirtyNodes (λ d, {[key node]} ∪ d)
          (withNodeMap (λ m, <[key node := fields latest]> m) env)).

(** Reading a field of a registered object goes through the registry;
    an object that is not registered only has its own fields. *)
Definition readFields (n : OutlineNode) : M NodeFields :=
  gets (λ env, fields (getLatest n env)).

(** Writing a field of a writable object updates the registered version. *)
Definition writeFields (n : OutlineNode) (g : NodeFields → NodeFields) : M unit :=
  modify (withNodeMap (alter g (key n))).

(** [node.children] where the object is expected to be a block node: on
    any other object the property is undefined and its use throws. *)
Definition childrenOf (f : NodeFields) : Result (list NodeKey) :=
  match body f with
  | BlockBody cs => Ok cs
  | _ => Err TypeError
  end.

(** Modelled from the spec: [OutlineNode.getParent] of OutlineNode.js:
    the parent identifier of the latest version, resolved through the
    registry. *)
Definition getParent (this : OutlineNode) (env : Env) : option OutlineNode :=
  p ← parent (getLatest this env); getNodeByKey p env.

(** [Array.prototype.indexOf] on a list of keys; [None] is -1. *)
Fixpoint indexOf (k : NodeKey) (l : list NodeKey) : option nat :=
  match l with
  | [] => None
  | x :: l' => if decide (x = k) then Some 0 else S <$> indexOf k l'
  end.

(** The unlinking of a key from the child list of a writable parent, as
    [append] does it for the previous parent: [indexOf], then
    [splice(index, 1)] when the key was found. *)
Definition unlinkFrom (writableParent : OutlineNode) (k : NodeKey) : M unit :=
  let* pf := readFields writableParent in
  let* children := liftR (λ _, childrenOf pf) in
  match indexOf k children with
  | Some index => writeFields writableParent (setChildrenF (delete index children))
  | None => ret tt
  end.

(** Modelled from the spec: [OutlineNode.remove] of OutlineNode.js, the
    node's "own detach/remove operation", which "unlinks parent pointers
    and registry entries": the key leaves the child list of the parent
    (the way [append] unlinks a node from its previous parent), the parent
    pointer is cleared, and the registry entry is dropped. *)
Definition remove (this : OutlineNode) : M unit :=
  shouldErrorOnReadOnly;;;
  let* writableNode := getWritableNode this in
  let* oldParent := gets (getParent writableNode) in
  match oldParent with
  | Some p =>
      let* writableParent := getWritableNode p in
      unlinkFrom writableParent (key writableNode)
  | None => ret tt
  end;;;
  writeFields writableNode (setParentF None);;;
  modify (withNodeMap (delete (key writableNode))).

(** Modelled from the spec: [flags] is a "bitset of style/category
    attributes (e.g., bold, italic, immutable, segmented)".  The constants
    IS_IMMUTABLE and IS_SEGMENTED are not in the sources at hand; they stand
    for two distinct category bits, taken here after the two style bits. *)
Definition IS_IMMUTABLE : Z := 4.
Definition IS_SEGMENTED : Z := 8.

(** Modelled from the spec: [TextNode.isImmutable] of TextNode.js. *)
Definition isImmutable (f : NodeFields) : bool :=
  negb (Z.land (flags f) IS_IMMUTABLE =? 0)%Z.

(** Modelled from the spec: [TextNode.isSegmented] of TextNode.js. *)
Definition isSegmented (f : NodeFields) : bool :=
  negb (Z.land (flags f) IS_SEGMENTED =? 0)%Z.

(** Modelled from the spec: [TextNode.getTextContent] of TextNode.js, the
    text of the latest version of the node. *)
Definition getTextContent (this : OutlineNode) (env : Env) : Result string :=
  match body (getLatest this env) with
  | TextBody t _ => Ok t
  | _ => Err TypeError
  end.

(** The text after [delCount] characters at [offset] are replaced by
    [newText]. *)
Definition spliceString (offset delCount : nat) (newText t : string) : string :=
  substring 0 offset t +:+ newText
    +:+ substring (offset + delCount) (String.length t - (offset + delCount)) t.

(** Modelled from the spec: [TextNode.spliceText] of TextNode.js, a
    mutator of the text of the writable version of the node. *)
Definition spliceText (this : OutlineNode) (offset delCount : nat)
    (newText : string) : M unit :=
  shouldErrorOnReadOnly;;;
  let* writableSelf := getWritableNode this in
  let* t := liftR (getTextContent writableSelf) in
  writeFields writableSelf (setTextF (spliceString offset delCount newText t)).

(** Modelled from the spec: the key of a new node is "process-unique":
    it is none of the keys handed out before and none of the registered
    ones. *)
Definition generateKey : M NodeKey :=
  λ env,
    let k := fresh (usedKeys env ∪ dom (nodeMap (viewModel env))) in
    Ok (k, withUsedKeys (λ u, {[k]} ∪ u) env).

(** Modelled from the spec: [createTextNode] of TextNode.js, the "factory
    for creating a fresh, empty text node": a detached text node without
    style flags and without url. *)
Definition createTextNode (text : string) : M OutlineNode :=
  let* k := generateKey in
  ret (mkNode k (mkFields None 0 (TextBody text None))).

(** Modelled from the spec: [TextNode.select] of TextNode.js, which
    places "the selection's anchor and focus" at the given offsets within
    this node; the selection then has to be re-applied, and there has to be
    a selection object to place. *)
Definition select (this : OutlineNode) (anchorOff focusOff : Z) : M unit :=
  shouldErrorOnReadOnly;;;
  let* sel := getSelection in
  invariant (bool_decide (sel ≠ None));;;
  modify (withSelection (λ s,
    setIsDirty true (setFocus (key this) focusOff (setAnchor (key this) anchorOff s)))).

(** ** OutlineBlockNode.js *)

(** [combineAdjacentTextNodes]: the loop over [textNodes[1..]].  The
    [key] of the source is [key writableMergeToNode]; [anchorKey0],
    [anchorOffset0], [focusKey0] and [focusOffset0] are the constants
    [anchorKey], [anchorOffset], [focusKey] and [focusOffset], read from
    the selection before the loop.  [textLength] is the length of the text
    built so far in the node merged into; the two sums of a length and an
    offset are sums of numbers. *)
Fixpoint combineLoop (restoreSelection : bool) (writableMergeToNode : OutlineNode)
    (anchorKey0 : NodeKey) (anchorOffset0 : Z)
    (focusKey0 : NodeKey) (focusOffset0 : Z)
    (textNodes : list OutlineNode) (textLength : nat) : M unit :=
  match textNodes with
  | [] => ret tt
  | textNode :: rest =>
      let* siblingText := liftR (getTextContent textNode) in
      when (restoreSelection && bool_decide (key textNode = anchorKey0))
        (modify (withSelection
           (setAnchor (key writableMergeToNode)
              (numberAdd (Z.of_nat textLength) anchorOffset0))));;;
      when (restoreSelection && bool_decide (key textNode = focusKey0))
        (modify (withSelection
           (setFocus (key writableMergeToNode)
              (numberAdd (Z.of_nat textLength) focusOffset0))));;;
      spliceText writableMergeToNode textLength 0 siblingText;;;
      remove textNode;;;
      combineLoop restoreSelection writableMergeToNode
        anchorKey0 anchorOffset0 focusKey0 focusOffset0
        rest (textLength + String.length siblingText)
  end.

(** [combineAdjacentTextNodes].  [textNodes[0]] of an empty array is
    [undefined], on which [getWritableNode] throws. *)
Definition combineAdjacentTextNodes (textNodes : list OutlineNode)
    (restoreSelection : bool) : M unit :=
  let* selection := getSelection in
  invariant (bool_decide (selection ≠ None));;;
  match selection with
  | None => throw InvariantViolation
  | Some sel =>
      match textNodes with
      | [] => throw TypeError
      | first :: rest =>
          let* writableMergeToNode := getWritableNode first in
          let* t := liftR (getTextContent writableMergeToNode) in
          combineLoop restoreSelection writableMergeToNode
            (anchorKey sel) (anchorOffset sel) (focusKey sel) (focusOffset sel)
            rest (String.length t);;;
          when restoreSelection (modify (withSelection (setIsDirty true)))
      end
  end.

(** [BlockNode.getChildren]. *)
Definition getChildren (this : OutlineNode) (env : Env) : Result (list OutlineNode) :=
  let self := getLatest this env in
  bindR (childrenOf self) (λ children,
    Ok (omap (λ k, getNodeByKey k env) children)).

(** The loop of [getFirstTextNode] and of [getLastTextNode] over the
    children in the order they are visited; [recurse] is the method
    itself, called on a block child. *)
Fixpoint textNodeLoop (recurse : OutlineNode → Result (option OutlineNode))
    (children : list OutlineNode) : Result (option OutlineNode) :=
  match children with
  | [] => Ok None
  | child :: rest =>
      if isTextNode child then Ok (Some child)
      else if isBlockNode child then recurse child
      else textNodeLoop recurse rest
  end.

(** [BlockNode.getFirstTextNode].  [depth] bounds the nesting of the
    recursive calls, as the call stack does; running out of it is the
    RangeError of a stack overflow. *)
Fixpoint getFirstTextNode (depth : nat) (this : OutlineNode) (env : Env)
    : Result (option OutlineNode) :=
  match depth with
  | 0 => Err RangeError
  | S d =>
      bindR (getChildren this env) (λ children,
        textNodeLoop (λ child, getFirstTextNode d child env) children)
  end.

(** [BlockNode.getLastTextNode]: the same loop from the last index down. *)
Fixpoint getLastTextNode (depth : nat) (this : OutlineNode) (env : Env)
    : Result (option OutlineNode) :=
  match depth with
  | 0 => Err RangeError
  | S d =>
      bindR (getChildren this env) (λ children,
        textNodeLoop (λ child, getLastTextNode d child env) (reverse children))
  end.

(** [BlockNode.getFirstChild]. *)
Definition getFirstChild (this : OutlineNode) (env : Env) : Result (option OutlineNode) :=
  let self := getLatest this env in
  bindR (childrenOf self) (λ children,
    match children with
    | [] => Ok None
    | k :: _ => Ok (getNodeByKey k env)
    end).

(** [BlockNode.getLastChild]. *)
Definition getLastChild (this : OutlineNode) (env : Env) : Result (option OutlineNode) :=
  let self := getLatest this env in
  bindR (childrenOf self) (λ children,
    let childrenLength := length children in
    if decide (childrenLength = 0) then Ok None
    else Ok (k ← children !! (childrenLength - 1); getNodeByKey k env)).

(** [lastChild instanceof TextNode && lastChild.text === ''], where
    [lastChild] may be [null]. *)
Definition isEmptyTextNode (lastChild : option OutlineNode) : bool :=
  match lastChild with
  | Some n =>
      match body n with
      | TextBody t _ => bool_decide (t = "")
      | _ => false
      end
  | None => false
  end.

(** [BlockNode.append]. *)
Definition append (this nodeToAppend : OutlineNode) : M OutlineNode :=
  shouldErrorOnReadOnly;;;
  let* writableSelf := getWritableNode this in
  let* writableNodeToAppend := getWritableNode nodeToAppend in
  let* oldParent := gets (getParent writableNodeToAppend) in
  match oldParent with
  | Some p =>
      let* writableParent := getWritableNode p in
      unlinkFrom writableParent (key writableNodeToAppend)
  | None => ret tt
  end;;;
  writeFields writableNodeToAppend (setParentF (Some (key writableSelf)));;;
  let* sf := readFields writableSelf in
  let* children := liftR (λ _, childrenOf sf) in
  let childrenLength := length children in
  when (bool_decide (0 < childrenLength))
    match children !! (childrenLength - 1) with
    | Some lastChildKey =>
        let* lastChild := gets (getNodeByKey lastChildKey) in
        when (isEmptyTextNode lastChild)
          (modify (withDirtySubTrees (λ d, {[lastChildKey]} ∪ d)))
    | None => ret tt
    end;;;
  let newKey := key writableNodeToAppend in
  writeFields writableSelf (setChildrenF (children ++ [newKey]));;;
  ret writableSelf.

(** [children.forEach((child) => child.remove())]. *)
Fixpoint forEachRemove (children : list OutlineNode) : M unit :=
  match children with
  | [] => ret tt
  | child :: rest => remove child;;; forEachRemove rest
  end.

(** [BlockNode.clear]. *)
Definition clear (this : OutlineNode) (restoreSelection : bool) : M OutlineNode :=
  shouldErrorOnReadOnly;;;
  let* writableSelf := getWritableNode this in
  let* children := liftR (getChildren this) in
  forEachRemove children;;;
  let* textNode := createTextNode "" in
  append this textNode;;;
  when restoreSelection (select textNode 0 0);;;
  ret writableSelf.

(** The condition under which the scanned child joins the running batch:
    [(lastTextNodeFlags === null || flags === lastTextNodeFlags) &&
     (lastURL === null || lastURL === url)]. *)
Definition joinsBatch (lastTextNodeFlags : option Z) (lastURL : option string)
    (flags : Z) (url : option string) : bool :=
  match lastTextNodeFlags with
  | None => true
  | Some lf => bool_decide (flags = lf)
  end
  &&
  match lastURL with
  | None => true
  | Some lu => bool_decide (Some lu = url)
  end.

(** [if (toNormalize.length > 1) combineAdjacentTextNodes(...)]. *)
Definition closeBatch (toNormalize : list OutlineNode) (restoreSelection : bool)
    : M unit :=
  if decide (1 < length toNormalize)
  then combineAdjacentTextNodes toNormalize restoreSelection
  else ret tt.

(** The [for] loop of [normalizeTextNodes] from index [i] on, with the
    loop variables [toNormalize], [lastTextNodeFlags] and [lastURL], and
    the closing of the pending batch after the loop. *)
Fixpoint normalizeLoop (restoreSelection : bool) (children : list OutlineNode)
    (toNormalize : list OutlineNode) (lastTextNodeFlags : option Z)
    (lastURL : option string) : M unit :=
  match children with
  | [] => closeBatch toNormalize restoreSelection
  | c :: rest =>
      let* child := gets (getLatest c) in
      let flags := flags child in
      match body child with
      | TextBody _ url =>
          if negb (isImmutable child) && negb (isSegmented child) then
            if joinsBatch lastTextNodeFlags lastURL flags url then
              normalizeLoop restoreSelection rest
                (toNormalize ++ [child]) (Some flags) url
            else
              closeBatch toNormalize restoreSelection;;;
              normalizeLoop restoreSelection rest [child] (Some flags) url
          else
            closeBatch toNormalize restoreSelection;;;
            normalizeLoop restoreSelection rest [] None lastURL
      | _ =>
          closeBatch toNormalize restoreSelection;;;
          normalizeLoop restoreSelection rest [] None lastURL
      end
  end.

(** [BlockNode.normalizeTextNodes]. *)
Definition normalizeTextNodes (this : OutlineNode) (restoreSelection : bool) : M unit :=
  shouldErrorOnReadOnly;;;
  let* children := liftR (getChildren this) in
  normalizeLoop restoreSelection children [] None None.

(** The scan of [normalizeTextNodes] as far as it goes without a merge:
    whether, from this point of the loop on, a batch of more than one node
    is closed, that is, whether [combineAdjacentTextNodes] gets called.
    Up to the first such call the registry is the one the scan started
    with. *)
Fixpoint scanMerges (children : list OutlineNode) (toNormalize : list OutlineNode)
    (lastTextNodeFlags : option Z) (lastURL : option string) (env : Env) : bool :=
  match children with
  | [] => bool_decide (1 < length toNormalize)
  | c :: rest =>
      let child := getLatest c env in
      let flags := flags child in
      match body child with
      | TextBody _ url =>
          if negb (isImmutable child) && negb (isSegmented child) then
            if joinsBatch lastTextNodeFlags lastURL flags url then
              scanMerges rest (toNormalize ++ [child]) (Some flags) url env
            else
              bool_decide (1 < length toNormalize)
              || scanMerges rest [child] (Some flags) url env
          else
            bool_decide (1 < length toNormalize)
            || scanMerges rest [] None lastURL env
      | _ =>
          bool_decide (1 < length toNormalize)
          || scanMerges rest [] None lastURL env
      end
  end.

(** Whether [normalizeTextNodes] on [this] attempts a merge. *)
Definition attemptsMerge (this : OutlineNode) (env : Env) : bool :=
  match getChildren this env with
  | Ok children => scanMerges children [] None None env
  | Err _ => false
  end.

(** ** The traversal the specification describes *)

(** Follows the spec's words, not the source: "depth-first search (in
    document order ...) that descends into block-node children recursively
    and returns the first ... encountered text node; returns none if no
    text node exists in the subtree".  A block child without a text node
    does not end the search. *)
Fixpoint specTextSearch (recurse : OutlineNode → Result (option OutlineNode))
    (children : list OutlineNode) : Result (option OutlineNode) :=
  match children with
  | [] => Ok None
  | child :: rest =>
      if isTextNode child then Ok (Some child)
      else if isBlockNode child then
        bindR (recurse child) (λ found,
          match found with
          | Some t => Ok (Some t)
          | None => specTextSearch recurse rest
          end)
      else specTextSearch recurse rest
  end.

Fixpoint specFirstTextNode (depth : nat) (this : OutlineNode) (env : Env)
    : Result (option OutlineNode) :=
  match depth with
  | 0 => Err RangeError
  | S d =>
      bindR (getChildren this env) (λ children,
        specTextSearch (λ child, specFirstTextNode d child env) children)
  end.

Fixpoint specLastTextNode (depth : nat) (this : OutlineNode) (env : Env)
    : Result (option OutlineNode) :=
  match depth with
  | 0 => Err RangeError
  | S d =>
      bindR (getChildren this env) (λ children,
        specTextSearch (λ child, specLastTextNode d child env) (reverse children))
  end.

(** ** The normalization the specification describes *)

(** Follows the spec's words, not the source: a text node can be merged
    when it is "not immutable, not segmented". *)
Definition specMergeable (n : OutlineNode) : bool :=
  isTextNode n && negb (isImmutable n) && negb (isSegmented n).

Definition urlOf (f : NodeFields) : option string :=
  match body f with TextBody _ u => u | _ => None end.

Definition textOf (f : NodeFields) : string :=
  match body f with TextBody t _ => t | _ => "" end.

(** Follows the spec's words: the nodes of a batch "share identical flags
    and url" with "the first node in a batch", which "sets the reference
    flags/url; subsequent nodes must match exactly". *)
Definition specSameBatch (first n : OutlineNode) : bool :=
  bool_decide (flags n = flags first) && bool_decide (urlOf n = urlOf first).

(** The node a closed batch leaves behind: its first node, with the
    concatenated text. *)
Definition specFlush (batch : option (OutlineNode * string)) : list OutlineNode :=
  match batch with
  | Some (first, acc) => [mkNode (key first) (setTextF acc first)]
  | None => []
  end.

(** Follows the spec's words: the children after every maximal batch has
    been merged into its first node, "concatenat[ing] text content in batch
    order".  [batch] is the running batch: its first node and the text
    accumulated so far. *)
Fixpoint specNormalize (children : list OutlineNode)
    (batch : option (OutlineNode * string)) : list OutlineNode :=
  match children with
  | [] => specFlush batch
  | c :: rest =>
      if specMergeable c then
        match batch with
        | Some (first, acc) =>
            if specSameBatch first c
            then specNormalize rest (Some (first, acc +:+ textOf c))
            else specFlush batch ++ specNormalize rest (Some (c, textOf c))
        | None => specNormalize rest (Some (c, textOf c))
        end
      else specFlush batch ++ c :: specNormalize rest None
  end.

(** ** Concrete documents *)

Definition textFields (p : NodeKey) (fl : Z) (t : string) (u : option string)
    : NodeFields :=
  mkFields (Some p) fl (TextBody t u).

Definition blockFields (p : option NodeKey) (cs : list NodeKey) : NodeFields :=
  mkFields p 0 (BlockBody cs).

(** A view model in a write transaction that registers the given nodes. *)
Definition envOf (nodes : list (NodeKey * NodeFields)) (sel : option Selection) : Env :=
  mkEnv (mkViewModel (list_to_map nodes) ∅ ∅) sel false (list_to_set nodes.*1).

(** The child keys of the registered version of a block. *)
Definition childKeys (k : NodeKey) (env : Env) : option (list NodeKey) :=
  f ← nodeMap (viewModel env) !! k;
  match body f with BlockBody cs => Some cs | _ => None end.

(** The children of [this] once the mutator [m] has run from [env]. *)
Definition childrenAfter {A} (m : M A) (this : OutlineNode) (env : Env)
    : Result (list OutlineNode) :=
  match m env with
  | Ok (_, env') => getChildren this env'
  | Err e => Err e
  end.

(** The selection once the mutator [m] has run from [env]. *)
Definition selectionAfter {A} (m : M A) (env : Env) : Result (option Selection) :=
  match m env with
  | Ok (_, env') => Ok (selection env')
  | Err e => Err e
  end.

(** The children of [this] in [env], as [getChildren] returns them, or no
    children when it throws. *)
Definition liveChildren (this : OutlineNode) (env : Env) : list OutlineNode :=
  match getChildren this env with Ok l => l | Err _ => [] end.

(** A root block whose children are an empty block, a text node and
    another empty block. *)
Definition docEmptyBlocks : Env :=
  envOf [("root", blockFields None ["e1"; "t"; "e2"]);
         ("e1", blockFields (Some "root") []);
         ("t", textFields "root" 0 "a" None);
         ("e2", blockFields (Some "root") [])] None.

(** A reference to the root block taken before it had children: the
    methods go to the latest version. *)
Definition rootRef : OutlineNode := mkNode "root" (blockFields None []).

(** The document of the merge example: "ab" and "cd" with flags 0, "ef"
    with flags 1. *)
Definition docMerge (sel : option Selection) : Env :=
  envOf [("root", blockFields None ["t1"; "t2"; "t3"]);
         ("t1", textFields "root" 0 "ab" None);
         ("t2", textFields "root" 0 "cd" None);
         ("t3", textFields "root" 1 "ef" None)] sel.

(** A plain text node followed by a link with the same flags. *)
Definition docPlainThenLink (sel : option Selection) : Env :=
  envOf [("root", blockFields None ["t1"; "t2"]);
         ("t1", textFields "root" 0 "ab" None);
         ("t2", textFields "root" 0 "cd" (Some "https://example.org"))] sel.

(** A link between two plain text nodes, all with the same flags. *)
Definition docPlainLinkPlain (sel : option Selection) : Env :=
  envOf [("root", blockFields None ["t1"; "t2"; "t3"]);
         ("t1", textFields "root" 0 "a" None);
         ("t2", textFields "root" 0 "b" (Some "https://example.org"));
         ("t3", textFields "root" 0 "c" None)] sel.

Definition someSelection : Selection := mkSelection "root" 0 "root" 0 false.

(** A block whose first and last stored child keys do not resolve. *)
Definition docDangling : Env :=
  envOf [("root", blockFields None ["gone1"; "t"; "gone2"]);
         ("t", textFields "root" 0 "a" None)] None.

(** ** Notions used in the statements and proofs *)

(** [cs] once the first occurrence of [k] has been spliced out. *)
Definition unlinked (k : NodeKey) (cs : list NodeKey) : list NodeKey :=
  match indexOf k cs with Some i => delete i cs | None => cs end.

(** The version of a parent once [k] has been spliced out of its child
    list. *)
Definition unlinkF (k : NodeKey) (f : NodeFields) : NodeFields :=
  match body f with
  | BlockBody cs => setChildrenF (unlinked k cs) f
  | _ => f
  end.

(** The registry once [k] has been unlinked from the parent [p]. *)
Definition detached (k : NodeKey) (p : option NodeKey)
    (nm : gmap NodeKey NodeFields) : gmap NodeKey NodeFields :=
  match p with
  | Some kP => alter (unlinkF k) kP nm
  | None => nm
  end.

(** [env'] differs from [env] in the registry and in the set of cloned
    nodes at most. *)
Definition onlyNodes (env env' : Env) : Prop :=
  selection env' = selection env
  ∧ readOnly env' = readOnly env
  ∧ usedKeys env' = usedKeys env
  ∧ dirtySubTrees (viewModel env') = dirtySubTrees (viewModel env).

(** The text of a version, if it is a text node. *)
Definition txt (f : NodeFields) : option string :=
  match body f with TextBody t _ => Some t | _ => None end.

(** The length of the text content of a node, 0 if it has none. *)
Definition textLengthOf (n : OutlineNode) (env : Env) : nat :=
  match getTextContent n env with Ok t => String.length t | Err _ => 0 end.

(** The registry once the given objects have been entered, for those
    that were not registered yet (what [getWritableNode] does to it). *)
Definition registryWith (nodes : list OutlineNode) (env : Env)
    : gmap NodeKey NodeFields :=
  foldl (λ nm n, <[key n := default (fields n) (nm !! key n)]> nm)
        (nodeMap (viewModel env)) nodes.

(** The parent/child linkage of the data model, for the key [k] and one
    registered node: a block that lists [k] among its children lists no key
    twice and is the parent of [k]. *)
Definition listsAsParent (nm : gmap NodeKey NodeFields) (k kP : NodeKey)
    (fP : NodeFields) : Prop :=
  match body fP with
  | BlockBody csP => k ∈ csP → NoDup csP ∧ (nm !! k ≫= parent) = Some kP
  | _ => True
  end.

#[global] Instance listsAsParent_dec nm k kP fP : Decision (listsAsParent nm k kP fP).
Proof. unfold listsAsParent. destruct (body fP); apply _. Defined.

(** ... for every registered node. *)
Definition parentLinked (nm : gmap NodeKey NodeFields) (k : NodeKey) : Prop :=
  map_Forall (listsAsParent nm k) nm.

#[global] Instance parentLinked_dec nm k : Decision (parentLinked nm k).
Proof. unfold parentLinked. apply _. Defined.

(** A block whose last child "x" is preceded by an empty text node. *)
Definition docTrailingEmpty : Env :=
  envOf [("root", blockFields None ["t"; "x"]);
         ("t", textFields "root" 0 "" None);
         ("x", textFields "root" 0 "x" None)] None.

(** A block whose only child is an empty text node. *)
Definition docOnlyEmpty : Env :=
  envOf [("root", blockFields None ["t"]);
         ("t", textFields "root" 0 "" None)] None.

(** A block with an empty last child, and a detached node to append. *)
Definition docAppend : Env :=
  envOf [("root", blockFields None ["a"; "t"]);
         ("a", textFields "root" 0 "a" None);
         ("t", textFields "root" 0 "" None);
         ("other", blockFields None ["c"]);
         ("c", textFields "other" 0 "c" None)] None.

(** The value and the state a call returns, or the given ones. *)
Definition returned {A} (r : Result (A * Env)) (otherwise : A * Env) : A * Env :=
  match r with Ok x => x | Err _ => otherwise end.

Definition nodeRef (k : NodeKey) : OutlineNode := mkNode k (mkFields None 0 BaseBody).

(** The text length accumulated in the node merged into, starting from
    [acc], just before the node with key [k] is spliced in, when [k] is
    the key of one of [nodes]. *)
Fixpoint offsetBefore (k : NodeKey) (nodes : list OutlineNode) (env : Env)
    (acc : nat) : option nat :=
  match nodes with
  | [] => None
  | n :: rest =>
      if decide (key n = k) then Some acc
      else offsetBefore k rest env (acc + textLengthOf n env)
  end.

(** The text contents of [nodes], concatenated in order. *)
Fixpoint concatTexts (nodes : list OutlineNode) (env : Env) : string :=
  match nodes with
  | [] => ""
  | n :: rest =>
      match getTextContent n env with Ok t => t | Err _ => "" end
        +:+ concatTexts rest env
  end.

(** The selection is there and is marked dirty. *)
Definition selectionDirty (env : Env) : Prop :=
  ∃ sel, selection env = Some sel ∧ isDirty sel = true.

(** One end of a selection. *)
Definition anchorOf (s : Selection) : NodeKey * Z := (anchorKey s, anchorOffset s).
Definition focusOf (s : Selection) : NodeKey * Z := (focusKey s, focusOffset s).

(** The text of the registered version of the text node with key [k]. *)
Definition registeredText (k : NodeKey) (env : Env) : option string :=
  nodeMap (viewModel env) !! k ≫= txt.

(** The two text nodes of the rebasing example. *)
Definition docTwoTexts (sel : option Selection) : Env :=
  envOf [("root", blockFields None ["t1"; "t2"]);
         ("t1", textFields "root" 0 "ab" None);
         ("t2", textFields "root" 0 "cd" None)] sel.

(** The selection of the rebasing example: the anchor between 'c' and 'd'
    of the second node; the focus after 'd'. *)
Definition selectionInSecond : Selection := mkSelection "t2" 1 "t2" 2 false.

(** A selection whose two ends are in the third node, which no merge of
    the example touches. *)
Definition selectionInThird : Selection := mkSelection "t3" 1 "t3" 2 false.

(** ** Further notions used in the statements *)

(** The condition of lines 170-174 under which a child is put into a
    batch: a text node that is neither immutable nor segmented. *)
Definition qualifies (f : NodeFields) : bool :=
  isTextNode f && negb (isImmutable f) && negb (isSegmented f).

(** The test of lines 176-179 for a child [b] that comes right after the
    child [a] that was put into the batch last: [lastTextNodeFlags] and
    [lastURL] are then the flags and the url of [a]. *)
Definition joins (a b : NodeFields) : bool :=
  joinsBatch (Some (flags a)) (urlOf a) (flags b) (urlOf b).

(** Whether two adjacent nodes of the list both qualify and the second
    joins the first. *)
Fixpoint adjacentJoin (l : list OutlineNode) : bool :=
  match l with
  | a :: rest =>
      match rest with
      | b :: _ => (qualifies a && qualifies b && joins a b) || adjacentJoin rest
      | [] => false
      end
  | [] => false
  end.

(** The state with the read-only gate set. *)
Definition readOnlyEnv (env : Env) : Env :=
  mkEnv (viewModel env) (selection env) true (usedKeys env).

(** A block inside a block, each with text. *)
Definition docNested : Env :=
  envOf [("root", blockFields None ["b1"; "t3"]);
         ("b1", blockFields (Some "root") ["t1"; "t2"]);
         ("t1", textFields "b1" 0 "one" None);
         ("t2", textFields "b1" 0 "two" None);
         ("t3", textFields "root" 0 "three" None)] None.

(** A link, a text node that is immutable, and a plain text node. *)
Definition docLinkImmutablePlain (sel : option Selection) : Env :=
  envOf [("root", blockFields None ["t1"; "t2"; "t3"]);
         ("t1", textFields "root" 0 "a" (Some "https://example.org"));
         ("t2", textFields "root" IS_IMMUTABLE "b" None);
         ("t3", textFields "root" 0 "c" None)] sel.

(** The nodes of the list form one batch of [normalizeTextNodes]: each is
    a text node that is neither immutable nor segmented, and each joins
    the one before it. *)
Fixpoint oneBatch (l : list OutlineNode) : bool :=
  match l with
  | a :: rest =>
      qualifies a
      && match rest with b :: _ => joins a b | [] => true end
      && oneBatch rest
  | [] => true
  end.

(** Three plain text nodes with the same flags. *)
Definition docThreeTexts (sel : option Selection) : Env :=
  envOf [("root", blockFields None ["t1"; "t2"; "t3"]);
         ("t1", textFields "root" 0 "ab" None);
         ("t2", textFields "root" 0 "cd" None);
         ("t3", textFields "root" 0 "ef" None)] sel.

(** The stored child keys of a version; none for a node that is not a
    block. *)
Definition storedChildren (f : NodeFields) : list NodeKey :=
  match body f with BlockBody cs => cs | _ => [] end.

(** The child lists of the registry have no cycle: [rank] decreases from
    every registered node to each of its stored children that resolve. *)
Definition ranked (rank : NodeKey → nat) (env : Env) : Prop :=
  map_Forall
    (λ k f, Forall (λ c, is_Some (nodeMap (viewModel env) !! c) → rank c < rank k)
              (storedChildren f))
    (nodeMap (viewModel env)).

#[global] Instance ranked_dec rank env : Decision (ranked rank env).
Proof. unfold ranked. apply _. Defined.

(** The nesting depth of the nested document. *)
Definition rankNested (k : NodeKey) : nat :=
  if decide (k = "root") then 2 else if decide (k = "b1") then 1 else 0.

(** ** Reasoning about the monad *)

Lemma bind_Ok {A B} (m : M A) (k : A → M B) env b env' :
  bind m k env = Ok (b, env') →
  ∃ a env1, m env = Ok (a, env1) ∧ k a env1 = Ok (b, env').
Proof.
  unfold bind. destruct (m env) as [[a env1]|e]; [|discriminate].
  intros H. by exists a, env1.
Qed.

Lemma bind_eq {A B} (m : M A) (k : A → M B) env a env1 :
  m env = Ok (a, env1) → bind m k env = k a env1.
Proof. unfold bind. by intros ->. Qed.

Lemma bind_Err {A B} (m : M A) (k : A → M B) env e :
  m env = Err e → bind m k env = Err e.
Proof. unfold bind. by intros ->. Qed.

Ltac inv_bind H :=
  let a := fresh "a" in
  let env1 := fresh "env" in
  let H1 := fresh "Hstep" in
  apply bind_Ok in H as (a & env1 & H1 & H).

(** ** The scan without a merge *)

Lemma closeBatch_short toNormalize r env :
  ¬ 1 < length toNormalize → closeBatch toNormalize r env = Ok (tt, env).
Proof. intros Hlen. unfold closeBatch. by rewrite decide_False. Qed.

Lemma closeBatch_no_selection toNormalize r env :
  selection env = None → 1 < length toNormalize →
  closeBatch toNormalize r env = Err InvariantViolation.
Proof.
  intros Hsel Hlen. unfold closeBatch. rewrite decide_True by done.
  unfold combineAdjacentTextNodes, bind, getSelection, gets. by rewrite Hsel.
Qed.

(** As long as no batch of more than one node is closed, the scan leaves
    the state as it is. *)
Lemma normalizeLoop_no_merge r children : ∀ toNormalize lf lu env,
  scanMerges children toNormalize lf lu env = false →
  normalizeLoop r children toNormalize lf lu env = Ok (tt, env).
Proof.
  induction children as [|c rest IH]; intros acc lf lu env Hscan; simpl in *.
  - apply closeBatch_short. by apply bool_decide_eq_false in Hscan.
  - unfold bind at 1, gets at 1.
    destruct (body (getLatest c env)) as [t url|cs|].
    + destruct (negb _ && negb _).
      * destruct (joinsBatch _ _ _ _); [by apply IH|].
        apply orb_false_iff in Hscan as [Hlen Hscan].
        apply bool_decide_eq_false in Hlen.
        rewrite (bind_eq _ _ _ _ _ (closeBatch_short _ _ _ Hlen)). by apply IH.
      * apply orb_false_iff in Hscan as [Hlen Hscan].
        apply bool_decide_eq_false in Hlen.
        rewrite (bind_eq _ _ _ _ _ (closeBatch_short _ _ _ Hlen)). by apply IH.
    + apply orb_false_iff in Hscan as [Hlen Hscan].
      apply bool_decide_eq_false in Hlen.
      rewrite (bind_eq _ _ _ _ _ (closeBatch_short _ _ _ Hlen)). by apply IH.
    + apply orb_false_iff in Hscan as [Hlen Hscan].
      apply bool_decide_eq_false in Hlen.
      rewrite (bind_eq _ _ _ _ _ (closeBatch_short _ _ _ Hlen)). by apply IH.
Qed.

(** Without a selection the scan stops at the first batch of more than
    one node. *)
Lemma normalizeLoop_no_selection r children : ∀ toNormalize lf lu env,
  selection env = None →
  scanMerges children toNormalize lf lu env = true →
  normalizeLoop r children toNormalize lf lu env = Err InvariantViolation.
Proof.
  induction children as [|c rest IH]; intros acc lf lu env Hsel Hscan; simpl in *.
  - apply closeBatch_no_selection; [done|]. by apply bool_decide_eq_true in Hscan.
  - unfold bind at 1, gets at 1.
    assert (Hclose : ∀ acc' lf' lu',
      bool_decide (1 < length acc) || scanMerges rest acc' lf' lu' env = true →
      bind (closeBatch acc r) (λ _, normalizeLoop r rest acc' lf' lu') env
      = Err InvariantViolation).
    { intros acc' lf' lu' H. destruct (decide (1 < length acc)) as [Hlen|Hlen].
      - by rewrite (bind_Err _ _ _ _ (closeBatch_no_selection _ _ _ Hsel Hlen)).
      - rewrite (bind_eq _ _ _ _ _ (closeBatch_short _ _ _ Hlen)).
        apply IH; [done|]. apply orb_true_iff in H as [H|H]; [|done].
        by apply bool_decide_eq_true in H. }
    destruct (body (getLatest c env)) as [t url|cs|]; [|by apply Hclose..].
    destruct (negb _ && negb _); [|by apply Hclose].
    destruct (joinsBatch _ _ _ _); [by apply IH|by apply Hclose].
Qed.

(** ** The collaborators, step by step *)

Lemma onlyNodes_trans env1 env2 env3 :
  onlyNodes env1 env2 → onlyNodes env2 env3 → onlyNodes env1 env3.
Proof. unfold onlyNodes. intros (?&?&?&?) (?&?&?&?). repeat split; congruence. Qed.

Lemma key_getLatest n env : key (getLatest n env) = key n.
Proof.
  unfold getLatest, getNodeByKey.
  by destruct (nodeMap (viewModel env) !! key n).
Qed.

Lemma fields_getLatest n env :
  fields (getLatest n env) = default (fields n) (nodeMap (viewModel env) !! key n).
Proof.
  unfold getLatest, getNodeByKey.
  by destruct (nodeMap (viewModel env) !! key n).
Qed.

Lemma getLatest_registered n env f :
  nodeMap (viewModel env) !! key n = Some f → getLatest n env = mkNode (key n) f.
Proof. intros H. unfold getLatest, getNodeByKey. by rewrite H. Qed.

Lemma shouldErrorOnReadOnly_inv env u env' :
  shouldErrorOnReadOnly env = Ok (u, env') → readOnly env = false ∧ env' = env.
Proof.
  unfold shouldErrorOnReadOnly. destruct (readOnly env); [done|].
  by intros [= _ <-].
Qed.

Lemma gets_inv {A} (f : Env → A) env a env' :
  gets f env = Ok (a, env') → a = f env ∧ env' = env.
Proof. unfold gets. by intros [= <- <-]. Qed.

Lemma getWritableNode_inv n env w env' :
  getWritableNode n env = Ok (w, env') →
  w = getLatest n env
  ∧ nodeMap (viewModel env') = <[key n := fields w]> (nodeMap (viewModel env))
  ∧ onlyNodes env env'.
Proof. unfold getWritableNode. by intros [= <- <-]. Qed.

Lemma setChildrenF_same f cs : body f = BlockBody cs → setChildrenF cs f = f.
Proof. destruct f as [p fl b]. simpl. by intros ->. Qed.

Lemma unlinkFrom_inv wP k env u env' :
  unlinkFrom wP k env = Ok (u, env') →
  isBlockNode (getLatest wP env) = true
  ∧ nodeMap (viewModel env') = alter (unlinkF k) (key wP) (nodeMap (viewModel env))
  ∧ onlyNodes env env'.
Proof.
  unfold unlinkFrom, bind, readFields, gets, liftR, childrenOf, isBlockNode.
  destruct (body (getLatest wP env)) as [|csP|] eqn:Hbody; try done.
  intros H. split; [done|].
  assert (Halter : ∀ g, (∀ f, body f = BlockBody csP → g f = setChildrenF (unlinked k csP) f) →
    alter g (key wP) (nodeMap (viewModel env))
    = alter (unlinkF k) (key wP) (nodeMap (viewModel env))).
  { intros g Hg. apply map_eq. intros i. rewrite !lookup_alter.
    case_decide; [|done]. subst i.
    destruct (nodeMap (viewModel env) !! key wP) as [f|] eqn:Hf; [|done]. simpl.
    rewrite (getLatest_registered _ _ _ Hf) in Hbody. simpl in Hbody.
    rewrite (Hg _ Hbody). unfold unlinkF. by rewrite Hbody. }
  unfold unlinked in Halter |- *.
  destruct (indexOf k csP) as [i|].
  - unfold writeFields, modify in H. injection H as _ <-. simpl.
    split; [|done]. by apply Halter.
  - unfold ret in H. injection H as _ <-. split; [|done].
    rewrite <- (Halter id).
    + symmetry. by apply alter_id.
    + intros f Hf. symmetry. by apply setChildrenF_same.
Qed.

(** The statement [// Remove node from previous parent] of [append], which
    [remove] shares. *)
Lemma detach_inv (w : OutlineNode) env u env' :
  match getParent w env with
  | Some p => bind (getWritableNode p) (λ writableParent,
                unlinkFrom writableParent (key w))
  | None => ret tt
  end env = Ok (u, env') →
  nodeMap (viewModel env')
    = detached (key w) (parent (getLatest w env)) (nodeMap (viewModel env))
  ∧ onlyNodes env env'.
Proof.
  unfold getParent, detached.
  destruct (parent (getLatest w env)) as [kP|]; simpl.
  - unfold getNodeByKey.
    destruct (nodeMap (viewModel env) !! kP) as [fP|] eqn:HP; simpl.
    + intros H. inv_bind H. apply getWritableNode_inv in Hstep as (-> & Hnm & Hfr).
      apply unlinkFrom_inv in H as (_ & Hnm' & Hfr').
      rewrite key_getLatest in Hnm'. simpl in *.
      split; [|by eapply onlyNodes_trans].
      rewrite Hnm', Hnm. f_equal. apply insert_id.
      by rewrite fields_getLatest; simpl; rewrite HP.
    + intros [= _ <-]. split; [|done]. symmetry. apply alter_id. congruence.
  - by intros [= _ <-].
Qed.
Lemma getLatest_entered n env env0 :
  nodeMap (viewModel env0)
    = <[key n := fields (getLatest n env)]> (nodeMap (viewModel env)) →
  getLatest (getLatest n env) env0 = getLatest n env.
Proof.
  intros Hnm. unfold getLatest at 1. unfold getNodeByKey.
  rewrite key_getLatest, Hnm, lookup_insert_eq. simpl.
  rewrite <- (key_getLatest n env). by destruct (getLatest n env).
Qed.

Lemma remove_inv n env u env' :
  remove n env = Ok (u, env') →
  readOnly env = false
  ∧ nodeMap (viewModel env')
    = delete (key n)
        (detached (key n) (parent (getLatest n env))
           (<[key n := fields (getLatest n env)]> (nodeMap (viewModel env))))
  ∧ onlyNodes env env'.
Proof.
  unfold remove. intros H.
  inv_bind H. apply shouldErrorOnReadOnly_inv in Hstep as [Hro ->].
  inv_bind H. apply getWritableNode_inv in Hstep as (-> & Hnm1 & Hfr1).
  inv_bind H. apply gets_inv in Hstep as [-> ->].
  inv_bind H. apply detach_inv in Hstep as (Hnm2 & Hfr2).
  inv_bind H. unfold writeFields, modify in Hstep, H.
  injection Hstep as _ <-. injection H as _ <-. simpl.
  rewrite key_getLatest in *.
  split; [done|]. split.
  - rewrite delete_alter, decide_True by done.
    by rewrite Hnm2, (getLatest_entered _ _ _ Hnm1), Hnm1.
  - destruct Hfr1 as (?&?&?&?), Hfr2 as (?&?&?&?). unfold onlyNodes. simpl.
    repeat split; congruence.
Qed.

Lemma spliceText_inv n offset delCount newText env u env' :
  spliceText n offset delCount newText env = Ok (u, env') →
  readOnly env = false
  ∧ (∃ t, getTextContent n env = Ok t
       ∧ nodeMap (viewModel env')
         = <[key n := setTextF (spliceString offset delCount newText t)
                        (getLatest n env)]> (nodeMap (viewModel env)))
  ∧ onlyNodes env env'.
Proof.
  unfold spliceText. intros H.
  inv_bind H. apply shouldErrorOnReadOnly_inv in Hstep as [Hro ->].
  inv_bind H. apply getWritableNode_inv in Hstep as (-> & Hnm1 & Hfr1).
  inv_bind H. unfold liftR in Hstep.
  destruct (getTextContent (getLatest n env) env0) as [t|] eqn:Ht; [|done].
  injection Hstep as <- <-.
  unfold writeFields, modify in H. injection H as _ <-. simpl.
  rewrite key_getLatest in *.
  assert (Hlatest : fields (getLatest (getLatest n env) env0) = fields (getLatest n env)).
  { by rewrite (getLatest_entered _ _ _ Hnm1). }
  split; [done|]. split.
  - exists t. split.
    + unfold getTextContent in *. by rewrite Hlatest in Ht.
    + rewrite Hnm1. apply map_eq. intros i. rewrite lookup_alter.
      case_decide; [subst i; by rewrite !lookup_insert_eq|by rewrite !lookup_insert_ne].
  - destruct Hfr1 as (?&?&?&?). unfold onlyNodes. by simpl.
Qed.
Lemma dom_detached k p (nm : gmap NodeKey NodeFields) : dom (detached k p nm) = dom nm.
Proof. unfold detached. destruct p; [apply dom_alter_L|done]. Qed.

Lemma last_lookup_pred {A} (l : list A) : l !! (length l - 1) = last l.
Proof. rewrite last_lookup. f_equal. lia. Qed.

(** What a call of [append] that returns has done, step by step. *)
Lemma append_inv this nodeToAppend env w env' :
  append this nodeToAppend env = Ok (w, env') →
  let nm1 := <[key this := fields (getLatest this env)]> (nodeMap (viewModel env)) in
  let fC := default (fields nodeToAppend) (nm1 !! key nodeToAppend) in
  let nm2 := <[key nodeToAppend := fC]> nm1 in
  let nm3 := detached (key nodeToAppend) (parent fC) nm2 in
  let nm4 := alter (setParentF (Some (key this))) (key nodeToAppend) nm3 in
  readOnly env = false
  ∧ ∃ sf children,
      nm4 !! key this = Some sf
      ∧ body sf = BlockBody children
      ∧ nodeMap (viewModel env')
        = <[key this := setChildrenF (children ++ [key nodeToAppend]) sf]> nm4
      ∧ dirtySubTrees (viewModel env')
        = match last children with
          | Some k =>
              if isEmptyTextNode (mkNode k <$> nm4 !! k)
              then {[k]} ∪ dirtySubTrees (viewModel env)
              else dirtySubTrees (viewModel env)
          | None => dirtySubTrees (viewModel env)
          end
      ∧ selection env' = selection env
      ∧ readOnly env' = readOnly env
      ∧ usedKeys env' = usedKeys env.
Proof.
  intros H nm1 fC nm2 nm3 nm4. unfold append in H.
  inv_bind H. apply shouldErrorOnReadOnly_inv in Hstep as [Hro ->].
  inv_bind H. apply getWritableNode_inv in Hstep as (-> & Hnm1 & Hfr1).
  inv_bind H. apply getWritableNode_inv in Hstep as (-> & Hnm2 & Hfr2).
  inv_bind H. apply gets_inv in Hstep as [-> ->].
  inv_bind H. apply detach_inv in Hstep as (Hnm3 & Hfr3).
  inv_bind H. unfold writeFields, modify in Hstep. injection Hstep as _ <-.
  inv_bind H. unfold readFields in Hstep. apply gets_inv in Hstep as [-> ->].
  rewrite !key_getLatest in *.
  rewrite (getLatest_entered _ _ _ Hnm2) in Hnm3.
  rewrite fields_getLatest in Hnm2, Hnm3. rewrite Hnm1 in Hnm2, Hnm3.
  fold nm1 in Hnm1, Hnm2, Hnm3. fold fC in Hnm2, Hnm3. fold nm2 in Hnm2, Hnm3.
  rewrite Hnm2 in Hnm3. fold nm3 in Hnm3.
  set (env5 := withNodeMap _ env2) in *.
  assert (Hnm5 : nodeMap (viewModel env5) = nm4) by (simpl; by rewrite Hnm3).
  assert (Hfr5 : onlyNodes env env5).
  { destruct Hfr1 as (?&?&?&?), Hfr2 as (?&?&?&?), Hfr3 as (?&?&?&?).
    unfold onlyNodes. simpl. repeat split; congruence. }
  clearbody env5.
  assert (is_Some (nm4 !! key this)) as [sf Hsf].
  { apply elem_of_dom. unfold nm4, nm3, nm2, nm1.
    rewrite dom_alter_L, dom_detached, !dom_insert_L. set_solver. }
  inv_bind H. unfold liftR, childrenOf in Hstep.
  rewrite fields_getLatest, key_getLatest, Hnm5, Hsf in Hstep. simpl in Hstep.
  destruct (body sf) as [|children|] eqn:Hbody; try done.
  injection Hstep as <- <-.
  split; [done|]. exists sf, children. split; [done|]. split; [done|].
  inv_bind H. rewrite last_lookup_pred in Hstep.
  assert (Hstep' : nodeMap (viewModel env3) = nm4
    ∧ selection env3 = selection env ∧ readOnly env3 = readOnly env
    ∧ usedKeys env3 = usedKeys env
    ∧ dirtySubTrees (viewModel env3)
      = match last children with
        | Some k =>
            if isEmptyTextNode (mkNode k <$> nm4 !! k)
            then {[k]} ∪ dirtySubTrees (viewModel env)
            else dirtySubTrees (viewModel env)
        | None => dirtySubTrees (viewModel env)
        end).
  { destruct Hfr5 as (Hs & Hr & Hu & Hd). unfold when in Hstep.
    destruct (last children) as [k|] eqn:Hlast.
    - assert (bool_decide (0 < length children) = true) as Hpos.
      { apply bool_decide_eq_true. destruct children; [done|simpl; lia]. }
      rewrite Hpos in Hstep. inv_bind Hstep. apply gets_inv in Hstep0 as [-> ->].
      unfold getNodeByKey in Hstep. rewrite Hnm5 in Hstep.
      destruct (isEmptyTextNode (mkNode k <$> nm4 !! k)).
      + unfold modify in Hstep. injection Hstep as _ <-. simpl.
        by rewrite Hs, Hr, Hu, Hd.
      + unfold ret in Hstep. injection Hstep as _ <-. by rewrite Hs, Hr, Hu, Hd.
    - destruct (bool_decide (0 < length children));
        unfold ret in Hstep; injection Hstep as _ <-; by rewrite Hs, Hr, Hu, Hd. }
  destruct Hstep' as (Hnm6 & Hs & Hr & Hu & Hd).
  inv_bind H. unfold writeFields, modify in Hstep0. injection Hstep0 as _ <-.
  unfold ret in H. injection H as _ <-. simpl.
  rewrite key_getLatest, Hnm6. repeat split; try done.
  apply map_eq. intros i. rewrite lookup_alter.
  destruct (decide (key this = i)) as [<-|Hne].
  - by rewrite Hsf, lookup_insert_eq.
  - by rewrite lookup_insert_ne.
Qed.

(** ** Child lists and the registry *)

Lemma unlinked_cons k x l :
  unlinked k (x :: l) = if decide (x = k) then l else x :: unlinked k l.
Proof.
  unfold unlinked. simpl. destruct (decide (x = k)); [done|].
  by destruct (indexOf k l).
Qed.

Lemma elem_of_unlinked x k l : x ∈ unlinked k l → x ∈ l.
Proof.
  induction l as [|y l IH]; [done|]. rewrite unlinked_cons.
  destruct (decide (y = k)); [by constructor|].
  intros [->|H]%elem_of_cons; [by left|]. right. by apply IH.
Qed.

Lemma unlinked_NoDup k l : NoDup l → k ∉ unlinked k l.
Proof.
  induction 1 as [|x l Hx Hl IH]; [by apply not_elem_of_nil|].
  rewrite unlinked_cons. destruct (decide (x = k)) as [->|Hne]; [done|].
  apply not_elem_of_cons. by split.
Qed.

Lemma last_unlinked k x l : last l = Some x → x ≠ k → last (unlinked k l) = Some x.
Proof.
  induction l as [|y l IH]; [done|]. intros Hlast Hne. rewrite unlinked_cons.
  destruct l as [|z l].
  - simpl in Hlast. injection Hlast as ->. by rewrite decide_False.
  - destruct (decide (y = k)); [done|].
    specialize (IH Hlast Hne). by rewrite last_cons, IH.
Qed.

Lemma txt_unlinkF k f : txt (unlinkF k f) = txt f.
Proof. unfold unlinkF, txt. destruct (body f) eqn:E; simpl; by rewrite ?E. Qed.

Lemma isEmptyTextNode_txt k (o : option NodeFields) :
  isEmptyTextNode (mkNode k <$> o) = bool_decide (o ≫= txt = Some ""%string).
Proof.
  destruct o as [f|]; simpl; [|done]. unfold txt.
  destruct (body f) as [t u| |]; simpl; try done.
  apply bool_decide_ext. split; [by intros ->|by intros [= ->]].
Qed.

Lemma lookup_detached k p nm i :
  detached k p nm !! i
  = if decide (p = Some i) then unlinkF k <$> nm !! i else nm !! i.
Proof.
  unfold detached. destruct p as [kP|]; [|by rewrite decide_False].
  rewrite lookup_alter. destruct (decide (kP = i)) as [->|Hne].
  - by rewrite decide_True.
  - rewrite decide_False; [done|congruence].
Qed.

Lemma txt_lookup_detached k p nm i :
  detached k p nm !! i ≫= txt = nm !! i ≫= txt.
Proof.
  rewrite lookup_detached. case_decide; [|done].
  destruct (nm !! i); simpl; [apply txt_unlinkF|done].
Qed.

Lemma childKeys_Some k env cs :
  childKeys k env = Some cs ↔
  ∃ f, nodeMap (viewModel env) !! k = Some f ∧ body f = BlockBody cs.
Proof.
  unfold childKeys. destruct (nodeMap (viewModel env) !! k) as [f|]; simpl.
  - split.
    + intros H. exists f. split; [done|]. destruct (body f); congruence.
    + intros (f' & [= <-] & ->). done.
  - split; [done|]. by intros (f & ? & _).
Qed.

Lemma lookup_alter_body (g : NodeFields → NodeFields) k
    (nm : gmap NodeKey NodeFields) i sf :
  (∀ f, body (g f) = body f) →
  alter g k nm !! i = Some sf →
  ∃ f, nm !! i = Some f ∧ body sf = body f.
Proof.
  intros Hg. rewrite lookup_alter. destruct (decide (k = i)) as [->|Hne].
  - destruct (nm !! i) as [f|]; [|done]. intros [= <-]. by exists f.
  - intros H. by exists sf.
Qed.

(** ** The linkage of parents and children *)

Lemma registryWith_two this nodeToAppend env :
  registryWith [this; nodeToAppend] env
  = let nm1 := <[key this := fields (getLatest this env)]> (nodeMap (viewModel env)) in
    <[key nodeToAppend := default (fields nodeToAppend) (nm1 !! key nodeToAppend)]> nm1.
Proof. unfold registryWith. simpl. by rewrite fields_getLatest. Qed.

(** Once [k] has been unlinked from its parent, no registered block lists
    it, provided the linkage held. *)
Lemma detached_not_listed (nm : gmap NodeKey NodeFields) k fC i f cs :
  parentLinked nm k →
  nm !! k = Some fC →
  detached k (parent fC) nm !! i = Some f →
  body f = BlockBody cs →
  k ∉ cs.
Proof.
  intros Hlinked HC Hi Hbody Hin.
  rewrite lookup_detached in Hi.
  destruct (decide (parent fC = Some i)) as [Hp|Hp].
  - destruct (nm !! i) as [f2|] eqn:Hf2; [|done]. simpl in Hi. injection Hi as <-.
    specialize (Hlinked i f2 Hf2). unfold listsAsParent in Hlinked.
    unfold unlinkF in Hbody. destruct (body f2) as [|cs2|] eqn:Hb2; try congruence.
    simpl in Hbody. injection Hbody as <-.
    destruct (Hlinked (elem_of_unlinked _ _ _ Hin)) as [Hnd _].
    by apply (unlinked_NoDup k) in Hnd.
  - specialize (Hlinked i f Hi). unfold listsAsParent in Hlinked.
    rewrite Hbody in Hlinked. destruct (Hlinked Hin) as [_ Hpar].
    rewrite HC in Hpar. simpl in Hpar. done.
Qed.

(** ** Removing the children of a block *)

Lemma unlinkF_block k f cs :
  body f = BlockBody cs → unlinkF k f = setChildrenF (unlinked k cs) f.
Proof. unfold unlinkF. by intros ->. Qed.

Lemma select_inv n a f env u env' :
  select n a f env = Ok (u, env') →
  ∃ sel, selection env = Some sel
    ∧ selection env' = Some (mkSelection (key n) a (key n) f true)
    ∧ nodeMap (viewModel env') = nodeMap (viewModel env)
    ∧ usedKeys env' = usedKeys env.
Proof.
  unfold select. intros H.
  inv_bind H. apply shouldErrorOnReadOnly_inv in Hstep as [_ ->].
  inv_bind H. unfold getSelection in Hstep. apply gets_inv in Hstep as [-> ->].
  inv_bind H. unfold invariant in Hstep.
  destruct (selection env) as [sel|] eqn:Hsel; [|done].
  injection Hstep as _ <-. unfold modify in H. injection H as _ <-.
  exists sel. simpl. by rewrite Hsel.
Qed.

(** ** Text and the merge loop *)

Lemma append_cons c (a b : string) : String c a +:+ b = String c (a +:+ b).
Proof. reflexivity. Qed.

Lemma substring_all (t : string) : substring 0 (String.length t) t = t.
Proof. induction t as [|c t IH]; [done|]. simpl. by f_equal. Qed.

Lemma substring_end (t : string) : substring (String.length t) 0 t = ""%string.
Proof. induction t as [|c t IH]; done. Qed.

Lemma append_empty_r (t : string) : t +:+ "" = t.
Proof. induction t as [|c t IH]; [done|]. by rewrite append_cons, IH. Qed.

Lemma append_assoc (a b c : string) : (a +:+ b) +:+ c = a +:+ (b +:+ c).
Proof. induction a as [|x a IH]; [done|]. by rewrite !append_cons, IH. Qed.

Lemma length_append (a b : string) :
  String.length (a +:+ b) = String.length a + String.length b.
Proof. induction a as [|x a IH]; [done|]. rewrite append_cons. simpl. by rewrite IH. Qed.

(** Splicing at the end of the text appends. *)
Lemma spliceString_end (t s : string) :
  spliceString (String.length t) 0 s t = t +:+ s.
Proof.
  unfold spliceString. rewrite substring_all, Nat.add_0_r, Nat.sub_diag.
  by rewrite substring_end, append_empty_r.
Qed.

Lemma getTextContent_txt n env :
  getTextContent n env
  = match default (txt (fields n)) (txt <$> nodeMap (viewModel env) !! key n) with
    | Some t => Ok t
    | None => Err TypeError
    end.
Proof.
  unfold getTextContent. rewrite fields_getLatest. unfold txt.
  destruct (nodeMap (viewModel env) !! key n) as [f|]; simpl;
    by destruct (body _).
Qed.

Lemma txt_fmap_lookup_detached k p nm i :
  txt <$> detached k p nm !! i = txt <$> nm !! i.
Proof.
  rewrite lookup_detached. case_decide; [|done].
  destruct (nm !! i); simpl; [by rewrite txt_unlinkF|done].
Qed.

(** The sum of two numbers is the sum of the integers as long as that is
    at most [2 ^ 53] in magnitude. *)
Lemma numberAdd_exact (a b : Z) :
  (Z.abs (a + b) ≤ 2 ^ 53)%Z → numberAdd a b = (a + b)%Z.
Proof.
  intros H. unfold numberAdd, roundToDouble.
  destruct (Z.leb_spec (Z.abs (a + b)) (2 ^ 53)) as [_|Hgt]; [done|lia].
Qed.

(** Beyond that it is not: the sum of 1 and [2 ^ 53] is [2 ^ 53]. *)
Lemma numberAdd_rounds : numberAdd 1 (2 ^ 53) = (2 ^ 53)%Z.
Proof. reflexivity. Qed.

Lemma sum_list_take_le (l : list nat) j : sum_list (take j l) ≤ sum_list l.
Proof.
  revert j. induction l as [|x l IH]; intros j; [by destruct j|].
  destruct j as [|j]; simpl; [lia|]. specialize (IH j). lia.
Qed.

(** One turn of the loop of [combineAdjacentTextNodes] (with
    [restoreSelection] set) that returns. *)
Lemma combineLoop_step_inv w aK aO fK fO n rest len env env' :
  combineLoop true w aK aO fK fO (n :: rest) len env = Ok (tt, env') →
  ∃ s env3,
    getTextContent n env = Ok s
    ∧ combineLoop true w aK aO fK fO rest (len + String.length s) env3 = Ok (tt, env')
    ∧ selection env3
      = (λ sel,
          let sel1 := if decide (key n = aK)
                      then setAnchor (key w) (numberAdd (Z.of_nat len) aO) sel else sel in
          if decide (key n = fK)
          then setFocus (key w) (numberAdd (Z.of_nat len) fO) sel1 else sel1) <$> selection env
    ∧ (∃ tw, getTextContent w env = Ok tw
         ∧ ∀ i, i ≠ key n →
             txt <$> nodeMap (viewModel env3) !! i
             = txt <$> (<[key w := setTextF (spliceString len 0 s tw) (getLatest w env)]>
                          (nodeMap (viewModel env))) !! i)
    ∧ nodeMap (viewModel env3) !! key n = None.
Proof.
  simpl. intros H.
  inv_bind H. unfold liftR in Hstep.
  destruct (getTextContent n env) as [s|] eqn:Hs; [|done]. injection Hstep as <- <-.
  inv_bind H. inv_bind H. inv_bind H. inv_bind H.
  exists s, env3. split; [done|]. destruct a2. split; [done|].
  assert (Ha : nodeMap (viewModel env0) = nodeMap (viewModel env)
    ∧ selection env0
      = (λ sel, if decide (key n = aK)
                then setAnchor (key w) (numberAdd (Z.of_nat len) aO) sel else sel)
        <$> selection env).
  { unfold when in Hstep. rewrite (bool_decide_decide (key n = aK)) in Hstep.
    destruct (decide (key n = aK)).
    - unfold modify in Hstep. by injection Hstep as _ <-.
    - unfold ret in Hstep. injection Hstep as _ <-. split; [done|].
      by destruct (selection env). }
  destruct Ha as [Hnm0 Hsel0].
  assert (Hb : nodeMap (viewModel env1) = nodeMap (viewModel env)
    ∧ selection env1
      = (λ sel, if decide (key n = fK)
                then setFocus (key w) (numberAdd (Z.of_nat len) fO) sel else sel)
        <$> selection env0).
  { unfold when in Hstep0. rewrite (bool_decide_decide (key n = fK)) in Hstep0.
    destruct (decide (key n = fK)).
    - unfold modify in Hstep0. by injection Hstep0 as _ <-.
    - unfold ret in Hstep0. injection Hstep0 as _ <-. split; [done|].
      by destruct (selection env0). }
  destruct Hb as [Hnm1 Hsel1].
  apply spliceText_inv in Hstep1 as (_ & (tw & Htw & Hnm2) & Hfr2).
  apply remove_inv in Hstep2 as (_ & Hnm3 & Hfr3).
  assert (Hlatest : ∀ m, getLatest m env1 = getLatest m env).
  { intros m. unfold getLatest, getNodeByKey. by rewrite Hnm1. }
  split; [|split].
  - destruct Hfr3 as (-> & _), Hfr2 as (-> & _). rewrite Hsel1, Hsel0.
    by destruct (selection env).
  - exists tw. split.
    + rewrite getTextContent_txt in Htw |- *. by rewrite Hnm1 in Htw.
    + intros i Hi. rewrite Hnm3, lookup_delete_ne by done.
      rewrite txt_fmap_lookup_detached, lookup_insert_ne by done.
      by rewrite Hnm2, Hnm1, Hlatest.
  - by rewrite Hnm3, lookup_delete_eq.
Qed.

Ltac destruct_units := repeat match goal with x : unit |- _ => destruct x end.

Lemma getTextContent_stable n env env' :
  txt <$> nodeMap (viewModel env') !! key n = txt <$> nodeMap (viewModel env) !! key n →
  getTextContent n env' = getTextContent n env.
Proof. intros H. by rewrite !getTextContent_txt, H. Qed.

Lemma textLengthOf_stable n env env' :
  getTextContent n env' = getTextContent n env →
  textLengthOf n env' = textLengthOf n env.
Proof. unfold textLengthOf. by intros ->. Qed.

Lemma offsetBefore_stable k nodes env env' : ∀ acc,
  Forall (λ n, getTextContent n env' = getTextContent n env) nodes →
  offsetBefore k nodes env' acc = offsetBefore k nodes env acc.
Proof.
  induction nodes as [|n nodes IH]; intros acc Hall; [done|].
  apply Forall_cons in Hall as [Hn Hall]. simpl.
  rewrite (textLengthOf_stable _ _ _ Hn). case_decide; [done|]. by apply IH.
Qed.

Lemma concatTexts_stable nodes env env' :
  Forall (λ n, getTextContent n env' = getTextContent n env) nodes →
  concatTexts nodes env' = concatTexts nodes env.
Proof.
  induction 1 as [|n nodes Hn Hall IH]; [done|]. simpl. by rewrite Hn, IH.
Qed.

Lemma offsetBefore_not_elem k nodes env acc :
  k ∉ key <$> nodes → offsetBefore k nodes env acc = None.
Proof.
  revert acc. induction nodes as [|n nodes IH]; intros acc Hk; [done|].
  simpl in *. apply not_elem_of_cons in Hk as [Hne Hk].
  rewrite decide_False by done. by apply IH.
Qed.

Lemma offsetBefore_lookup nodes env : ∀ j node acc,
  NoDup (key <$> nodes) →
  nodes !! j = Some node →
  offsetBefore (key node) nodes env acc
  = Some (acc + sum_list ((λ n, textLengthOf n env) <$> take j nodes)).
Proof.
  induction nodes as [|n nodes IH]; intros j node acc Hnd Hj; [done|].
  simpl in Hnd. apply NoDup_cons in Hnd as [Hn Hnd].
  destruct j as [|j]; simpl in *.
  - injection Hj as ->. rewrite decide_True by done. f_equal. lia.
  - rewrite decide_False.
    + rewrite (IH j node _ Hnd Hj). f_equal. symmetry. apply Nat.add_assoc.
    + intros Heq. apply Hn. rewrite Heq. apply list_elem_of_fmap.
      exists node. split; [done|]. by eapply list_elem_of_lookup_2.
Qed.

(** The loop of [combineAdjacentTextNodes] keeps the selection object and
    its dirty flag. *)
Lemma combineLoop_selection w aK aO fK fO : ∀ rest len env env' cur,
  combineLoop true w aK aO fK fO rest len env = Ok (tt, env') →
  selection env = Some cur →
  ∃ cur', selection env' = Some cur' ∧ isDirty cur' = isDirty cur.
Proof.
  induction rest as [|n rest IH]; intros len env env' cur H Hsel.
  - simpl in H. injection H as <-. by exists cur.
  - apply combineLoop_step_inv in H as (s & env3 & _ & Hloop & Hsel3 & _).
    rewrite Hsel in Hsel3. simpl in Hsel3.
    destruct (IH _ _ _ _ Hloop Hsel3) as (cur' & Hcur' & Hd).
    exists cur'. split; [done|]. rewrite Hd.
    by destruct (decide (key n = fK)), (decide (key n = aK)).
Qed.

Lemma registeredText_getTextContent n env t :
  registeredText (key n) env = Some t → getTextContent n env = Ok t.
Proof.
  unfold registeredText. rewrite getTextContent_txt.
  destruct (nodeMap (viewModel env) !! key n) as [f|]; [|done]. simpl. by intros ->.
Qed.

(** The loop of [combineAdjacentTextNodes] on nodes with distinct keys:
    the text it builds and where it leaves the two ends of the selection. *)
Lemma combineLoop_inv w aK aO fK fO : ∀ rest len env env' cur tw,
  combineLoop true w aK aO fK fO rest len env = Ok (tt, env') →
  selection env = Some cur →
  registeredText (key w) env = Some tw →
  String.length tw = len →
  NoDup (key w :: (key <$> rest)) →
  ∃ cur',
    selection env' = Some cur'
    ∧ registeredText (key w) env' = Some (tw +:+ concatTexts rest env)
    ∧ anchorOf cur'
      = match offsetBefore aK rest env len with
        | Some o => (key w, numberAdd (Z.of_nat o) aO)
        | None => anchorOf cur
        end
    ∧ focusOf cur'
      = match offsetBefore fK rest env len with
        | Some o => (key w, numberAdd (Z.of_nat o) fO)
        | None => focusOf cur
        end.
Proof.
  induction rest as [|n rest IH]; intros len env env' cur tw H Hsel Htw Hlen Hnd.
  - simpl in H. injection H as <-. exists cur. simpl.
    by rewrite append_empty_r.
  - apply combineLoop_step_inv in H
      as (s & env3 & Hs & Hloop & Hsel3 & (tw' & Htw' & Htxt) & Hgone).
    rewrite (registeredText_getTextContent _ _ _ Htw) in Htw'. injection Htw' as <-.
    rewrite Hsel in Hsel3. simpl in Hsel3.
    simpl in Hnd. apply NoDup_cons in Hnd as [Hw Hnd].
    apply not_elem_of_cons in Hw as [Hwn Hw].
    apply NoDup_cons in Hnd as [Hn Hnd].
    assert (Htw3 : registeredText (key w) env3 = Some (tw +:+ s)).
    { unfold registeredText in *.
      destruct (nodeMap (viewModel env) !! key w) as [fw|] eqn:Hfw; [|done].
      simpl in Htw.
      specialize (Htxt (key w) Hwn). rewrite lookup_insert_eq in Htxt.
      rewrite (getLatest_registered _ _ _ Hfw) in Htxt. simpl in Htxt.
      destruct (nodeMap (viewModel env3) !! key w) as [f3|]; [|done].
      simpl in *. injection Htxt as ->. unfold txt, setTextF in *.
      destruct (body fw) as [t u| |]; try done. simpl.
      injection Htw as ->. by rewrite <- Hlen, spliceString_end. }
    assert (Hrest : Forall (λ m, getTextContent m env3 = getTextContent m env) rest).
    { apply Forall_forall. intros m Hm. apply getTextContent_stable.
      assert (Hkm : key m ∈ key <$> rest) by (apply list_elem_of_fmap; by exists m).
      rewrite Htxt by (by intros Heq; rewrite Heq in Hkm).
      rewrite lookup_insert_ne; [done|]. by intros Heq; rewrite <- Heq in Hkm. }
    destruct (IH _ _ _ _ _ Hloop Hsel3 Htw3) as (cur' & Hcur' & Htext & Ha & Hf).
    { rewrite length_append. by rewrite Hlen. }
    { by apply NoDup_cons. }
    exists cur'. split; [done|].
    rewrite (concatTexts_stable _ _ _ Hrest) in Htext.
    rewrite (offsetBefore_stable _ _ _ _ _ Hrest) in Ha.
    rewrite (offsetBefore_stable _ _ _ _ _ Hrest) in Hf.
    assert (Hlen_s : textLengthOf n env = String.length s).
    { unfold textLengthOf. by rewrite Hs. }
    simpl. rewrite Hs, Hlen_s. split; [by rewrite <- append_assoc|]. split.
    + rewrite Ha. destruct (decide (key n = aK)) as [Heq|Hne].
      * rewrite offsetBefore_not_elem by (by rewrite <- Heq).
        by destruct (decide (key n = fK)).
      * destruct (offsetBefore aK rest env _); [done|].
        by destruct (decide (key n = fK)).
    + rewrite Hf. destruct (decide (key n = fK)) as [Heq|Hne].
      * rewrite offsetBefore_not_elem by (by rewrite <- Heq). done.
      * destruct (offsetBefore fK rest env _); [done|].
        by destruct (decide (key n = aK)).
Qed.

(** A call of [combineAdjacentTextNodes] with [restoreSelection] set that
    returns leaves a selection that is marked dirty. *)
Lemma combineAdjacentTextNodes_dirty textNodes env u env' :
  combineAdjacentTextNodes textNodes true env = Ok (u, env') →
  selectionDirty env'.
Proof.
  unfold combineAdjacentTextNodes. intros H.
  inv_bind H. unfold getSelection in Hstep. apply gets_inv in Hstep as [-> ->].
  inv_bind H. destruct (selection env) as [sel|] eqn:Hsel; [|done].
  unfold invariant in Hstep. simpl in Hstep. injection Hstep as _ <-.
  destruct textNodes as [|first rest]; [done|].
  inv_bind H. apply getWritableNode_inv in Hstep as (-> & Hnm0 & Hfr0).
  inv_bind H. unfold liftR in Hstep.
  destruct (getTextContent _ env0) as [t|]; [|done]. injection Hstep as <- <-.
  inv_bind H. destruct_units.
  assert (Hsel0 : selection env0 = Some sel) by (destruct Hfr0 as (-> & _); done).
  destruct (combineLoop_selection _ _ _ _ _ _ _ _ _ _ Hstep Hsel0) as (cur' & Hcur' & _).
  unfold when, modify in H. injection H as <-.
  exists (setIsDirty true cur'). simpl. by rewrite Hcur'.
Qed.

(** A call of [combineAdjacentTextNodes] with [restoreSelection] set on
    nodes with distinct keys. *)
Lemma combineAdjacentTextNodes_inv first rest env u env' sel :
  combineAdjacentTextNodes (first :: rest) true env = Ok (u, env') →
  selection env = Some sel →
  NoDup (key <$> first :: rest) →
  ∃ sel' t,
    selection env' = Some sel'
    ∧ isDirty sel' = true
    ∧ getTextContent first env = Ok t
    ∧ registeredText (key first) env' = Some (t +:+ concatTexts rest env)
    ∧ anchorOf sel'
      = match offsetBefore (anchorKey sel) rest env (String.length t) with
        | Some o => (key first, numberAdd (Z.of_nat o) (anchorOffset sel))
        | None => anchorOf sel
        end
    ∧ focusOf sel'
      = match offsetBefore (focusKey sel) rest env (String.length t) with
        | Some o => (key first, numberAdd (Z.of_nat o) (focusOffset sel))
        | None => focusOf sel
        end.
Proof.
  unfold combineAdjacentTextNodes. intros H Hsel Hnd.
  inv_bind H. unfold getSelection in Hstep. apply gets_inv in Hstep as [-> ->].
  inv_bind H. rewrite Hsel in Hstep, H.
  unfold invariant in Hstep. simpl in Hstep. injection Hstep as _ <-.
  inv_bind H. apply getWritableNode_inv in Hstep as (-> & Hnm0 & Hfr0).
  inv_bind H. unfold liftR in Hstep.
  destruct (getTextContent _ env0) as [t|] eqn:Ht; [|done]. injection Hstep as <- <-.
  inv_bind H. destruct_units.
  assert (Hsel0 : selection env0 = Some sel) by (destruct Hfr0 as (-> & _); done).
  assert (Hfirst : getTextContent first env = Ok t).
  { unfold getTextContent in *. by rewrite (getLatest_entered _ _ _ Hnm0) in Ht. }
  assert (Hreg : registeredText (key first) env0 = Some t).
  { unfold registeredText. rewrite Hnm0, lookup_insert_eq. simpl.
    unfold getTextContent in Hfirst. unfold txt.
    by destruct (body (getLatest first env)); simplify_eq. }
  simpl in Hnd.
  assert (Hrest : Forall (λ m, getTextContent m env0 = getTextContent m env) rest).
  { apply Forall_forall. intros m Hm. apply getTextContent_stable.
    rewrite Hnm0, lookup_insert_ne; [done|].
    apply NoDup_cons in Hnd as [Hn _]. intros Heq. apply Hn. rewrite Heq.
    apply list_elem_of_fmap. by exists m. }
  rewrite <- (key_getLatest first env) in Hreg, Hnd.
  destruct (combineLoop_inv _ _ _ _ _ _ _ _ _ _ _ Hstep Hsel0 Hreg eq_refl Hnd)
    as (cur' & Hcur' & Htext & Ha & Hf).
  rewrite (concatTexts_stable _ _ _ Hrest) in Htext.
  rewrite (offsetBefore_stable _ _ _ _ _ Hrest) in Ha.
  rewrite (offsetBefore_stable _ _ _ _ _ Hrest) in Hf.
  rewrite key_getLatest in *.
  unfold when, modify in H. injection H as <-.
  exists (setIsDirty true cur'), t. simpl. rewrite Hcur'. by repeat split.
Qed.

(** ** The dirty flag through the scan *)

Lemma closeBatch_dirty toNormalize env u env' :
  closeBatch toNormalize true env = Ok (u, env') →
  (¬ 1 < length toNormalize ∧ env' = env)
  ∨ (1 < length toNormalize ∧ selectionDirty env').
Proof.
  unfold closeBatch. destruct (decide (1 < length toNormalize)) as [Hlen|Hlen].
  - intros H. right. split; [done|]. by eapply combineAdjacentTextNodes_dirty.
  - intros [= _ <-]. by left.
Qed.

(** Once the selection is marked dirty, the scan leaves it so. *)
Lemma normalizeLoop_keeps_dirty children : ∀ toNormalize lf lu env u env',
  selectionDirty env →
  normalizeLoop true children toNormalize lf lu env = Ok (u, env') →
  selectionDirty env'.
Proof.
  induction children as [|c rest IH]; intros acc lf lu env u env' Hd H; simpl in H.
  - apply closeBatch_dirty in H as [[_ ->]|[_ H]]; done.
  - inv_bind H. apply gets_inv in Hstep as [-> ->].
    assert (Hclose : ∀ acc' lf' lu',
      bind (closeBatch acc true) (λ _, normalizeLoop true rest acc' lf' lu') env
      = Ok (u, env') → selectionDirty env').
    { intros acc' lf' lu' H'. inv_bind H'.
      apply closeBatch_dirty in Hstep as [[_ ->]|[_ Hstep]]; by eapply IH. }
    destruct (body (getLatest c env)) as [t url|cs|]; [|by eapply Hclose..].
    destruct (negb _ && negb _); [|by eapply Hclose].
    destruct (joinsBatch _ _ _ _); [by eapply IH|by eapply Hclose].
Qed.

(** A scan that closes a batch of more than one node marks the selection
    dirty. *)
Lemma normalizeLoop_merge_dirty children : ∀ toNormalize lf lu env u env',
  scanMerges children toNormalize lf lu env = true →
  normalizeLoop true children toNormalize lf lu env = Ok (u, env') →
  selectionDirty env'.
Proof.
  induction children as [|c rest IH]; intros acc lf lu env u env' Hscan H;
    simpl in H, Hscan.
  - apply bool_decide_eq_true in Hscan.
    apply closeBatch_dirty in H as [[Hlen _]|[_ H]]; done.
  - inv_bind H. apply gets_inv in Hstep as [-> ->].
    assert (Hclose : ∀ acc' lf' lu',
      bool_decide (1 < length acc) || scanMerges rest acc' lf' lu' env = true →
      bind (closeBatch acc true) (λ _, normalizeLoop true rest acc' lf' lu') env
      = Ok (u, env') → selectionDirty env').
    { intros acc' lf' lu' Hs H'. inv_bind H'.
      apply closeBatch_dirty in Hstep as [[Hlen ->]|[_ Hstep]].
      - apply orb_true_iff in Hs as [Hs|Hs].
        + by apply bool_decide_eq_true in Hs.
        + by eapply IH.
      - by eapply normalizeLoop_keeps_dirty. }
    destruct (body (getLatest c env)) as [t url|cs|]; [|by eapply Hclose..].
    destruct (negb _ && negb _); [|by eapply Hclose].
    destruct (joinsBatch _ _ _ _); [by eapply IH|by eapply Hclose].
Qed.

(** ** What the text searches do find *)

Lemma textNodeLoop_sound (recurse recurseSpec : OutlineNode → Result (option OutlineNode))
    children t :
  (∀ child, recurse child = Ok (Some t) → recurseSpec child = Ok (Some t)) →
  textNodeLoop recurse children = Ok (Some t) →
  specTextSearch recurseSpec children = Ok (Some t).
Proof.
  intros Hrec. induction children as [|child rest IH]; [done|]. simpl.
  destruct (isTextNode child); [done|].
  destruct (isBlockNode child); [|done].
  intros H. by rewrite (Hrec _ H).
Qed.

(** A text node that [getFirstTextNode] returns is the one the
    document-order search of the specification finds. *)
Lemma getFirstTextNode_sound depth : ∀ this env t,
  getFirstTextNode depth this env = Ok (Some t) →
  specFirstTextNode depth this env = Ok (Some t).
Proof.
  induction depth as [|d IH]; intros this env t; [done|]. simpl.
  destruct (getChildren this env) as [children|]; [|done]. simpl.
  apply textNodeLoop_sound. intros child. apply IH.
Qed.

(** And so for [getLastTextNode], in reverse order. *)
Lemma getLastTextNode_sound depth : ∀ this env t,
  getLastTextNode depth this env = Ok (Some t) →
  specLastTextNode depth this env = Ok (Some t).
Proof.
  induction depth as [|d IH]; intros this env t; [done|]. simpl.
  destruct (getChildren this env) as [children|]; [|done]. simpl.
  apply textNodeLoop_sound. intros child. apply IH.
Qed.

(** ** Further lemmas *)

Lemma textNodeLoop_inv (recurse : OutlineNode → Result (option OutlineNode))
    children t :
  textNodeLoop recurse children = Ok (Some t) →
  (t ∈ children ∧ isTextNode t = true)
  ∨ (∃ child : OutlineNode, child ∈ children ∧ isBlockNode child = true
       ∧ recurse child = Ok (Some t)).
Proof.
  induction children as [|child rest IH]; [done|]. simpl.
  destruct (isTextNode child) eqn:Htext.
  - intros [= <-]. left. split; [by left|done].
  - destruct (isBlockNode child) eqn:Hblock.
    + intros H. right. exists child. split; [by left|done].
    + intros H. destruct (IH H) as [[Hin Ht]|(c & Hin & Hc)].
      * left. split; [by right|done].
      * right. exists c. split; [by right|done].
Qed.

Lemma getChildren_registered this env children n :
  getChildren this env = Ok children → n ∈ children →
  getNodeByKey (key n) env = Some n.
Proof.
  unfold getChildren. destruct (childrenOf _) as [cs|]; [|done]. simpl.
  intros [= <-] (k & _ & Hk)%list_elem_of_omap.
  unfold getNodeByKey in *.
  destruct (nodeMap (viewModel env) !! k) as [f|] eqn:Hf; [|done].
  simpl in Hk. injection Hk as <-. simpl. by rewrite Hf.
Qed.

Lemma getFirstTextNode_registered_text depth : ∀ this env t,
  getFirstTextNode depth this env = Ok (Some t) →
  isTextNode t = true ∧ getNodeByKey (key t) env = Some t.
Proof.
  induction depth as [|d IH]; intros this env t; [done|]. simpl.
  destruct (getChildren this env) as [children|] eqn:Hch; [|done]. simpl.
  intros [[Hin Ht]|(c & _ & _ & Hc)]%textNodeLoop_inv.
  - split; [done|]. by eapply getChildren_registered.
  - by eapply IH.
Qed.

Lemma getLastTextNode_registered_text depth : ∀ this env t,
  getLastTextNode depth this env = Ok (Some t) →
  isTextNode t = true ∧ getNodeByKey (key t) env = Some t.
Proof.
  induction depth as [|d IH]; intros this env t; [done|]. simpl.
  destruct (getChildren this env) as [children|] eqn:Hch; [|done]. simpl.
  intros [[Hin Ht]|(c & _ & _ & Hc)]%textNodeLoop_inv.
  - split; [done|]. eapply getChildren_registered; [done|].
    by apply elem_of_reverse.
  - by eapply IH.
Qed.

(** After [append], the appended node is registered with the block as its
    parent. *)
Lemma append_node_registered this nodeToAppend env w env' :
  append this nodeToAppend env = Ok (w, env') →
  ∃ f, nodeMap (viewModel env') !! key nodeToAppend = Some f
    ∧ parent f = Some (key this).
Proof.
  intros H. apply append_inv in H.
  destruct H as (_ & sf & children & Hsf & Hbody & Hnm & _).
  set (kB := key this) in *. set (kC := key nodeToAppend) in *.
  set (nm1 := <[kB := fields (getLatest this env)]> (nodeMap (viewModel env))) in *.
  set (fC := default (fields nodeToAppend) (nm1 !! kC)) in *.
  set (nm2 := <[kC := fC]> nm1) in *.
  set (nm3 := detached kC (parent fC) nm2) in *.
  set (nm4 := alter (setParentF (Some kB)) kC nm3) in *.
  assert (∃ f4, nm4 !! kC = Some f4 ∧ parent f4 = Some kB) as (f4 & Hf4 & Hp4).
  { unfold nm4. rewrite lookup_alter_eq.
    assert (is_Some (nm3 !! kC)) as [f3 Hf3].
    { apply elem_of_dom. unfold nm3, nm2. rewrite dom_detached, dom_insert_L.
      set_solver. }
    rewrite Hf3. by eexists. }
  rewrite Hnm. destruct (decide (kB = kC)) as [Heq|Hne].
  - rewrite Heq, lookup_insert_eq. eexists. split; [done|]. simpl.
    rewrite Heq in Hsf. congruence.
  - rewrite lookup_insert_ne by done. by exists f4.
Qed.

(** The child list that [append] pushes the key onto. *)
Lemma append_children_inv this nodeToAppend env w env' fB cs0 :
  append this nodeToAppend env = Ok (w, env') →
  nodeMap (viewModel env) !! key this = Some fB →
  body fB = BlockBody cs0 →
  ∃ sf,
    nodeMap (viewModel env') !! key this
    = Some (setChildrenF
              ((if decide (parent (getLatest nodeToAppend env) = Some (key this))
                then unlinked (key nodeToAppend) cs0 else cs0)
               ++ [key nodeToAppend]) sf).
Proof.
  intros H HB Hbody0. apply append_inv in H.
  destruct H as (_ & sf & children & Hsf & Hbody & Hnm & _).
  set (kB := key this) in *. set (kC := key nodeToAppend) in *.
  set (nm := nodeMap (viewModel env)) in *.
  set (nm1 := <[kB := fields (getLatest this env)]> nm) in *.
  set (fC := default (fields nodeToAppend) (nm1 !! kC)) in *.
  set (nm2 := <[kC := fC]> nm1) in *.
  set (nm3 := detached kC (parent fC) nm2) in *.
  set (nm4 := alter (setParentF (Some kB)) kC nm3) in *.
  assert (Hnm1 : nm1 = nm).
  { unfold nm1. apply insert_id. rewrite fields_getLatest. fold kB nm.
    by rewrite HB. }
  assert (HfC : fC = fields (getLatest nodeToAppend env)).
  { unfold fC. by rewrite Hnm1, fields_getLatest. }
  assert (Hnm2B : nm2 !! kB = Some fB).
  { unfold nm2, fC. rewrite Hnm1. destruct (decide (kC = kB)) as [->|Hne].
    - by rewrite lookup_insert_eq, HB.
    - by rewrite lookup_insert_ne. }
  exists sf. rewrite Hnm, lookup_insert_eq. do 3 f_equal.
  apply lookup_alter_body in Hsf as (f3 & Hf3 & Hb3); [|done].
  unfold nm3 in Hf3. rewrite lookup_detached, Hnm2B, HfC in Hf3.
  destruct (decide (parent (getLatest nodeToAppend env) = Some kB)); simplify_eq/=.
  - rewrite (unlinkF_block _ _ _ Hbody0) in Hb3. simpl in Hb3. congruence.
  - congruence.
Qed.

Lemma unlinked_snoc k l : k ∉ l → unlinked k (l ++ [k]) = l.
Proof.
  induction l as [|x l IH]; intros Hk; simpl.
  - rewrite unlinked_cons. by rewrite decide_True.
  - apply not_elem_of_cons in Hk as [Hne Hk]. rewrite unlinked_cons.
    rewrite decide_False by done. by rewrite IH.
Qed.

Lemma setParentF_same p f : parent f = p → setParentF p f = f.
Proof. destruct f. simpl. by intros ->. Qed.

(** What [append] has done when the linkage of parents and children held
    for the appended key: the key was not left in the list it is pushed
    onto. *)
Lemma append_linked_inv this nodeToAppend env w env' :
  append this nodeToAppend env = Ok (w, env') →
  parentLinked (registryWith [this; nodeToAppend] env) (key nodeToAppend) →
  ∃ nm4 sf children,
    nm4 !! key this = Some sf
    ∧ body sf = BlockBody children
    ∧ (key nodeToAppend ∉ children)
    ∧ nodeMap (viewModel env')
      = <[key this := setChildrenF (children ++ [key nodeToAppend]) sf]> nm4
    ∧ dirtySubTrees (viewModel env')
      = match last children with
        | Some k =>
            if isEmptyTextNode (mkNode k <$> nm4 !! k)
            then {[k]} ∪ dirtySubTrees (viewModel env)
            else dirtySubTrees (viewModel env)
        | None => dirtySubTrees (viewModel env)
        end
    ∧ selection env' = selection env.
Proof.
  intros H Hlinked. rewrite registryWith_two in Hlinked. apply append_inv in H.
  destruct H as (_ & sf & children & Hsf & Hbody & Hnm & Hd & Hsel & _).
  simpl in Hlinked.
  set (kB := key this) in *. set (kC := key nodeToAppend) in *.
  set (nm1 := <[kB := fields (getLatest this env)]> (nodeMap (viewModel env))) in *.
  set (fC := default (fields nodeToAppend) (nm1 !! kC)) in *.
  set (nm2 := <[kC := fC]> nm1) in *.
  set (nm3 := detached kC (parent fC) nm2) in *.
  set (nm4 := alter (setParentF (Some kB)) kC nm3) in *.
  exists nm4, sf, children. repeat split; try done.
  assert (HC2 : nm2 !! kC = Some fC) by apply lookup_insert_eq.
  pose proof Hsf as Hsf'.
  apply lookup_alter_body in Hsf' as (f3 & Hf3 & Hb3); [|done].
  rewrite Hbody in Hb3. symmetry in Hb3.
  exact (detached_not_listed nm2 kC fC kB f3 children Hlinked HC2 Hf3 Hb3).
Qed.

(** A block whose last stored child key is its own key: the search from
    the last child never comes back. *)
Lemma getLastTextNode_self_child k env f cs :
  nodeMap (viewModel env) !! k = Some f →
  body f = BlockBody (cs ++ [k]) →
  ∀ depth this, key this = k → getLastTextNode depth this env = Err RangeError.
Proof.
  intros Hf Hbody. induction depth as [|d IH]; intros this Hk; [done|]. simpl.
  unfold getChildren. rewrite <- Hk in Hf. rewrite (getLatest_registered _ _ _ Hf).
  unfold childrenOf. simpl. rewrite Hbody. simpl.
  rewrite omap_app. simpl. unfold getNodeByKey at 2. rewrite <- Hk at 2.
  rewrite Hf. simpl. rewrite reverse_app. simpl.
  unfold isTextNode, isBlockNode. simpl. rewrite Hbody. by apply IH.
Qed.

Lemma filter_Forall_id {A} (P : A → Prop) `{!∀ x, Decision (P x)} (l : list A) :
  Forall P l → filter P l = l.
Proof.
  induction 1 as [|x l Hx _ IH]; [done|].
  by rewrite filter_cons_True, IH.
Qed.

Lemma filter_Forall_nil {A} (P : A → Prop) `{!∀ x, Decision (P x)} (l : list A) :
  Forall (λ x, ¬ P x) l → filter P l = [].
Proof.
  induction 1 as [|x l Hx _ IH]; [done|].
  by rewrite filter_cons_False, IH.
Qed.

Lemma filter_iff_in {A} (P Q : A → Prop) `{!∀ x, Decision (P x)}
    `{!∀ x, Decision (Q x)} (l : list A) :
  Forall (λ x, P x ↔ Q x) l → filter P l = filter Q l.
Proof.
  induction 1 as [|x l Hx _ IH]; [done|].
  rewrite !filter_cons, IH.
  destruct (decide (P x)), (decide (Q x)); tauto.
Qed.

Lemma unlinked_filter k (l : list NodeKey) :
  NoDup l → unlinked k l = filter (λ x, x ≠ k) l.
Proof.
  induction 1 as [|x l Hx Hl IH]; [done|]. rewrite unlinked_cons.
  destruct (decide (x = k)) as [->|Hne].
  - rewrite filter_cons_False by (by intros ?).
    symmetry. apply filter_Forall_id. apply Forall_forall. by intros y Hy ->.
  - rewrite filter_cons_True by done. by rewrite IH.
Qed.

Lemma keys_omap_getNodeByKey (cs : list NodeKey) env :
  key <$> omap (λ k, getNodeByKey k env) cs
  = filter (λ k, nodeMap (viewModel env) !! k ≠ None) cs.
Proof.
  induction cs as [|k cs IH]; [done|]. simpl.
  unfold getNodeByKey at 1.
  destruct (nodeMap (viewModel env) !! k) as [f|] eqn:Hf; simpl.
  - rewrite filter_cons_True by congruence. by rewrite <- IH.
  - rewrite filter_cons_False by (by intros ?). done.
Qed.

(** Removing, in order, registered children of a block from it: the child
    list of the block keeps the keys of the nodes that were not removed. *)
Lemma forEachRemove_unlinks kB : ∀ nodes env env' fB cs,
  forEachRemove nodes env = Ok (tt, env') →
  nodeMap (viewModel env) !! kB = Some fB →
  body fB = BlockBody cs →
  NoDup cs →
  NoDup (key <$> nodes) →
  kB ∉ key <$> nodes →
  (∀ k, k ∈ key <$> nodes →
     ∃ f, nodeMap (viewModel env) !! k = Some f ∧ parent f = Some kB) →
  nodeMap (viewModel env') !! kB
    = Some (setChildrenF (filter (λ k, k ∉ key <$> nodes) cs) fB)
  ∧ (∀ j, j ≠ kB →
       nodeMap (viewModel env') !! j
       = if decide (j ∈ key <$> nodes) then None else nodeMap (viewModel env) !! j)
  ∧ onlyNodes env env'.
Proof.
  induction nodes as [|n nodes IH]; intros env env' fB cs H HB Hbody Hcs Hnd HkB Hch.
  - simpl in H. injection H as <-. split; [|split; [|done]].
    + rewrite HB. f_equal. symmetry. rewrite filter_Forall_id.
      * by apply setChildrenF_same.
      * apply Forall_forall. intros k _. apply not_elem_of_nil.
    + intros j _. rewrite decide_False; [done|]. apply not_elem_of_nil.
  - simpl in H. inv_bind H. destruct_units.
    apply remove_inv in Hstep as (_ & Hnm & Hfr).
    simpl in *. apply NoDup_cons in Hnd as [Hn Hnd].
    apply not_elem_of_cons in HkB as [HneB HkB].
    destruct (Hch (key n)) as (f & Hf & Hp); [by left|].
    rewrite (getLatest_registered _ _ _ Hf) in Hnm. simpl in Hnm.
    rewrite insert_id in Hnm by done. rewrite Hp in Hnm. simpl in Hnm.
    assert (HB0 : nodeMap (viewModel env0) !! kB
      = Some (setChildrenF (filter (λ x, x ≠ key n) cs) fB)).
    { rewrite Hnm, lookup_delete_ne, lookup_alter_eq, HB by done. simpl.
      by rewrite (unlinkF_block _ _ _ Hbody), unlinked_filter. }
    destruct (IH env0 env' _ (filter (λ x, x ≠ key n) cs) H HB0)
      as (Hres & Hothers & Hfr'); try done.
    + by apply NoDup_filter.
    + intros k Hk. destruct (Hch k) as (f' & Hf' & Hp'); [by right|].
      exists f'. split; [|done].
      rewrite Hnm, lookup_delete_ne, lookup_alter_ne; [done| |]; by intros <-.
    + split; [|split; [|by eapply onlyNodes_trans]].
      * rewrite Hres. f_equal.
        destruct fB as [p fl b]. simpl in Hbody. subst b.
        unfold setChildrenF. simpl. do 2 f_equal. rewrite list_filter_filter.
        apply list_filter_iff. intros k. rewrite not_elem_of_cons. tauto.
      * intros j Hj. rewrite (Hothers j Hj), Hnm.
        destruct (decide (j = key n)) as [->|Hjn].
        -- rewrite decide_False by done. rewrite lookup_delete_eq.
           rewrite decide_True; [done|]. by left.
        -- rewrite lookup_delete_ne, lookup_alter_ne by done.
           destruct (decide (j ∈ key <$> nodes)) as [Hin|Hin].
           ++ rewrite decide_True; [done|]. by right.
           ++ rewrite decide_False; [done|]. rewrite not_elem_of_cons. done.
Qed.

(** What a call of [clear] that returns has done to a registered block
    whose children that resolve are distinct and have the block as
    parent. *)
Lemma clear_inv B restoreSelection env w env' fB cs :
  clear B restoreSelection env = Ok (w, env') →
  nodeMap (viewModel env) !! key B = Some fB →
  body fB = BlockBody cs →
  NoDup cs →
  key B ∉ cs →
  Forall (λ k, nodeMap (viewModel env) !! k = None
               ∨ nodeMap (viewModel env) !! k ≫= parent = Some (key B)) cs →
  ∃ k,
    (k ∉ usedKeys env)
    ∧ k ≠ key B
    ∧ nodeMap (viewModel env') !! key B
      = Some (setChildrenF
                (filter (λ j, nodeMap (viewModel env) !! j = None) cs ++ [k]) fB)
    ∧ nodeMap (viewModel env') !! k
      = Some (mkFields (Some (key B)) 0 (TextBody "" None))
    ∧ (∀ j, j ≠ key B → j ≠ k →
         nodeMap (viewModel env') !! j
         = if decide (j ∈ cs) then None else nodeMap (viewModel env) !! j)
    ∧ usedKeys env' = {[k]} ∪ usedKeys env
    ∧ selection env'
      = if restoreSelection then Some (mkSelection k 0 k 0 true) else selection env.
Proof.
  intros H HB Hbody Hnd HkB Hchildren. unfold clear in H.
  inv_bind H. apply shouldErrorOnReadOnly_inv in Hstep as [_ ->].
  inv_bind H. apply getWritableNode_inv in Hstep as (-> & Hnm0 & Hfr0).
  rewrite (getLatest_registered _ _ _ HB) in Hnm0. simpl in Hnm0.
  rewrite insert_id in Hnm0 by done.
  inv_bind H. unfold liftR in Hstep.
  destruct (getChildren B env0) as [children|] eqn:Hch; [|done].
  injection Hstep as <- <-.
  unfold getChildren in Hch.
  rewrite fields_getLatest, Hnm0, HB in Hch. simpl in Hch.
  unfold childrenOf in Hch. rewrite Hbody in Hch. simpl in Hch.
  injection Hch as <-.
  set (live := filter (λ k, nodeMap (viewModel env) !! k ≠ None) cs).
  assert (Hkeys : key <$> omap (λ k, getNodeByKey k env0) cs = live).
  { rewrite keys_omap_getNodeByKey. by rewrite Hnm0. }
  inv_bind H. destruct_units.
  apply (forEachRemove_unlinks (key B) _ _ _ fB cs) in Hstep as (HB1 & Hothers1 & Hfr1);
    rewrite ?Hkeys, ?Hnm0; try done.
  2: { by apply NoDup_filter. }
  2: { intros Hin. apply list_elem_of_filter in Hin as [_ Hin]. done. }
  2: { intros k [Hk Hin]%list_elem_of_filter.
       rewrite Forall_forall in Hchildren. destruct (Hchildren k Hin) as [Hn|Hp]; [done|].
       destruct (nodeMap (viewModel env) !! k) as [f|]; [|done]. by exists f. }
  assert (Hdangling : filter (λ k, k ∉ live) cs
    = filter (λ j, nodeMap (viewModel env) !! j = None) cs).
  { apply filter_iff_in. apply Forall_forall. intros k Hk. unfold live.
    rewrite list_elem_of_filter. split.
    - intros Hn. destruct (nodeMap (viewModel env) !! k); [|done].
      exfalso. apply Hn. by split.
    - intros -> [Hn _]. done. }
  rewrite Hkeys, Hdangling in HB1.
  inv_bind H. unfold createTextNode in Hstep. inv_bind Hstep.
  unfold generateKey in Hstep0. injection Hstep0 as <- <-.
  unfold ret in Hstep. injection Hstep as <- <-.
  set (k := fresh (usedKeys env1 ∪ dom (nodeMap (viewModel env1)))) in *.
  assert (Hfresh : k ∉ usedKeys env1 ∪ dom (nodeMap (viewModel env1))) by apply is_fresh.
  apply not_elem_of_union in Hfresh as [Hused Hdom].
  apply not_elem_of_dom in Hdom.
  assert (HkB' : key B ≠ k) by (intros <-; congruence).
  assert (Hu1 : usedKeys env1 = usedKeys env).
  { destruct Hfr0 as (_ & _ & Hu0 & _), Hfr1 as (_ & _ & Hu1 & _). congruence. }
  assert (Hs1 : selection env1 = selection env).
  { destruct Hfr0 as (Hs0 & _), Hfr1 as (Hs1 & _). congruence. }
  set (env3 := withUsedKeys _ env1) in *.
  assert (Hnm3 : nodeMap (viewModel env3) = nodeMap (viewModel env1)) by done.
  assert (Hsel3 : selection env3 = selection env1) by done.
  assert (Hu3 : usedKeys env3 = {[k]} ∪ usedKeys env1) by done.
  clearbody env3.
  inv_bind H. apply append_inv in Hstep.
  destruct Hstep as (_ & sf & children & Hsf & Hbsf & Hnm4 & _ & Hsel4 & _ & Hu4).
  rewrite fields_getLatest, Hnm3, HB1 in Hsf, Hnm4. simpl in Hsf, Hnm4.
  rewrite (insert_id _ _ _ HB1) in Hsf, Hnm4.
  rewrite Hdom in Hsf, Hnm4. simpl in Hsf, Hnm4.
  rewrite lookup_alter_ne, lookup_insert_ne, HB1 in Hsf by done.
  injection Hsf as <-. simpl in Hbsf. injection Hbsf as <-. simpl in Hnm4.
  assert (HBk : nodeMap (viewModel env2) !! key B
    = Some (setChildrenF
              (filter (λ j, nodeMap (viewModel env) !! j = None) cs ++ [k]) fB)).
  { rewrite Hnm4. by rewrite lookup_insert_eq. }
  assert (Hk : nodeMap (viewModel env2) !! k
    = Some (mkFields (Some (key B)) 0 (TextBody "" None))).
  { rewrite Hnm4. by rewrite lookup_insert_ne, lookup_alter_eq, lookup_insert_eq. }
  assert (Hothers : ∀ j, j ≠ key B → j ≠ k →
    nodeMap (viewModel env2) !! j
    = if decide (j ∈ cs) then None else nodeMap (viewModel env) !! j).
  { intros j HjB Hjk.
    rewrite Hnm4, lookup_insert_ne, lookup_alter_ne, lookup_insert_ne by done.
    rewrite (Hothers1 j HjB), Hkeys, Hnm0. unfold live.
    destruct (decide (j ∈ cs)) as [Hin|Hin].
    - destruct (nodeMap (viewModel env) !! j) as [fj|] eqn:Hfj.
      + rewrite decide_True; [done|]. apply list_elem_of_filter. by rewrite Hfj.
      + by destruct (decide _).
    - rewrite decide_False; [done|]. rewrite list_elem_of_filter. tauto. }
  exists k. inv_bind H. unfold ret in H. injection H as _ <-.
  split; [by rewrite <- Hu1|]. split; [done|].
  destruct restoreSelection; simpl in Hstep.
  - apply select_inv in Hstep as (sel & _ & Hsel' & Hnm' & Hu'). simpl in Hsel'.
    rewrite Hnm', Hu'. repeat split; try done. by rewrite Hu4, Hu3, Hu1.
  - unfold ret in Hstep. injection Hstep as _ <-.
    repeat split; try done; congruence.
Qed.

Lemma adjacentJoin_cons (a : OutlineNode) (l : list OutlineNode) :
  adjacentJoin (a :: l)
  = match l with
    | b :: _ => (qualifies a && qualifies b && joins a b) || adjacentJoin l
    | [] => false
    end.
Proof. done. Qed.

Lemma adjacentJoin_skip (a : OutlineNode) (l : list OutlineNode) :
  qualifies a = false → adjacentJoin (a :: l) = adjacentJoin l.
Proof.
  intros Ha. rewrite adjacentJoin_cons. destruct l as [|b l]; [done|].
  by rewrite Ha.
Qed.

Lemma qualifies_text (f : NodeFields) t url :
  body f = TextBody t url →
  qualifies f = negb (isImmutable f) && negb (isSegmented f).
Proof. intros Hb. unfold qualifies, isTextNode. by rewrite Hb. Qed.

Lemma qualifies_not_text (f : NodeFields) :
  (∀ t url, body f ≠ TextBody t url) → qualifies f = false.
Proof.
  intros Hb. unfold qualifies, isTextNode.
  destruct (body f) as [t url| |]; [by destruct (Hb t url)|done..].
Qed.

(** What the scan of [normalizeTextNodes] finds, in terms of the children
    alone: with an open batch that ends in [a], a batch of more than one
    node is closed when the open batch has more than one node already or
    two neighbours of [a :: children] join; with no open batch, when two
    neighbours of [children] join, whatever url the scan remembers. *)
Lemma scanMerges_adjacentJoin env : ∀ children,
  (∀ lu, scanMerges children [] None lu env
         = adjacentJoin ((λ c, getLatest c env) <$> children))
  ∧ (∀ acc (a : OutlineNode), qualifies a = true →
       scanMerges children (acc ++ [a]) (Some (flags a)) (urlOf a) env
       = bool_decide (1 < length (acc ++ [a]))
         || adjacentJoin (a :: ((λ c, getLatest c env) <$> children))).
Proof.
  induction children as [|c rest [IH0 IH1]].
  - split; [done|]. intros acc a _. simpl. by rewrite orb_false_r.
  - set (child := getLatest c env).
    assert (Hlong : ∀ acc (a b : OutlineNode),
      bool_decide (1 < length ((acc ++ [a]) ++ [b])) = true).
    { intros acc a b. apply bool_decide_eq_true. rewrite !length_app. simpl. lia. }
    split.
    + intros lu. rewrite fmap_cons. cbn [scanMerges]. fold child.
      destruct (body child) as [t url|cs|] eqn:Hb.
      * destruct (negb (isImmutable child) && negb (isSegmented child)) eqn:Hq.
        -- assert (Hqc : qualifies child = true) by by rewrite (qualifies_text _ _ _ Hb).
           assert (Hurl : url = urlOf child) by (unfold urlOf; by rewrite Hb).
           rewrite Hurl. pose proof (IH1 [] child Hqc) as IH. simpl in IH.
           destruct (joinsBatch None lu (flags child) (urlOf child)); simpl; exact IH.
        -- simpl. rewrite IH0. symmetry. apply adjacentJoin_skip.
           by rewrite (qualifies_text _ _ _ Hb).
      * simpl. rewrite IH0. symmetry. apply adjacentJoin_skip.
        apply qualifies_not_text. intros t url. by rewrite Hb.
      * simpl. rewrite IH0. symmetry. apply adjacentJoin_skip.
        apply qualifies_not_text. intros t url. by rewrite Hb.
    + intros acc a Ha. rewrite fmap_cons, (adjacentJoin_cons a). fold child.
      rewrite Ha. cbn [scanMerges andb]. fold child.
      destruct (body child) as [t url|cs|] eqn:Hb.
      * destruct (negb (isImmutable child) && negb (isSegmented child)) eqn:Hq.
        -- assert (Hqc : qualifies child = true) by by rewrite (qualifies_text _ _ _ Hb).
           assert (Hurl : url = urlOf child) by (unfold urlOf; by rewrite Hb).
           rewrite Hqc, Hurl. simpl.
           change (joins a child)
             with (joinsBatch (Some (flags a)) (urlOf a) (flags child) (urlOf child)).
           pose proof (IH1 [] child Hqc) as IHnew. simpl in IHnew.
           pose proof (IH1 (acc ++ [a]) child Hqc) as IHjoin.
           rewrite Hlong in IHjoin. simpl in IHjoin.
           destruct (joinsBatch (Some (flags a)) (urlOf a) (flags child) (urlOf child)).
           ++ rewrite IHjoin. simpl. by rewrite orb_true_r.
           ++ rewrite IHnew. done.
        -- rewrite IH0.
           assert (Hqc : qualifies child = false) by by rewrite (qualifies_text _ _ _ Hb).
           by rewrite (adjacentJoin_skip _ _ Hqc), Hqc.
      * rewrite IH0.
        assert (Hqc : qualifies child = false).
        { apply qualifies_not_text. intros t url. by rewrite Hb. }
        by rewrite (adjacentJoin_skip _ _ Hqc), Hqc.
      * rewrite IH0.
        assert (Hqc : qualifies child = false).
        { apply qualifies_not_text. intros t url. by rewrite Hb. }
        by rewrite (adjacentJoin_skip _ _ Hqc), Hqc.
Qed.

Lemma getChildren_latest this env children :
  getChildren this env = Ok children →
  (λ c, getLatest c env) <$> children = children.
Proof.
  intros Hch. rewrite <- (list_fmap_id children) at 2.
  apply list_fmap_ext. intros i c Hc. unfold getLatest.
  rewrite (getChildren_registered _ _ _ _ Hch); [done|].
  by eapply list_elem_of_lookup_2.
Qed.

Lemma scanMerges_children this env children :
  getChildren this env = Ok children →
  scanMerges children [] None None env = adjacentJoin children.
Proof.
  intros Hch. destruct (scanMerges_adjacentJoin env children) as [H0 _].
  by rewrite H0, (getChildren_latest _ _ _ Hch).
Qed.

(** One turn of the loop of [combineAdjacentTextNodes] that returns, with
    or without [restoreSelection]: what it does to the registry. *)
Lemma combineLoop_step_nodes r w aK aO fK fO n rest len env env' :
  combineLoop r w aK aO fK fO (n :: rest) len env = Ok (tt, env') →
  ∃ s env3,
    getTextContent n env = Ok s
    ∧ combineLoop r w aK aO fK fO rest (len + String.length s) env3 = Ok (tt, env')
    ∧ (r = false → selection env3 = selection env)
    ∧ (∃ tw, getTextContent w env = Ok tw
         ∧ ∀ i, i ≠ key n →
             txt <$> nodeMap (viewModel env3) !! i
             = txt <$> (<[key w := setTextF (spliceString len 0 s tw) (getLatest w env)]>
                          (nodeMap (viewModel env))) !! i)
    ∧ nodeMap (viewModel env3) !! key n = None.
Proof.
  simpl. intros H.
  inv_bind H. unfold liftR in Hstep.
  destruct (getTextContent n env) as [s|] eqn:Hs; [|done]. injection Hstep as <- <-.
  inv_bind H. inv_bind H. inv_bind H. inv_bind H.
  exists s, env3. split; [done|]. destruct_units. split; [done|].
  assert (Ha : nodeMap (viewModel env0) = nodeMap (viewModel env)
    ∧ (r = false → selection env0 = selection env)).
  { unfold when in Hstep. destruct (r && bool_decide (key n = aK)) eqn:Hc.
    - unfold modify in Hstep. injection Hstep as <-. split; [done|].
      intros ->. done.
    - unfold ret in Hstep. by injection Hstep as <-. }
  destruct Ha as [Hnm0 Hsel0].
  assert (Hb : nodeMap (viewModel env1) = nodeMap (viewModel env)
    ∧ (r = false → selection env1 = selection env)).
  { unfold when in Hstep0. destruct (r && bool_decide (key n = fK)) eqn:Hc.
    - unfold modify in Hstep0. injection Hstep0 as <-. split; [done|].
      intros ->. done.
    - unfold ret in Hstep0. by injection Hstep0 as <-. }
  destruct Hb as [Hnm1 Hsel1].
  apply spliceText_inv in Hstep1 as (_ & (tw & Htw & Hnm2) & Hfr2).
  apply remove_inv in Hstep2 as (_ & Hnm3 & Hfr3).
  assert (Hlatest : ∀ m, getLatest m env1 = getLatest m env).
  { intros m. unfold getLatest, getNodeByKey. by rewrite Hnm1. }
  split; [|split].
  - intros Hr. destruct Hfr3 as (-> & _), Hfr2 as (-> & _). by apply Hsel1.
  - exists tw. split.
    + rewrite getTextContent_txt in Htw |- *. by rewrite Hnm1 in Htw.
    + intros i Hi. rewrite Hnm3, lookup_delete_ne by done.
      rewrite txt_fmap_lookup_detached, lookup_insert_ne by done.
      by rewrite Hnm2, Hnm1, Hlatest.
  - by rewrite Hnm3, lookup_delete_eq.
Qed.

(** Without [restoreSelection] the loop leaves the selection as it is. *)
Lemma combineLoop_false_selection w aK aO fK fO : ∀ rest len env env',
  combineLoop false w aK aO fK fO rest len env = Ok (tt, env') →
  selection env' = selection env.
Proof.
  induction rest as [|n rest IH]; intros len env env' H.
  - simpl in H. by injection H as <-.
  - apply combineLoop_step_nodes in H as (s & env3 & _ & Hloop & Hsel3 & _).
    rewrite (IH _ _ _ Hloop). by apply Hsel3.
Qed.

Lemma combineAdjacentTextNodes_false_selection textNodes env u env' :
  combineAdjacentTextNodes textNodes false env = Ok (u, env') →
  selection env' = selection env.
Proof.
  unfold combineAdjacentTextNodes. intros H.
  inv_bind H. unfold getSelection in Hstep. apply gets_inv in Hstep as [-> ->].
  inv_bind H. destruct (selection env) as [sel|] eqn:Hsel; [|done].
  unfold invariant in Hstep. simpl in Hstep. injection Hstep as _ <-.
  destruct textNodes as [|first rest]; [done|].
  inv_bind H. apply getWritableNode_inv in Hstep as (-> & Hnm0 & Hfr0).
  inv_bind H. unfold liftR in Hstep.
  destruct (getTextContent _ env0) as [t|]; [|done]. injection Hstep as <- <-.
  inv_bind H. destruct_units.
  apply combineLoop_false_selection in Hstep.
  unfold when, ret in H. injection H as <-.
  destruct Hfr0 as (Hs0 & _). congruence.
Qed.

Lemma normalizeLoop_false_selection children : ∀ toNormalize lf lu env u env',
  normalizeLoop false children toNormalize lf lu env = Ok (u, env') →
  selection env' = selection env.
Proof.
  assert (Hclose : ∀ acc env u env',
    closeBatch acc false env = Ok (u, env') → selection env' = selection env).
  { intros acc env u env'. unfold closeBatch. case_decide.
    - apply combineAdjacentTextNodes_false_selection.
    - by intros [= _ <-]. }
  induction children as [|c rest IH]; intros acc lf lu env u env' H; simpl in H.
  - by eapply Hclose.
  - inv_bind H. apply gets_inv in Hstep as [-> ->].
    assert (Hnext : ∀ acc' lf' lu',
      bind (closeBatch acc false) (λ _, normalizeLoop false rest acc' lf' lu') env
      = Ok (u, env') → selection env' = selection env).
    { intros acc' lf' lu' H'. inv_bind H'.
      rewrite (IH _ _ _ _ _ _ H'). by eapply Hclose. }
    destruct (body (getLatest c env)) as [t url|cs|]; [|by eapply Hnext..].
    destruct (negb _ && negb _); [|by eapply Hnext].
    destruct (joinsBatch _ _ _ _); [by eapply IH|by eapply Hnext].
Qed.

(** The loop of [combineAdjacentTextNodes] never registers a key. *)
Lemma combineLoop_keeps_unregistered r w aK aO fK fO : ∀ rest len env env' i,
  combineLoop r w aK aO fK fO rest len env = Ok (tt, env') →
  i ≠ key w →
  nodeMap (viewModel env) !! i = None →
  nodeMap (viewModel env') !! i = None.
Proof.
  induction rest as [|n rest IH]; intros len env env' i H Hi Hnone.
  - simpl in H. by injection H as <-.
  - apply combineLoop_step_nodes in H
      as (s & env3 & _ & Hloop & _ & (tw & _ & Htxt) & Hgone).
    apply (IH _ _ _ _ Hloop Hi).
    destruct (decide (i = key n)) as [->|Hin]; [done|].
    specialize (Htxt i Hin). rewrite lookup_insert_ne, Hnone in Htxt by done.
    by apply fmap_None in Htxt.
Qed.

(** The loop of [combineAdjacentTextNodes] on nodes with distinct keys,
    with or without [restoreSelection]: the text it builds and the nodes it
    removes. *)
Lemma combineLoop_text r w aK aO fK fO : ∀ rest len env env' tw,
  combineLoop r w aK aO fK fO rest len env = Ok (tt, env') →
  registeredText (key w) env = Some tw →
  String.length tw = len →
  NoDup (key w :: (key <$> rest)) →
  registeredText (key w) env' = Some (tw +:+ concatTexts rest env)
  ∧ Forall (λ n, nodeMap (viewModel env') !! key n = None) rest.
Proof.
  induction rest as [|n rest IH]; intros len env env' tw H Htw Hlen Hnd.
  - simpl in H. injection H as <-. simpl. by rewrite append_empty_r.
  - pose proof H as Hall.
    apply combineLoop_step_nodes in H
      as (s & env3 & Hs & Hloop & _ & (tw' & Htw' & Htxt) & Hgone).
    rewrite (registeredText_getTextContent _ _ _ Htw) in Htw'. injection Htw' as <-.
    simpl in Hnd. apply NoDup_cons in Hnd as [Hw Hnd].
    apply not_elem_of_cons in Hw as [Hwn Hw].
    apply NoDup_cons in Hnd as [Hn Hnd].
    assert (Htw3 : registeredText (key w) env3 = Some (tw +:+ s)).
    { unfold registeredText in *.
      destruct (nodeMap (viewModel env) !! key w) as [fw|] eqn:Hfw; [|done].
      simpl in Htw.
      specialize (Htxt (key w) Hwn). rewrite lookup_insert_eq in Htxt.
      rewrite (getLatest_registered _ _ _ Hfw) in Htxt. simpl in Htxt.
      destruct (nodeMap (viewModel env3) !! key w) as [f3|]; [|done].
      simpl in *. injection Htxt as ->. unfold txt, setTextF in *.
      destruct (body fw) as [t u| |]; try done. simpl.
      injection Htw as ->. by rewrite <- Hlen, spliceString_end. }
    assert (Hrest : Forall (λ m, getTextContent m env3 = getTextContent m env) rest).
    { apply Forall_forall. intros m Hm. apply getTextContent_stable.
      assert (Hkm : key m ∈ key <$> rest) by (apply list_elem_of_fmap; by exists m).
      rewrite Htxt by (by intros Heq; rewrite Heq in Hkm).
      rewrite lookup_insert_ne; [done|]. by intros Heq; rewrite <- Heq in Hkm. }
    destruct (IH _ _ _ _ Hloop Htw3) as [Htext Hremoved].
    { rewrite length_append. by rewrite Hlen. }
    { by apply NoDup_cons. }
    rewrite (concatTexts_stable _ _ _ Hrest) in Htext.
    split.
    + simpl. rewrite Hs. by rewrite <- append_assoc.
    + apply Forall_cons. split; [|done].
      eapply combineLoop_keeps_unregistered; [exact Hloop| |done].
      by intros Heq.
Qed.

(** A call of [combineAdjacentTextNodes] on nodes with distinct keys that
    returns, with or without [restoreSelection]. *)
Lemma combineAdjacentTextNodes_text first rest r env u env' :
  combineAdjacentTextNodes (first :: rest) r env = Ok (u, env') →
  NoDup (key <$> first :: rest) →
  ∃ t,
    getTextContent first env = Ok t
    ∧ registeredText (key first) env' = Some (t +:+ concatTexts rest env)
    ∧ Forall (λ n, nodeMap (viewModel env') !! key n = None) rest.
Proof.
  unfold combineAdjacentTextNodes. intros H Hnd.
  inv_bind H. unfold getSelection in Hstep. apply gets_inv in Hstep as [-> ->].
  inv_bind H. destruct (selection env) as [sel|] eqn:Hsel; [|done].
  unfold invariant in Hstep. simpl in Hstep. injection Hstep as _ <-.
  inv_bind H. apply getWritableNode_inv in Hstep as (-> & Hnm0 & Hfr0).
  inv_bind H. unfold liftR in Hstep.
  destruct (getTextContent _ env0) as [t|] eqn:Ht; [|done]. injection Hstep as <- <-.
  inv_bind H. destruct_units.
  assert (Hfirst : getTextContent first env = Ok t).
  { unfold getTextContent in *. by rewrite (getLatest_entered _ _ _ Hnm0) in Ht. }
  assert (Hreg : registeredText (key first) env0 = Some t).
  { unfold registeredText. rewrite Hnm0, lookup_insert_eq. simpl.
    unfold getTextContent in Hfirst. unfold txt.
    by destruct (body (getLatest first env)); simplify_eq. }
  simpl in Hnd.
  assert (Hrest : Forall (λ m, getTextContent m env0 = getTextContent m env) rest).
  { apply Forall_forall. intros m Hm. apply getTextContent_stable.
    rewrite Hnm0, lookup_insert_ne; [done|].
    apply NoDup_cons in Hnd as [Hn _]. intros Heq. apply Hn. rewrite Heq.
    apply list_elem_of_fmap. by exists m. }
  rewrite <- (key_getLatest first env) in Hreg, Hnd.
  destruct (combineLoop_text _ _ _ _ _ _ _ _ _ _ _ Hstep Hreg eq_refl Hnd)
    as [Htext Hremoved].
  rewrite (concatTexts_stable _ _ _ Hrest) in Htext.
  rewrite key_getLatest in *.
  assert (Hnm' : nodeMap (viewModel env') = nodeMap (viewModel env1)).
  { destruct r; simpl in H.
    - unfold modify in H. by injection H as <-.
    - unfold ret in H. by injection H as <-. }
  exists t. unfold registeredText. rewrite Hnm'. by repeat split.
Qed.

Lemma isBlockNode_unlinkF k f : isBlockNode (unlinkF k f) = isBlockNode f.
Proof. unfold unlinkF, isBlockNode. by destruct (body f) eqn:Hb; simpl; rewrite ?Hb. Qed.

Lemma isBlockNode_lookup_detached k p nm i :
  isBlockNode <$> detached k p nm !! i = isBlockNode <$> nm !! i.
Proof.
  rewrite lookup_detached. case_decide; [|done].
  destruct (nm !! i); simpl; [by rewrite isBlockNode_unlinkF|done].
Qed.

Lemma isBlockNode_lookup_setParentF q k (nm : gmap NodeKey NodeFields) i :
  isBlockNode <$> alter (setParentF q) k nm !! i = isBlockNode <$> nm !! i.
Proof.
  destruct (decide (k = i)) as [->|Hne].
  - rewrite lookup_alter_eq. by destruct (nm !! i).
  - by rewrite lookup_alter_ne.
Qed.

Lemma childrenOf_block f : isBlockNode f = true → ∃ cs, childrenOf f = Ok cs.
Proof. unfold isBlockNode, childrenOf. destruct (body f); [done|by eexists|done]. Qed.

(** The statement [// Remove node from previous parent] of [append]
    returns when the previous parent, if it resolves, is a block. *)
Lemma detach_returns (w : OutlineNode) env :
  (∀ p, getParent w env = Some p → isBlockNode p = true) →
  ∃ env', match getParent w env with
          | Some p => bind (getWritableNode p) (λ writableParent,
                        unlinkFrom writableParent (key w))
          | None => ret tt
          end env = Ok (tt, env').
Proof.
  intros Hblock. destruct (getParent w env) as [p|] eqn:Hp; [|by eexists].
  specialize (Hblock p eq_refl).
  unfold bind at 1, getWritableNode. unfold unlinkFrom, bind at 1, readFields, gets.
  unfold bind at 1, liftR.
  assert (Hlatest : getLatest p env = p).
  { unfold getParent in Hp. destruct (parent (getLatest w env)) as [kP|]; [|done].
    simpl in Hp. unfold getNodeByKey in Hp.
    destruct (nodeMap (viewModel env) !! kP) as [fP|] eqn:HP; [|done].
    injection Hp as <-. by apply getLatest_registered. }
  rewrite Hlatest.
  set (env0 := withDirtyNodes _ _).
  assert (Hlatest0 : getLatest p env0 = p).
  { unfold getLatest, getNodeByKey, env0. simpl. rewrite lookup_insert_eq.
    by destruct p. }
  rewrite Hlatest0.
  destruct (childrenOf_block _ Hblock) as [cs ->].
  destruct (indexOf (key w) cs); by eexists.
Qed.

(** [append] returns in a transaction that is not read-only, on a
    registered block, when the previous parent of the node, if it resolves
    once the node is entered, is a block. *)
Lemma append_returns this nodeToAppend env fB :
  readOnly env = false →
  nodeMap (viewModel env) !! key this = Some fB →
  isBlockNode fB = true →
  (∀ p fp, parent (getLatest nodeToAppend env) = Some p →
     registryWith [nodeToAppend] env !! p = Some fp → isBlockNode fp = true) →
  ∃ w env', append this nodeToAppend env = Ok (w, env').
Proof.
  intros Hro HB HfB Hold. unfold append.
  assert (Hgate : shouldErrorOnReadOnly env = Ok (tt, env)).
  { unfold shouldErrorOnReadOnly. by rewrite Hro. }
  rewrite (bind_eq _ _ _ _ _ Hgate).
  destruct (getWritableNode this env) as [[wS env1]|] eqn:H1; [|done].
  rewrite (bind_eq _ _ _ _ _ H1).
  apply getWritableNode_inv in H1 as (-> & Hnm1 & Hfr1).
  rewrite (getLatest_registered _ _ _ HB) in Hnm1 |- *. simpl in Hnm1.
  rewrite insert_id in Hnm1 by done.
  destruct (getWritableNode nodeToAppend env1) as [[wN env2]|] eqn:H2; [|done].
  rewrite (bind_eq _ _ _ _ _ H2).
  apply getWritableNode_inv in H2 as (-> & Hnm2 & Hfr2).
  assert (HlatestN : getLatest nodeToAppend env1 = getLatest nodeToAppend env).
  { unfold getLatest, getNodeByKey. by rewrite Hnm1. }
  rewrite HlatestN in Hnm2 |- *. rewrite Hnm1 in Hnm2.
  pose proof (getLatest_entered _ _ _ Hnm2) as HlatestW.
  set (wN := getLatest nodeToAppend env) in *.
  assert (Hreg : registryWith [nodeToAppend] env = nodeMap (viewModel env2)).
  { unfold registryWith. simpl. rewrite Hnm2. unfold wN. by rewrite fields_getLatest. }
  unfold bind at 1, gets at 1. unfold bind at 1.
  destruct (detach_returns wN env2) as [env3 H3].
  { intros p Hp. unfold getParent in Hp.
    rewrite HlatestW in Hp.
    destruct (parent wN) as [kP|] eqn:HkP; [|done]. simpl in Hp.
    unfold getNodeByKey in Hp.
    destruct (nodeMap (viewModel env2) !! kP) as [fP|] eqn:HP; [|done].
    injection Hp as <-. simpl. eapply Hold; [done|]. by rewrite Hreg. }
  rewrite H3. apply detach_inv in H3 as [Hnm3 Hfr3].
  unfold bind at 1, writeFields at 1, modify at 1.
  set (env4 := withNodeMap _ env3).
  unfold bind at 1, readFields, gets. unfold bind at 1, liftR.
  assert (HB4 : isBlockNode <$> nodeMap (viewModel env4) !! key this = Some true).
  { unfold env4. simpl. rewrite isBlockNode_lookup_setParentF, Hnm3.
    rewrite isBlockNode_lookup_detached, Hnm2.
    destruct (decide (key nodeToAppend = key this)) as [Heq|Hne].
    - rewrite Heq, lookup_insert_eq. simpl. unfold wN.
      rewrite fields_getLatest, Heq, HB. simpl. by rewrite HfB.
    - rewrite lookup_insert_ne, HB by done. simpl. by rewrite HfB. }
  destruct (nodeMap (viewModel env4) !! key this) as [sf|] eqn:Hsf; [|done].
  simpl in HB4. injection HB4 as Hblock.
  assert (Hlatest4 : getLatest (mkNode (key this) fB) env4 = mkNode (key this) sf).
  { by apply (getLatest_registered (mkNode (key this) fB)). }
  rewrite Hlatest4. simpl.
  destruct (childrenOf_block _ Hblock) as [cs ->].
  unfold bind, when, gets, modify, ret, writeFields.
  destruct (bool_decide (0 < length cs)); [|by eexists _, _].
  destruct (cs !! (length cs - 1)) as [k|]; [|by eexists _, _].
  destruct (isEmptyTextNode _); by eexists _, _.
Qed.

(** [remove] returns on a registered node whose parent is a registered
    block. *)
Lemma remove_returns n env f kB fB :
  readOnly env = false →
  nodeMap (viewModel env) !! key n = Some f →
  parent f = Some kB →
  nodeMap (viewModel env) !! kB = Some fB →
  isBlockNode fB = true →
  ∃ env', remove n env = Ok (tt, env').
Proof.
  intros Hro Hf Hp HB HfB. unfold remove.
  assert (Hgate : shouldErrorOnReadOnly env = Ok (tt, env)).
  { unfold shouldErrorOnReadOnly. by rewrite Hro. }
  rewrite (bind_eq _ _ _ _ _ Hgate).
  destruct (getWritableNode n env) as [[w env0]|] eqn:H0; [|done].
  rewrite (bind_eq _ _ _ _ _ H0).
  apply getWritableNode_inv in H0 as (-> & Hnm0 & Hfr0).
  rewrite (getLatest_registered _ _ _ Hf) in Hnm0 |- *. simpl in Hnm0.
  rewrite insert_id in Hnm0 by done.
  unfold bind at 1, gets at 1. unfold bind at 1.
  destruct (detach_returns (mkNode (key n) f) env0) as [env1 H1].
  { intros p. unfold getParent.
    rewrite (getLatest_registered (mkNode (key n) f) env0 f) by by rewrite Hnm0.
    simpl. rewrite Hp. simpl. unfold getNodeByKey. rewrite Hnm0, HB. simpl.
    by intros [= <-]. }
  rewrite H1. unfold bind, writeFields, modify. by eexists.
Qed.

(** Removing, in order, registered children of a registered block
    returns. *)
Lemma forEachRemove_returns kB : ∀ nodes env fB cs,
  readOnly env = false →
  nodeMap (viewModel env) !! kB = Some fB →
  body fB = BlockBody cs →
  NoDup (key <$> nodes) →
  kB ∉ key <$> nodes →
  (∀ k, k ∈ key <$> nodes →
     ∃ f, nodeMap (viewModel env) !! k = Some f ∧ parent f = Some kB) →
  ∃ env', forEachRemove nodes env = Ok (tt, env').
Proof.
  induction nodes as [|n nodes IH]; intros env fB cs Hro HB Hbody Hnd HkB Hch.
  - by eexists.
  - simpl in *. apply NoDup_cons in Hnd as [Hn Hnd].
    apply not_elem_of_cons in HkB as [HneB HkB].
    destruct (Hch (key n)) as (f & Hf & Hp); [by left|].
    destruct (remove_returns n env f kB fB Hro Hf Hp HB) as [env0 H0].
    { unfold isBlockNode. by rewrite Hbody. }
    rewrite (bind_eq _ _ _ _ _ H0).
    apply remove_inv in H0 as (_ & Hnm & Hfr).
    rewrite (getLatest_registered _ _ _ Hf) in Hnm. simpl in Hnm.
    rewrite insert_id in Hnm by done. rewrite Hp in Hnm. simpl in Hnm.
    apply (IH env0 (unlinkF (key n) fB) (unlinked (key n) cs)); try done.
    + destruct Hfr as (_ & -> & _). done.
    + by rewrite Hnm, lookup_delete_ne, lookup_alter_eq, HB.
    + by rewrite (unlinkF_block _ _ _ Hbody).
    + intros k Hk. destruct (Hch k) as (f' & Hf' & Hp'); [by right|].
      exists f'. split; [|done].
      rewrite Hnm, lookup_delete_ne, lookup_alter_ne; [done| |]; by intros <-.
Qed.

(** [clear] returns in a transaction that is not read-only on a
    registered block whose stored child keys are distinct and not its own,
    and whose children that resolve have the block as parent; with
    [restoreSelection], when there is a selection. *)
Lemma clear_returns B restoreSelection env fB cs :
  readOnly env = false →
  nodeMap (viewModel env) !! key B = Some fB →
  body fB = BlockBody cs →
  NoDup cs →
  key B ∉ cs →
  Forall (λ k, nodeMap (viewModel env) !! k = None
               ∨ nodeMap (viewModel env) !! k ≫= parent = Some (key B)) cs →
  (restoreSelection = true → is_Some (selection env)) →
  ∃ w env', clear B restoreSelection env = Ok (w, env').
Proof.
  intros Hro HB Hbody Hnd HkB Hchildren Hsel. unfold clear.
  assert (Hgate : shouldErrorOnReadOnly env = Ok (tt, env)).
  { unfold shouldErrorOnReadOnly. by rewrite Hro. }
  rewrite (bind_eq _ _ _ _ _ Hgate).
  destruct (getWritableNode B env) as [[w env0]|] eqn:H0; [|done].
  rewrite (bind_eq _ _ _ _ _ H0).
  apply getWritableNode_inv in H0 as (-> & Hnm0 & Hfr0).
  rewrite (getLatest_registered _ _ _ HB) in Hnm0 |- *. simpl in Hnm0.
  rewrite insert_id in Hnm0 by done.
  assert (Hch : getChildren B env0 = Ok (omap (λ k, getNodeByKey k env0) cs)).
  { unfold getChildren. rewrite fields_getLatest, Hnm0, HB. simpl.
    unfold childrenOf. by rewrite Hbody. }
  unfold bind at 1, liftR. rewrite Hch.
  set (live := filter (λ k, nodeMap (viewModel env) !! k ≠ None) cs).
  assert (Hkeys : key <$> omap (λ k, getNodeByKey k env0) cs = live).
  { rewrite keys_omap_getNodeByKey. by rewrite Hnm0. }
  assert (Hro0 : readOnly env0 = false) by (by destruct Hfr0 as (_ & -> & _)).
  assert (Hlive_nd : NoDup live) by by apply NoDup_filter.
  assert (Hlive_B : key B ∉ live).
  { intros Hin. by apply list_elem_of_filter in Hin as [_ Hin]. }
  assert (Hlive_ch : ∀ k, k ∈ live →
    ∃ f, nodeMap (viewModel env) !! k = Some f ∧ parent f = Some (key B)).
  { intros k [Hk Hin]%list_elem_of_filter.
    rewrite Forall_forall in Hchildren. destruct (Hchildren k Hin) as [Hn|Hp]; [done|].
    destruct (nodeMap (viewModel env) !! k) as [f|]; [|done]. by exists f. }
  destruct (forEachRemove_returns (key B) (omap (λ k, getNodeByKey k env0) cs)
              env0 fB cs) as [env1 H1]; rewrite ?Hkeys, ?Hnm0; try done.
  rewrite (bind_eq _ _ _ _ _ H1).
  apply (forEachRemove_unlinks (key B) _ _ _ fB cs) in H1 as (HB1 & _ & Hfr1);
    rewrite ?Hkeys, ?Hnm0; try done.
  assert (Hro1 : readOnly env1 = false) by (destruct Hfr1 as (_ & -> & _); done).
  assert (Hsel1 : selection env1 = selection env).
  { destruct Hfr0 as (Hs0 & _), Hfr1 as (Hs1 & _). congruence. }
  unfold bind at 1, createTextNode, bind at 1, generateKey, ret at 1.
  set (k := fresh (usedKeys env1 ∪ dom (nodeMap (viewModel env1)))).
  assert (Hfresh : k ∉ usedKeys env1 ∪ dom (nodeMap (viewModel env1))) by apply is_fresh.
  apply not_elem_of_union in Hfresh as [_ Hdom].
  apply not_elem_of_dom in Hdom.
  set (env3 := withUsedKeys _ env1).
  set (textNode := mkNode k (mkFields None 0 (TextBody "" None))).
  assert (Hnm3 : nodeMap (viewModel env3) = nodeMap (viewModel env1)) by done.
  destruct (append_returns B textNode env3
              (setChildrenF (filter (λ k, k ∉ key <$> omap (λ k, getNodeByKey k env0) cs) cs) fB))
    as (w & env2 & H2); try done.
  { intros p fp Hp.
    assert (Hl : getLatest textNode env3 = textNode).
    { unfold getLatest, getNodeByKey. change (key textNode) with k.
      by rewrite Hnm3, Hdom. }
    by rewrite Hl in Hp. }
  rewrite (bind_eq _ _ _ _ _ H2).
  apply append_inv in H2 as (_ & _ & _ & _ & _ & _ & _ & Hsel2 & Hro2 & _).
  destruct restoreSelection; simpl.
  - destruct (Hsel eq_refl) as [sel Hs].
    unfold bind at 1, select, bind at 1, shouldErrorOnReadOnly.
    rewrite Hro2. simpl. rewrite Hro1.
    unfold bind at 1, getSelection, gets. rewrite Hsel2. simpl.
    rewrite Hsel1, Hs. simpl. by eexists _, _.
  - by eexists _, _.
Qed.

Lemma oneBatch_cons (a : OutlineNode) (l : list OutlineNode) :
  oneBatch (a :: l)
  = qualifies a && match l with b :: _ => joins a b | [] => true end && oneBatch l.
Proof. done. Qed.

Lemma qualifies_inv (f : NodeFields) :
  qualifies f = true →
  ∃ t url, body f = TextBody t url
    ∧ negb (isImmutable f) && negb (isSegmented f) = true.
Proof.
  unfold qualifies, isTextNode. intros H.
  destruct (body f) as [t url| |]; [|done..].
  exists t, url. split; [done|]. exact H.
Qed.

(** With an open batch that ends in [a], the scan over children that
    continue the batch closes it once, at the end, with all of them. *)
Lemma normalizeLoop_oneBatch_open r env : ∀ children acc (a : OutlineNode),
  oneBatch (a :: ((λ c, getLatest c env) <$> children)) = true →
  normalizeLoop r children (acc ++ [a]) (Some (flags a)) (urlOf a) env
  = closeBatch (acc ++ a :: ((λ c, getLatest c env) <$> children)) r env.
Proof.
  induction children as [|c rest IH]; intros acc a Hone; [done|].
  rewrite fmap_cons in Hone |- *. rewrite oneBatch_cons in Hone.
  apply andb_true_iff in Hone as [Hone Hrest].
  apply andb_true_iff in Hone as [_ Hjoin].
  pose proof Hrest as Hq. rewrite oneBatch_cons in Hq.
  apply andb_true_iff in Hq as [Hq _]. apply andb_true_iff in Hq as [Hq _].
  destruct (qualifies_inv _ Hq) as (t & url & Hb & Hflags).
  cbn [normalizeLoop]. unfold bind at 1, gets at 1.
  rewrite Hb, Hflags.
  assert (Hurl : url = urlOf (getLatest c env)) by (unfold urlOf; by rewrite Hb).
  rewrite Hurl. unfold joins in Hjoin. rewrite Hjoin.
  rewrite (IH (acc ++ [a]) (getLatest c env) Hrest).
  by rewrite <- app_assoc.
Qed.

(** The scan over children that form one batch closes that batch, and
    nothing else. *)
Lemma normalizeLoop_oneBatch r env children :
  oneBatch ((λ c, getLatest c env) <$> children) = true →
  normalizeLoop r children [] None None env
  = closeBatch ((λ c, getLatest c env) <$> children) r env.
Proof.
  destruct children as [|c rest]; [done|]. intros Hone.
  rewrite fmap_cons in Hone |- *.
  pose proof Hone as Hq. rewrite oneBatch_cons in Hq.
  apply andb_true_iff in Hq as [Hq _]. apply andb_true_iff in Hq as [Hq _].
  destruct (qualifies_inv _ Hq) as (t & url & Hb & Hflags).
  cbn [normalizeLoop]. unfold bind at 1, gets at 1.
  rewrite Hb, Hflags. cbn [joinsBatch andb].
  assert (Hurl : url = urlOf (getLatest c env)) by (unfold urlOf; by rewrite Hb).
  rewrite Hurl.
  by rewrite (normalizeLoop_oneBatch_open r env rest [] (getLatest c env) Hone).
Qed.

(** One turn of the loop of [combineAdjacentTextNodes] that returns, on a
    node other than the one merged into: the registry outside the removed
    node. *)
Lemma combineLoop_step_lookup r w aK aO fK fO n rest len env env' :
  combineLoop r w aK aO fK fO (n :: rest) len env = Ok (tt, env') →
  key n ≠ key w →
  ∃ s tw env3,
    getTextContent n env = Ok s
    ∧ getTextContent w env = Ok tw
    ∧ combineLoop r w aK aO fK fO rest (len + String.length s) env3 = Ok (tt, env')
    ∧ ∀ i, i ≠ key n →
        nodeMap (viewModel env3) !! i
        = detached (key n) (parent (getLatest n env))
            (<[key w := setTextF (spliceString len 0 s tw) (getLatest w env)]>
               (nodeMap (viewModel env))) !! i.
Proof.
  simpl. intros H Hnw.
  inv_bind H. unfold liftR in Hstep.
  destruct (getTextContent n env) as [s|] eqn:Hs; [|done]. injection Hstep as <- <-.
  inv_bind H. inv_bind H. inv_bind H. inv_bind H. destruct_units.
  assert (Hnm0 : nodeMap (viewModel env0) = nodeMap (viewModel env)).
  { unfold when in Hstep. destruct (r && bool_decide (key n = aK)).
    - unfold modify in Hstep. by injection Hstep as <-.
    - unfold ret in Hstep. by injection Hstep as <-. }
  assert (Hnm1 : nodeMap (viewModel env1) = nodeMap (viewModel env)).
  { unfold when in Hstep0. destruct (r && bool_decide (key n = fK)).
    - unfold modify in Hstep0. injection Hstep0 as <-. done.
    - unfold ret in Hstep0. injection Hstep0 as <-. done. }
  apply spliceText_inv in Hstep1 as (_ & (tw & Htw & Hnm2) & Hfr2).
  apply remove_inv in Hstep2 as (_ & Hnm3 & Hfr3).
  assert (Hlatest : ∀ m, getLatest m env1 = getLatest m env).
  { intros m. unfold getLatest, getNodeByKey. by rewrite Hnm1. }
  assert (Hlatest2 : getLatest n env2 = getLatest n env).
  { unfold getLatest, getNodeByKey. by rewrite Hnm2, lookup_insert_ne, Hnm1. }
  exists s, tw, env3. split; [done|]. split.
  { rewrite getTextContent_txt in Htw |- *. by rewrite Hnm1 in Htw. }
  split; [done|].
  intros i Hi. rewrite Hnm3, lookup_delete_ne by done.
  rewrite !lookup_detached, lookup_insert_ne by done.
  by rewrite Hlatest2, Hnm2, Hnm1, Hlatest.
Qed.

(** The loop of [combineAdjacentTextNodes] on registered children of the
    block [kB]: the child list of the block loses the keys of the nodes
    merged away. *)
Lemma combineLoop_parent r w aK aO fK fO kB : ∀ rest len env env' fB cs,
  combineLoop r w aK aO fK fO rest len env = Ok (tt, env') →
  nodeMap (viewModel env) !! kB = Some fB →
  body fB = BlockBody cs →
  NoDup cs →
  NoDup (key w :: (key <$> rest)) →
  kB ∉ key w :: (key <$> rest) →
  Forall (λ n, ∃ f, nodeMap (viewModel env) !! key n = Some f
                    ∧ parent f = Some kB) rest →
  nodeMap (viewModel env') !! kB
  = Some (setChildrenF (filter (λ k, k ∉ key <$> rest) cs) fB).
Proof.
  induction rest as [|n rest IH]; intros len env env' fB cs H HB Hbody Hcs Hnd HkB Hch.
  - simpl in H. injection H as <-. rewrite HB. f_equal. symmetry.
    rewrite filter_Forall_id.
    + by apply setChildrenF_same.
    + apply Forall_forall. intros k _. apply not_elem_of_nil.
  - simpl in Hnd, HkB, Hch.
    apply NoDup_cons in Hnd as [Hw Hnd].
    apply not_elem_of_cons in Hw as [Hwn Hw].
    apply NoDup_cons in Hnd as [Hn Hnd].
    apply not_elem_of_cons in HkB as [HBw HkB].
    apply not_elem_of_cons in HkB as [HBn HkB].
    apply Forall_cons in Hch as [(f & Hf & Hp) Hch].
    apply combineLoop_step_lookup in H
      as (s & tw & env3 & _ & _ & Hloop & Hlook); [|by intros Heq].
    rewrite (getLatest_registered _ _ _ Hf) in Hlook. simpl in Hlook. rewrite Hp in Hlook.
    assert (HB3 : nodeMap (viewModel env3) !! kB
      = Some (setChildrenF (filter (λ x, x ≠ key n) cs) fB)).
    { rewrite (Hlook kB HBn), lookup_detached, decide_True by done.
      rewrite lookup_insert_ne, HB by done. simpl.
      by rewrite (unlinkF_block _ _ _ Hbody), unlinked_filter. }
    rewrite (IH _ env3 env' _ (filter (λ x, x ≠ key n) cs) Hloop HB3); try done.
    + f_equal. destruct fB as [p fl b]. simpl in Hbody. subst b.
      unfold setChildrenF. simpl. do 2 f_equal. rewrite list_filter_filter.
      apply list_filter_iff. intros k. rewrite not_elem_of_cons. tauto.
    + by apply NoDup_filter.
    + by apply NoDup_cons.
    + by apply not_elem_of_cons.
    + apply Forall_forall. intros m Hm. rewrite Forall_forall in Hch.
      destruct (Hch m Hm) as (fm & Hfm & Hpm). exists fm. split; [|done].
      assert (Hkm : key m ∈ key <$> rest) by (apply list_elem_of_fmap; by exists m).
      rewrite Hlook by (by intros Heq; rewrite Heq in Hkm).
      rewrite lookup_detached, decide_False.
      * rewrite lookup_insert_ne; [done|]. by intros Heq; rewrite <- Heq in Hkm.
      * intros [= Heq]. by rewrite Heq in HkB.
Qed.

(** A call of [combineAdjacentTextNodes] that returns, on registered
    children of the block [kB] with distinct keys: the child list of the
    block. *)
Lemma combineAdjacentTextNodes_parent first rest r env u env' kB fB cs :
  combineAdjacentTextNodes (first :: rest) r env = Ok (u, env') →
  nodeMap (viewModel env) !! kB = Some fB →
  body fB = BlockBody cs →
  NoDup cs →
  NoDup (key <$> first :: rest) →
  kB ∉ key <$> first :: rest →
  Forall (λ n, ∃ f, nodeMap (viewModel env) !! key n = Some f
                    ∧ parent f = Some kB) rest →
  nodeMap (viewModel env') !! kB
  = Some (setChildrenF (filter (λ k, k ∉ key <$> rest) cs) fB).
Proof.
  unfold combineAdjacentTextNodes. intros H HB Hbody Hcs Hnd HkB Hch.
  inv_bind H. unfold getSelection in Hstep. apply gets_inv in Hstep as [-> ->].
  inv_bind H. destruct (selection env) as [sel|] eqn:Hsel; [|done].
  unfold invariant in Hstep. simpl in Hstep. injection Hstep as _ <-.
  inv_bind H. apply getWritableNode_inv in Hstep as (-> & Hnm0 & Hfr0).
  inv_bind H. unfold liftR in Hstep.
  destruct (getTextContent _ env0) as [t|] eqn:Ht; [|done]. injection Hstep as <- <-.
  inv_bind H. destruct_units.
  simpl in Hnd, HkB.
  assert (Hnm' : nodeMap (viewModel env') = nodeMap (viewModel env1)).
  { destruct r; simpl in H.
    - unfold modify in H. by injection H as <-.
    - unfold ret in H. by injection H as <-. }
  rewrite Hnm'.
  apply (combineLoop_parent _ _ _ _ _ _ kB _ _ _ _ fB cs Hstep); try done.
  - rewrite Hnm0, lookup_insert_ne; [done|].
    apply not_elem_of_cons in HkB as [HBw _]. by intros Heq.
  - by rewrite key_getLatest.
  - by rewrite key_getLatest.
  - apply Forall_forall. intros m Hm. rewrite Forall_forall in Hch.
    destruct (Hch m Hm) as (fm & Hfm & Hpm). exists fm.
    split; [|done]. rewrite Hnm0, lookup_insert_ne; [done|].
    intros Heq. apply NoDup_cons in Hnd as [Hn _]. apply Hn. rewrite Heq.
    apply list_elem_of_fmap. by exists m.
Qed.

Lemma textNodeLoop_returns (recurse : OutlineNode → Result (option OutlineNode))
    children :
  (∀ c : OutlineNode, c ∈ children → isBlockNode c = true → ∃ r, recurse c = Ok r) →
  ∃ r, textNodeLoop recurse children = Ok r.
Proof.
  induction children as [|child rest IH]; intros Hrec; [by eexists|]. simpl.
  destruct (isTextNode child); [by eexists|].
  destruct (isBlockNode child) eqn:Hblock.
  - apply Hrec; [by left|done].
  - apply IH. intros c Hc. apply Hrec. by right.
Qed.

(** The children that [getChildren] returns for a registered block of a
    ranked registry are registered and of lower rank. *)
Lemma getChildren_ranked rank this env f :
  ranked rank env →
  nodeMap (viewModel env) !! key this = Some f →
  isBlockNode f = true →
  ∃ children,
    getChildren this env = Ok children
    ∧ ∀ c : OutlineNode, c ∈ children →
        nodeMap (viewModel env) !! key c = Some (fields c)
        ∧ rank (key c) < rank (key this).
Proof.
  intros Hranked Hf Hblock. unfold getChildren.
  rewrite fields_getLatest, Hf. simpl. unfold childrenOf, isBlockNode in *.
  destruct (body f) as [|cs|] eqn:Hbody; [done| |done]. simpl.
  eexists. split; [done|].
  intros c (k & Hk & Hc)%list_elem_of_omap. unfold getNodeByKey in Hc.
  destruct (nodeMap (viewModel env) !! k) as [fc|] eqn:Hfc; [|done].
  injection Hc as <-. simpl. split; [done|].
  specialize (Hranked _ _ Hf). unfold storedChildren in Hranked. rewrite Hbody in Hranked.
  rewrite Forall_forall in Hranked. apply Hranked; [done|]. by rewrite Hfc.
Qed.

(** ** Results *)

(** C1 (code defect).  In a block whose first child is a block without
    text and whose second child is a text node, [getFirstTextNode] returns
    [null] as soon as the first block child has none, although the
    document-order search of the specification finds the text node; the
    same holds for [getLastTextNode] from the other end. *)
Theorem C1_text_search_stops_at_first_block (d : nat) :
  getFirstTextNode (S (S d)) rootRef docEmptyBlocks = Ok None
  ∧ getLastTextNode (S (S d)) rootRef docEmptyBlocks = Ok None
  ∧ specFirstTextNode (S (S d)) rootRef docEmptyBlocks
    = Ok (Some (mkNode "t" (textFields "root" 0 "a" None)))
  ∧ specLastTextNode (S (S d)) rootRef docEmptyBlocks
    = Ok (Some (mkNode "t" (textFields "root" 0 "a" None))).
Proof. repeat split; reflexivity. Qed.

(** C2 (code defect).  The reference url of a batch whose nodes have no
    url is [null], which the scan also takes for "no reference yet": a
    link that follows a plain text node with the same flags joins its
    batch, and the two are merged into the plain node, where the batches of
    the specification keep them apart.  On the document of the merge
    example the scan and the specification agree on ["abcd"; "ef"]. *)
Theorem C2_plain_text_absorbs_following_link :
  let root := rootRef in
  (∀ fl url, joinsBatch (Some fl) None fl url = true)
  ∧ childrenAfter (normalizeTextNodes root false) root (docPlainThenLink (Some someSelection))
    = Ok [mkNode "t1" (textFields "root" 0 "abcd" None)]
  ∧ specNormalize (liveChildren root (docPlainThenLink (Some someSelection))) None
    = [mkNode "t1" (textFields "root" 0 "ab" None);
       mkNode "t2" (textFields "root" 0 "cd" (Some "https://example.org"))]
  ∧ childrenAfter (normalizeTextNodes root false) root (docMerge (Some someSelection))
    = Ok [mkNode "t1" (textFields "root" 0 "abcd" None);
          mkNode "t3" (textFields "root" 1 "ef" None)]
  ∧ specNormalize (liveChildren root (docMerge (Some someSelection))) None
    = [mkNode "t1" (textFields "root" 0 "abcd" None);
       mkNode "t3" (textFields "root" 1 "ef" None)].
Proof.
  split.
  - intros fl url. unfold joinsBatch. by rewrite bool_decide_eq_true_2.
  - repeat split; vm_compute; reflexivity.
Qed.

(** C3.  When a merge with [restoreSelection] set returns, on a batch
    [first :: rest] of nodes with distinct keys, and the length of the
    merged text plus the magnitude of either offset of the selection is at
    most [2 ^ 53] (so that the sums of a length and an offset are exact),
    the selection is marked dirty and, for every node of [rest], at index
    [j]: if the anchor was in that node, the anchor is now in [first], at
    the text length accumulated in [first] just before that node is spliced
    in (the length of the text of [first] plus the lengths of the texts of
    the [j] nodes before it) plus the offset the anchor had; and the same,
    independently, for the focus.  On the children "ab" and "cd", with the
    anchor in the second node at offset 1, normalization leaves the anchor
    in the first node at offset 3 and the selection dirty. *)
Theorem C3_selection_rebased_on_merge (first : OutlineNode) (rest : list OutlineNode)
    (env env' : Env) (sel : Selection) :
  combineAdjacentTextNodes (first :: rest) true env = Ok (tt, env') →
  selection env = Some sel →
  NoDup (key <$> first :: rest) →
  (Z.of_nat (textLengthOf first env + sum_list ((λ n, textLengthOf n env) <$> rest))
   + Z.abs (anchorOffset sel) ≤ 2 ^ 53)%Z →
  (Z.of_nat (textLengthOf first env + sum_list ((λ n, textLengthOf n env) <$> rest))
   + Z.abs (focusOffset sel) ≤ 2 ^ 53)%Z →
  (∃ sel',
     selection env' = Some sel'
     ∧ isDirty sel' = true
     ∧ ∀ j node, rest !! j = Some node →
         let before :=
           Z.of_nat (textLengthOf first env
                     + sum_list ((λ n, textLengthOf n env) <$> take j rest)) in
         (anchorKey sel = key node →
            anchorKey sel' = key first
            ∧ anchorOffset sel' = (before + anchorOffset sel)%Z)
         ∧ (focusKey sel = key node →
              focusKey sel' = key first
              ∧ focusOffset sel' = (before + focusOffset sel)%Z))
  ∧ selectionAfter (normalizeTextNodes rootRef true) (docTwoTexts (Some selectionInSecond))
    = Ok (Some (mkSelection "t1" 3 "t1" 4 true)).
Proof.
  intros H Hsel Hnd Hanchor Hfocus. split; [|by vm_compute].
  destruct (combineAdjacentTextNodes_inv _ _ _ _ _ _ H Hsel Hnd)
    as (sel' & t & Hsel' & Hdirty & Ht & _ & Ha & Hf).
  exists sel'. split; [done|]. split; [done|].
  intros j node Hj before.
  assert (Hoff : ∀ k, k = key node →
    offsetBefore k rest env (String.length t) = Some (Z.to_nat before)).
  { intros k ->. simpl in Hnd. apply NoDup_cons in Hnd as [_ Hnd].
    rewrite (offsetBefore_lookup _ _ _ _ _ Hnd Hj). unfold before.
    rewrite Nat2Z.id. unfold textLengthOf at 2. by rewrite Ht. }
  assert (Hbefore : Z.of_nat (Z.to_nat before) = before).
  { unfold before. by rewrite Nat2Z.id. }
  assert (Hexact : ∀ o,
    (Z.of_nat (textLengthOf first env + sum_list ((λ n, textLengthOf n env) <$> rest))
     + Z.abs o ≤ 2 ^ 53)%Z →
    numberAdd before o = (before + o)%Z).
  { intros o Ho. apply numberAdd_exact. unfold before.
    pose proof (sum_list_take_le ((λ n, textLengthOf n env) <$> rest) j) as Hle.
    rewrite <- fmap_take in Hle. lia. }
  split.
  - intros Hk. rewrite (Hoff _ Hk), Hbefore, (Hexact _ Hanchor) in Ha. by injection Ha.
  - intros Hk. rewrite (Hoff _ Hk), Hbefore, (Hexact _ Hfocus) in Hf. by injection Hf.
Qed.

(** C3 on the two nodes "ab" and "cd", with the anchor and the focus in the
    second one. *)
Lemma C3_selection_rebased_on_merge_witness :
  let env := docTwoTexts (Some selectionInSecond) in
  let first := mkNode "t1" (textFields "root" 0 "ab" None) in
  let rest := [mkNode "t2" (textFields "root" 0 "cd" None)] in
  let env' := (returned (combineAdjacentTextNodes (first :: rest) true env) (tt, env)).2 in
  (∃ sel',
     selection env' = Some sel'
     ∧ isDirty sel' = true
     ∧ ∀ j node, rest !! j = Some node →
         let before :=
           Z.of_nat (textLengthOf first env
                     + sum_list ((λ n, textLengthOf n env) <$> take j rest)) in
         (anchorKey selectionInSecond = key node →
            anchorKey sel' = key first
            ∧ anchorOffset sel' = (before + anchorOffset selectionInSecond)%Z)
         ∧ (focusKey selectionInSecond = key node →
              focusKey sel' = key first
              ∧ focusOffset sel' = (before + focusOffset selectionInSecond)%Z))
  ∧ selectionAfter (normalizeTextNodes rootRef true) (docTwoTexts (Some selectionInSecond))
    = Ok (Some (mkSelection "t1" 3 "t1" 4 true)).
Proof.
  intros env first rest env'.
  apply (C3_selection_rebased_on_merge first rest env env' selectionInSecond).
  - vm_compute. reflexivity.
  - reflexivity.
  - apply (bool_decide_unpack _). vm_compute. exact I.
  - vm_compute. discriminate.
  - vm_compute. discriminate.
Defined.

(** C4.  When [append B C] returns, and the parent/child linkage of the
    data model held for the key of [C] (every block that lists it lists no
    key twice and is the parent of [C]; the registry is taken with [B] and
    [C] entered, if they were new objects), then the parent of [C] is the
    key of [B], the child list of [B] is some [cs] followed by the key of
    [C] with that key not in [cs], and no other block lists the key of
    [C].  This covers a [C] that was a child of [B] already. *)
Theorem C4_append_parent_child_consistency (B C : OutlineNode) (env : Env)
    (w : OutlineNode) (env' : Env) :
  append B C env = Ok (w, env') →
  parentLinked (registryWith [B; C] env) (key C) →
  (nodeMap (viewModel env') !! key C ≫= parent) = Some (key B)
  ∧ (∃ cs, childKeys (key B) env' = Some (cs ++ [key C]) ∧ key C ∉ cs)
  ∧ (∀ kP csP, kP ≠ key B → childKeys kP env' = Some csP → key C ∉ csP).
Proof.
  intros H Hlinked. rewrite registryWith_two in Hlinked. apply append_inv in H.
  destruct H as (_ & sf & children & Hsf & Hbody & Hnm & _).
  set (kB := key B) in *. set (kC := key C) in *.
  set (nm1 := <[kB := fields (getLatest B env)]> (nodeMap (viewModel env))) in *.
  set (fC := default (fields C) (nm1 !! kC)) in *.
  set (nm2 := <[kC := fC]> nm1) in *.
  set (nm3 := detached kC (parent fC) nm2) in *.
  set (nm4 := alter (setParentF (Some kB)) kC nm3) in *.
  simpl in Hlinked.
  assert (HC2 : nm2 !! kC = Some fC) by apply lookup_insert_eq.
  assert (Hnot : ∀ i f cs, nm4 !! i = Some f → body f = BlockBody cs → kC ∉ cs).
  { intros i f cs Hi Hb.
    apply lookup_alter_body in Hi as (f3 & Hf3 & Hb3); [|done].
    rewrite Hb in Hb3. symmetry in Hb3.
    exact (detached_not_listed nm2 kC fC i f3 cs Hlinked HC2 Hf3 Hb3). }
  split; [|split].
  - rewrite Hnm.
    assert (∃ f4, nm4 !! kC = Some f4 ∧ parent f4 = Some kB) as (f4 & Hf4 & Hp4).
    { unfold nm4. rewrite lookup_alter_eq.
      assert (is_Some (nm3 !! kC)) as [f3 Hf3].
      { apply elem_of_dom. unfold nm3, nm2. rewrite dom_detached, dom_insert_L.
        set_solver. }
      rewrite Hf3. by eexists. }
    destruct (decide (kB = kC)) as [Heq|Hne].
    + rewrite Heq, lookup_insert_eq. simpl. rewrite Heq in Hsf. congruence.
    + rewrite lookup_insert_ne by done. by rewrite Hf4.
  - exists children. split; [|by eapply Hnot].
    apply childKeys_Some. eexists. by rewrite Hnm, lookup_insert_eq.
  - intros kP csP Hne (fP & HfP & HbP)%childKeys_Some.
    rewrite Hnm, lookup_insert_ne in HfP by done. by eapply Hnot.
Qed.

(** C4 on a node moved from another block, and on a node that is already
    a child of the block it is appended to. *)
Lemma C4_append_parent_child_consistency_witness :
  let moved := (returned (append rootRef (nodeRef "c") docAppend) (rootRef, docAppend)).2 in
  let again := (returned (append rootRef (nodeRef "a") docAppend) (rootRef, docAppend)).2 in
  ((nodeMap (viewModel moved) !! "c" ≫= parent) = Some "root"
   ∧ (∃ cs, childKeys "root" moved = Some (cs ++ ["c"]) ∧ "c" ∉ cs)
   ∧ (∀ kP csP, kP ≠ "root" → childKeys kP moved = Some csP → "c" ∉ csP))
  ∧ ((nodeMap (viewModel again) !! "a" ≫= parent) = Some "root"
     ∧ (∃ cs, childKeys "root" again = Some (cs ++ ["a"]) ∧ "a" ∉ cs)
     ∧ (∀ kP csP, kP ≠ "root" → childKeys kP again = Some csP → "a" ∉ csP)).
Proof.
  intros moved again. split.
  - apply (C4_append_parent_child_consistency rootRef (nodeRef "c") docAppend
      (returned (append rootRef (nodeRef "c") docAppend) (rootRef, docAppend)).1 moved).
    + vm_compute. reflexivity.
    + apply (bool_decide_unpack _). vm_compute. exact I.
  - apply (C4_append_parent_child_consistency rootRef (nodeRef "a") docAppend
      (returned (append rootRef (nodeRef "a") docAppend) (rootRef, docAppend)).1 again).
    + vm_compute. reflexivity.
    + apply (bool_decide_unpack _). vm_compute. exact I.
Defined.

(** C5 (counterexample).  On the block with the stored child keys
    "gone1", "t" and "gone2", of which only "t" resolves, [clear] returns
    and leaves three child keys: the two that do not resolve, and after
    them the key of the new empty text node, which is the one child that
    [getChildren] returns. *)
Lemma C5_clear_leaves_dangling_keys :
  ∃ w env',
    clear rootRef false docDangling = Ok (w, env')
    ∧ childKeys "root" env' = Some ["gone1"; "gone2"; "0"]
    ∧ getChildren rootRef env' = Ok [mkNode "0" (textFields "root" 0 "" None)].
Proof. eexists _, _. split; [vm_compute; reflexivity|]. split; vm_compute; reflexivity. Qed.

(** C5 (amended).  When [clear] returns on a block of the tree (its
    stored child keys are distinct and are not its own key, and those that
    resolve resolve to nodes whose parent is the block), the child list of
    the block is the stored keys that did not resolve, in order, followed
    by one key; when every stored key resolved, the child list is that one
    key.  The key had not been handed out before, and its node is a text
    node with empty content, without url, whose parent is the block.  With
    [restoreSelection], the anchor and the focus of the selection are both
    at offset 0 of that node. *)
Theorem C5_clear_leaves_one_empty_text (B : OutlineNode) (restoreSelection : bool)
    (env : Env) (w : OutlineNode) (env' : Env) (fB : NodeFields) (cs : list NodeKey) :
  clear B restoreSelection env = Ok (w, env') →
  nodeMap (viewModel env) !! key B = Some fB →
  body fB = BlockBody cs →
  NoDup cs →
  key B ∉ cs →
  Forall (λ k, nodeMap (viewModel env) !! k = None
               ∨ nodeMap (viewModel env) !! k ≫= parent = Some (key B)) cs →
  ∃ k,
    (k ∉ usedKeys env)
    ∧ childKeys (key B) env'
      = Some (filter (λ j, nodeMap (viewModel env) !! j = None) cs ++ [k])
    ∧ (Forall (λ j, is_Some (nodeMap (viewModel env) !! j)) cs →
       childKeys (key B) env' = Some [k])
    ∧ nodeMap (viewModel env') !! k = Some (mkFields (Some (key B)) 0 (TextBody "" None))
    ∧ (restoreSelection = true →
       selection env' = Some (mkSelection k 0 k 0 true)).
Proof.
  intros H HB Hbody Hnd HkB Hchildren.
  destruct (clear_inv _ _ _ _ _ _ _ H HB Hbody Hnd HkB Hchildren)
    as (k & Hused & _ & HB' & Hk & _ & _ & Hsel).
  assert (Hkeys : childKeys (key B) env'
    = Some (filter (λ j, nodeMap (viewModel env) !! j = None) cs ++ [k])).
  { apply childKeys_Some. by eexists. }
  exists k. split; [done|]. split; [done|]. split; [|split; [done|]].
  - intros Hall. rewrite Hkeys, filter_Forall_nil; [done|].
    eapply Forall_impl; [exact Hall|].
    intros j [f Hj] Hnone. simpl in Hnone. congruence.
  - intros ->. exact Hsel.
Qed.

(** C5 on the block of the merge example, with [restoreSelection]. *)
Lemma C5_clear_leaves_one_empty_text_witness :
  let env := docMerge (Some someSelection) in
  let cs := ["t1"; "t2"; "t3"] in
  let env' := (returned (clear rootRef true env) (rootRef, env)).2 in
  ∃ k,
    (k ∉ usedKeys env)
    ∧ childKeys "root" env'
      = Some (filter (λ j, nodeMap (viewModel env) !! j = None) cs ++ [k])
    ∧ (Forall (λ j, is_Some (nodeMap (viewModel env) !! j)) cs →
       childKeys "root" env' = Some [k])
    ∧ nodeMap (viewModel env') !! k = Some (mkFields (Some "root") 0 (TextBody "" None))
    ∧ (true = true → selection env' = Some (mkSelection k 0 k 0 true)).
Proof.
  intros env cs env'.
  apply (C5_clear_leaves_one_empty_text rootRef true env
    (returned (clear rootRef true env) (rootRef, env)).1 env'
    (blockFields None cs) cs).
  - vm_compute. reflexivity.
  - reflexivity.
  - reflexivity.
  - apply (bool_decide_unpack _). vm_compute. exact I.
  - apply (bool_decide_unpack _). vm_compute. exact I.
  - apply (bool_decide_unpack _). vm_compute. exact I.
Defined.

(** C6 (counterexample).  In the block ["t"; "x"], where "t" is an empty
    text node and the last child "x" is not empty, appending "x" again
    marks "t" dirty, although the last child before the append is not an
    empty text node; in the block ["t"] whose last child is the empty text
    node "t", appending "t" again marks nothing. *)
Lemma C6_dirty_mark_follows_the_detached_list :
  getLastChild rootRef docTrailingEmpty = Ok (Some (mkNode "x" (textFields "root" 0 "x" None)))
  ∧ dirtySubTrees (viewModel docTrailingEmpty) = ∅
  ∧ dirtySubTrees (viewModel
      (returned (append rootRef (nodeRef "x") docTrailingEmpty) (rootRef, docTrailingEmpty)).2)
    = {["t"]}
  ∧ getLastChild rootRef docOnlyEmpty = Ok (Some (mkNode "t" (textFields "root" 0 "" None)))
  ∧ dirtySubTrees (viewModel
      (returned (append rootRef (nodeRef "t") docOnlyEmpty) (rootRef, docOnlyEmpty)).2)
    = ∅
  ∧ childrenAfter (append rootRef (nodeRef "t")) rootRef docOnlyEmpty
    = Ok [mkNode "t" (textFields "root" 0 "" None)].
Proof. repeat split; vm_compute; reflexivity. Qed.

(** C6 (amended).  When [append] returns, the child list of the block is
    some [cs] followed by the key of the appended node, and the dirty set
    has gained exactly the key of the last element of [cs] -- the child
    that now precedes the appended node -- if that child is a text node
    with empty content, and nothing otherwise (also when [cs] is empty).
    Whenever the appended node was not already the last child of the block,
    that child is the last child the block had before the call. *)
Theorem C6_append_marks_preceding_empty_text (this nodeToAppend : OutlineNode)
    (env : Env) (w : OutlineNode) (env' : Env) :
  append this nodeToAppend env = Ok (w, env') →
  let d := dirtySubTrees (viewModel env) in
  (∃ cs, childKeys (key this) env' = Some (cs ++ [key nodeToAppend])
     ∧ dirtySubTrees (viewModel env')
       = match last cs with
         | Some k => if isEmptyTextNode (getNodeByKey k env') then {[k]} ∪ d else d
         | None => d
         end)
  ∧ (∀ cs0, childKeys (key this) env = Some cs0 →
       last cs0 ≠ Some (key nodeToAppend) →
       dirtySubTrees (viewModel env')
       = match last cs0 with
         | Some k => if isEmptyTextNode (getNodeByKey k env) then {[k]} ∪ d else d
         | None => d
         end).
Proof.
  intros H d. apply append_inv in H.
  destruct H as (_ & sf & children & Hsf & Hbody & Hnm & Hdirty & _).
  set (kB := key this) in *. set (kC := key nodeToAppend) in *.
  set (nm := nodeMap (viewModel env)) in *.
  set (nm1 := <[kB := fields (getLatest this env)]> nm) in *.
  set (fC := default (fields nodeToAppend) (nm1 !! kC)) in *.
  set (nm2 := <[kC := fC]> nm1) in *.
  set (nm3 := detached kC (parent fC) nm2) in *.
  set (nm4 := alter (setParentF (Some kB)) kC nm3) in *.
  split.
  - exists children. split.
    + apply childKeys_Some. eexists. split; [by rewrite Hnm, lookup_insert_eq|done].
    + rewrite Hdirty. destruct (last children) as [k|]; [|done].
      unfold getNodeByKey. rewrite !isEmptyTextNode_txt, Hnm.
      destruct (decide (kB = k)) as [<-|Hne].
      * rewrite lookup_insert_eq, Hsf. simpl. unfold txt. simpl. by rewrite Hbody.
      * by rewrite lookup_insert_ne.
  - intros cs0 (f0 & Hf0 & Hbody0)%childKeys_Some Hlast. fold nm in Hf0.
    assert (Hnm1 : nm1 = nm).
    { unfold nm1. apply insert_id. rewrite fields_getLatest. fold kB nm.
      by rewrite Hf0. }
    assert (Hnm2B : nm2 !! kB = Some f0).
    { unfold nm2, fC. rewrite Hnm1. destruct (decide (kC = kB)) as [->|Hne].
      - by rewrite lookup_insert_eq, Hf0.
      - by rewrite lookup_insert_ne. }
    assert (Hchildren : children = cs0 ∨ children = unlinked kC cs0).
    { apply lookup_alter_body in Hsf as (f3 & Hf3 & Hb3); [|done].
      unfold nm3 in Hf3. rewrite lookup_detached, Hnm2B in Hf3.
      case_decide; simplify_eq/=.
      - right. unfold unlinkF in Hb3. rewrite Hbody0 in Hb3. simpl in Hb3.
        congruence.
      - left. congruence. }
    rewrite Hdirty.
    assert (Hsame : last children = last cs0).
    { destruct Hchildren as [->| ->]; [done|].
      destruct (last cs0) as [k|] eqn:Hl.
      - apply last_unlinked; [done|congruence].
      - apply last_None in Hl. by subst cs0. }
    rewrite Hsame. destruct (last cs0) as [k|] eqn:Hl; [|done].
    assert (Hk : k ≠ kC) by congruence.
    unfold getNodeByKey. rewrite !isEmptyTextNode_txt. fold nm.
    assert (Htxt : nm4 !! k ≫= txt = nm !! k ≫= txt).
    { unfold nm4. rewrite lookup_alter_ne by done. unfold nm3.
      rewrite txt_lookup_detached. unfold nm2.
      rewrite lookup_insert_ne by done. by rewrite Hnm1. }
    by rewrite Htxt.
Qed.

(** The amended C6 on a block that ends in an empty text node, to which a
    child of another block is appended. *)
Lemma C6_append_marks_preceding_empty_text_witness :
  let env' := (returned (append rootRef (nodeRef "c") docAppend) (rootRef, docAppend)).2 in
  dirtySubTrees (viewModel env')
  = if isEmptyTextNode (getNodeByKey "t" docAppend)
    then {["t"]} ∪ dirtySubTrees (viewModel docAppend)
    else dirtySubTrees (viewModel docAppend).
Proof.
  intros env'.
  assert (Hrun : append rootRef (nodeRef "c") docAppend
    = Ok ((returned (append rootRef (nodeRef "c") docAppend) (rootRef, docAppend)).1,
          env')).
  { vm_compute. reflexivity. }
  destruct (C6_append_marks_preceding_empty_text _ _ _ _ _ Hrun) as [_ H].
  apply (H ["a"; "t"]); [reflexivity|discriminate].
Defined.

(** C7 (code defect).  Normalization is not idempotent on the code: with
    a link between two plain text nodes of the same flags, the first run
    merges the link into the first plain node and leaves the second one,
    and the second run merges the two plain nodes that are now adjacent.
    This is the defect of C2. *)
Theorem C7_second_run_merges_again :
  let root := rootRef in
  let env := docPlainLinkPlain (Some someSelection) in
  childrenAfter (normalizeTextNodes root false) root env
    = Ok [mkNode "t1" (textFields "root" 0 "ab" None);
          mkNode "t3" (textFields "root" 0 "c" None)]
  ∧ childrenAfter (normalizeTextNodes root false;;; normalizeTextNodes root false) root env
    = Ok [mkNode "t1" (textFields "root" 0 "abc" None)].
Proof. repeat split; vm_compute; reflexivity. Qed.

(** C8 (counterexample).  A merge that is not selection-aware still needs
    a selection: with [restoreSelection] false and no selection, the two
    mergeable text nodes make normalization fail with an
    InvariantViolation, while it succeeds once a selection exists. *)
Lemma C8_merge_without_restore_needs_selection :
  normalizeTextNodes rootRef false (docMerge None) = Err InvariantViolation
  ∧ childrenAfter (normalizeTextNodes rootRef false) rootRef (docMerge (Some someSelection))
    = Ok [mkNode "t1" (textFields "root" 0 "abcd" None);
          mkNode "t3" (textFields "root" 1 "ef" None)].
Proof. split; vm_compute; reflexivity. Qed.

(** C8 (amended).  Without a selection, and whatever [restoreSelection]
    is, normalization fails with an InvariantViolation exactly when its
    scan closes a batch of more than one node; when no batch reaches that
    length it returns and leaves the state as it is, with or without a
    selection. *)
Theorem C8_selection_needed_for_every_merge (this : OutlineNode)
    (restoreSelection : bool) (env : Env) :
  readOnly env = false →
  (attemptsMerge this env = true → selection env = None →
     normalizeTextNodes this restoreSelection env = Err InvariantViolation)
  ∧ (attemptsMerge this env = false → isBlockNode (getLatest this env) = true →
       normalizeTextNodes this restoreSelection env = Ok (tt, env)).
Proof.
  intros Hro. unfold normalizeTextNodes, attemptsMerge.
  assert (Hgate : shouldErrorOnReadOnly env = Ok (tt, env)).
  { unfold shouldErrorOnReadOnly. by rewrite Hro. }
  rewrite (bind_eq _ _ _ _ _ Hgate). unfold bind, liftR.
  split.
  - intros Hscan Hsel. destruct (getChildren this env) as [cs|e]; [|done].
    by apply normalizeLoop_no_selection.
  - intros Hscan Hblock. unfold getChildren, childrenOf, isBlockNode in *.
    destruct (body (getLatest this env)) as [| cs |]; try done. simpl in *.
    by apply normalizeLoop_no_merge.
Qed.

(** The amended C8 on the two documents with a batch of two nodes, without
    a selection, and on a document without text to merge. *)
Lemma C8_selection_needed_for_every_merge_witness :
  normalizeTextNodes rootRef false (docMerge None) = Err InvariantViolation
  ∧ normalizeTextNodes rootRef true (docPlainThenLink None) = Err InvariantViolation
  ∧ normalizeTextNodes rootRef true docEmptyBlocks = Ok (tt, docEmptyBlocks).
Proof.
  split; [|split].
  - apply (C8_selection_needed_for_every_merge rootRef false (docMerge None));
      reflexivity.
  - apply (C8_selection_needed_for_every_merge rootRef true (docPlainThenLink None));
      reflexivity.
  - apply (C8_selection_needed_for_every_merge rootRef true docEmptyBlocks);
      reflexivity.
Defined.

(** C9 (counterexample).  [getFirstChild] and [getLastChild] do not skip
    a key that fails to resolve: where the first stored key is dangling
    they return [null], not the first live child that [getChildren]
    returns, and likewise at the other end. *)
Lemma C9_first_child_does_not_skip :
  getChildren rootRef docDangling = Ok [mkNode "t" (textFields "root" 0 "a" None)]
  ∧ getFirstChild rootRef docDangling = Ok None
  ∧ getLastChild rootRef docDangling = Ok None
  ∧ getFirstChild rootRef docDangling
    ≠ bindR (getChildren rootRef docDangling) (λ l, Ok (head l))
  ∧ getLastChild rootRef docDangling
    ≠ bindR (getChildren rootRef docDangling) (λ l, Ok (last l)).
Proof. repeat split; try (vm_compute; reflexivity); vm_compute; discriminate. Qed.

(** C9 (amended).  On a block whose latest version stores the child keys
    [cs] (whatever the reference [this] itself holds), none of the three
    reads throws: [getChildren] returns, in order, the nodes of the keys
    that resolve and leaves the others out; [getFirstChild] and
    [getLastChild] resolve the first and the last stored key only, and
    return [null] when that key does not resolve or when there is none. *)
Theorem C9_read_traversals_tolerate_dangling_keys (this : OutlineNode) (env : Env)
    (f : NodeFields) (cs : list NodeKey) :
  nodeMap (viewModel env) !! key this = Some f →
  body f = BlockBody cs →
  getChildren this env = Ok (omap (λ k, getNodeByKey k env) cs)
  ∧ (∀ n, n ∈ omap (λ k, getNodeByKey k env) cs ↔
          key n ∈ cs ∧ nodeMap (viewModel env) !! key n = Some (fields n))
  ∧ getFirstChild this env = Ok (k ← head cs; getNodeByKey k env)
  ∧ getLastChild this env = Ok (k ← last cs; getNodeByKey k env).
Proof.
  intros Hreg Hbody.
  assert (Hlatest : childrenOf (getLatest this env) = Ok cs).
  { unfold getLatest, getNodeByKey, childrenOf. rewrite Hreg. simpl. by rewrite Hbody. }
  split; [|split; [|split]].
  - unfold getChildren. by rewrite Hlatest.
  - intros n. rewrite list_elem_of_omap. unfold getNodeByKey. split.
    + intros (k & Hk & Hres).
      destruct (nodeMap (viewModel env) !! k) eqn:E; by simplify_eq/=.
    + intros [Hk Hres]. exists (key n). split; [done|].
      rewrite Hres. by destruct n.
  - unfold getFirstChild. rewrite Hlatest. by destruct cs.
  - unfold getLastChild. rewrite Hlatest. simpl.
    destruct (decide (length cs = 0)) as [Hlen|Hlen].
    + by destruct cs.
    + rewrite last_lookup. do 2 f_equal. f_equal. lia.
Qed.

(** The amended C9 on the block whose first and last keys are dangling. *)
Lemma C9_read_traversals_tolerate_dangling_keys_witness :
  getChildren rootRef docDangling
    = Ok (omap (λ k, getNodeByKey k docDangling) ["gone1"; "t"; "gone2"])
  ∧ getFirstChild rootRef docDangling = Ok (getNodeByKey "gone1" docDangling)
  ∧ getLastChild rootRef docDangling = Ok (getNodeByKey "gone2" docDangling).
Proof.
  pose proof (C9_read_traversals_tolerate_dangling_keys rootRef docDangling
    (blockFields None ["gone1"; "t"; "gone2"]) ["gone1"; "t"; "gone2"]
    eq_refl eq_refl) as (H1 & _ & H2 & H3).
  exact (conj H1 (conj H2 H3)).
Defined.

(** C10.  Whenever the scan of [normalizeTextNodes] closes a batch of
    more than one node and the call, with [restoreSelection] set, returns,
    the selection is marked dirty -- whatever its anchor and focus keys
    are, so also when neither end was in a node merged away. *)
Theorem C10_merge_marks_selection_dirty (this : OutlineNode) (env env' : Env) :
  attemptsMerge this env = true →
  normalizeTextNodes this true env = Ok (tt, env') →
  ∃ sel', selection env' = Some sel' ∧ isDirty sel' = true.
Proof.
  unfold attemptsMerge, normalizeTextNodes. intros Hscan H.
  inv_bind H. apply shouldErrorOnReadOnly_inv in Hstep as [_ ->].
  inv_bind H. unfold liftR in Hstep.
  destruct (getChildren this env) as [children|]; [|done].
  injection Hstep as <- <-.
  by eapply normalizeLoop_merge_dirty.
Qed.

(** C10 on the merge example, with both ends of the selection in the third
    node, which is not merged: they stay where they are and the selection
    is marked dirty. *)
Lemma C10_merge_marks_selection_dirty_witness :
  let env := docMerge (Some selectionInThird) in
  let env' := (returned (normalizeTextNodes rootRef true env) (tt, env)).2 in
  (∃ sel', selection env' = Some sel' ∧ isDirty sel' = true)
  ∧ selection env' = Some (mkSelection "t3" 1 "t3" 2 true).
Proof.
  intros env env'. split.
  - apply (C10_merge_marks_selection_dirty rootRef env env').
    + reflexivity.
    + vm_compute. reflexivity.
  - vm_compute. reflexivity.
Defined.

(** ** Further properties of the code *)

(** X1.  A node that [getFirstTextNode] returns is a text node, it is the
    registered (latest) version of its key, and it is the first text node
    of the subtree in document order, as the search of the specification
    finds it. *)
Theorem X1_getFirstTextNode_returns_first_text (depth : nat) (this : OutlineNode)
    (env : Env) (t : OutlineNode) :
  getFirstTextNode depth this env = Ok (Some t) →
  isTextNode t = true
  ∧ getNodeByKey (key t) env = Some t
  ∧ specFirstTextNode depth this env = Ok (Some t).
Proof.
  intros H. destruct (getFirstTextNode_registered_text _ _ _ _ H) as [Ht Hreg].
  repeat split; [done..|]. by apply getFirstTextNode_sound.
Qed.

(** X1 on a block whose first child is a block with two text nodes. *)
Lemma X1_getFirstTextNode_returns_first_text_witness :
  let t := mkNode "t1" (textFields "b1" 0 "one" None) in
  isTextNode t = true
  ∧ getNodeByKey (key t) docNested = Some t
  ∧ specFirstTextNode 3 rootRef docNested = Ok (Some t).
Proof.
  intros t. apply (X1_getFirstTextNode_returns_first_text 3 rootRef docNested t).
  reflexivity.
Defined.

(** X2.  A node that [getLastTextNode] returns is a text node, it is the
    registered (latest) version of its key, and it is the last text node of
    the subtree in document order, as the search of the specification in
    reverse order finds it. *)
Theorem X2_getLastTextNode_returns_last_text (depth : nat) (this : OutlineNode)
    (env : Env) (t : OutlineNode) :
  getLastTextNode depth this env = Ok (Some t) →
  isTextNode t = true
  ∧ getNodeByKey (key t) env = Some t
  ∧ specLastTextNode depth this env = Ok (Some t).
Proof.
  intros H. destruct (getLastTextNode_registered_text _ _ _ _ H) as [Ht Hreg].
  repeat split; [done..|]. by apply getLastTextNode_sound.
Qed.

(** X2 on the inner block of the nested document. *)
Lemma X2_getLastTextNode_returns_last_text_witness :
  let t := mkNode "t2" (textFields "b1" 0 "two" None) in
  isTextNode t = true
  ∧ getNodeByKey (key t) docNested = Some t
  ∧ specLastTextNode 3 (nodeRef "b1") docNested = Ok (Some t).
Proof.
  intros t. apply (X2_getLastTextNode_returns_last_text 3 (nodeRef "b1") docNested t).
  reflexivity.
Defined.

(** X3.  On a block all of whose stored child keys resolve,
    [getFirstChild] and [getLastChild] return the first and the last of the
    nodes that [getChildren] returns. *)
Theorem X3_first_and_last_child_of_getChildren (this : OutlineNode) (env : Env)
    (f : NodeFields) (cs : list NodeKey) :
  nodeMap (viewModel env) !! key this = Some f →
  body f = BlockBody cs →
  Forall (λ k, is_Some (nodeMap (viewModel env) !! k)) cs →
  getFirstChild this env = bindR (getChildren this env) (λ l, Ok (head l))
  ∧ getLastChild this env = bindR (getChildren this env) (λ l, Ok (last l)).
Proof.
  intros Hreg Hbody Hall.
  assert (Hlatest : childrenOf (getLatest this env) = Ok cs).
  { rewrite (getLatest_registered _ _ _ Hreg). unfold childrenOf. simpl.
    by rewrite Hbody. }
  assert (Hres : ∀ k, k ∈ cs → ∃ fk, getNodeByKey k env = Some (mkNode k fk)).
  { intros k Hk. rewrite Forall_forall in Hall. destruct (Hall k Hk) as [fk Hfk].
    exists fk. unfold getNodeByKey. by rewrite Hfk. }
  unfold getFirstChild, getLastChild, getChildren. rewrite Hlatest. simpl. split.
  - destruct cs as [|k cs]; [done|]. simpl.
    destruct (Hres k) as [fk ->]; [by left|]. done.
  - destruct (decide (length cs = 0)) as [Hlen|Hlen].
    + by destruct cs.
    + rewrite last_lookup_pred. f_equal.
      destruct (last cs) as [k|] eqn:Hlast.
      * apply last_Some in Hlast as [cs' ->]. rewrite omap_app, last_app. simpl.
        destruct (Hres k) as [fk ->]; [set_solver|]. done.
      * apply last_None in Hlast. by subst cs.
Qed.

(** X3 on the root of the nested document. *)
Lemma X3_first_and_last_child_of_getChildren_witness :
  getFirstChild rootRef docNested
    = bindR (getChildren rootRef docNested) (λ l, Ok (head l))
  ∧ getLastChild rootRef docNested
    = bindR (getChildren rootRef docNested) (λ l, Ok (last l)).
Proof.
  apply (X3_first_and_last_child_of_getChildren rootRef docNested
    (blockFields None ["b1"; "t3"]) ["b1"; "t3"]).
  - reflexivity.
  - reflexivity.
  - apply (bool_decide_unpack _). vm_compute. exact I.
Defined.

(** X4.  When [append] returns on a registered block with the child keys
    [cs0], the block's child keys are then: [cs0] without the first
    occurrence of the appended key if the block was the parent of the
    appended node, [cs0] itself otherwise, followed by the appended key.
    The other children keep their order. *)
Theorem X4_append_child_list (this nodeToAppend : OutlineNode) (env : Env)
    (w : OutlineNode) (env' : Env) (fB : NodeFields) (cs0 : list NodeKey) :
  append this nodeToAppend env = Ok (w, env') →
  nodeMap (viewModel env) !! key this = Some fB →
  body fB = BlockBody cs0 →
  childKeys (key this) env'
  = Some ((if decide (parent (getLatest nodeToAppend env) = Some (key this))
           then unlinked (key nodeToAppend) cs0 else cs0)
          ++ [key nodeToAppend]).
Proof.
  intros H HB Hbody.
  destruct (append_children_inv _ _ _ _ _ _ _ H HB Hbody) as [sf Hsf].
  apply childKeys_Some. by eexists.
Qed.

(** X4 on a child of another block, and on the first child of the block
    itself. *)
Lemma X4_append_child_list_witness :
  childKeys "root"
    (returned (append rootRef (nodeRef "c") docAppend) (rootRef, docAppend)).2
  = Some ["a"; "t"; "c"]
  ∧ childKeys "root"
      (returned (append rootRef (nodeRef "a") docAppend) (rootRef, docAppend)).2
    = Some ["t"; "a"].
Proof.
  split.
  - apply (X4_append_child_list rootRef (nodeRef "c") docAppend
      (returned (append rootRef (nodeRef "c") docAppend) (rootRef, docAppend)).1
      _ (blockFields None ["a"; "t"]) ["a"; "t"]).
    + vm_compute. reflexivity.
    + reflexivity.
    + reflexivity.
  - apply (X4_append_child_list rootRef (nodeRef "a") docAppend
      (returned (append rootRef (nodeRef "a") docAppend) (rootRef, docAppend)).1
      _ (blockFields None ["a"; "t"]) ["a"; "t"]).
    + vm_compute. reflexivity.
    + reflexivity.
    + reflexivity.
Defined.

(** X5.  [append] of a node to a block other than itself changes three
    things in the registry and nothing else: the child list of the block,
    whose parent pointer and flags stay as they are; the parent pointer of
    the node; and the child list of the node's previous parent, which loses
    the first occurrence of the key (and stays as it is when it does not
    list the key).  Every other registered node, the selection, the
    read-only gate and the keys handed out are as before. *)
Theorem X5_append_changes_nothing_else (this nodeToAppend : OutlineNode) (env : Env)
    (w : OutlineNode) (env' : Env) :
  append this nodeToAppend env = Ok (w, env') →
  key this ≠ key nodeToAppend →
  let oldParent := parent (getLatest nodeToAppend env) in
  (∃ cs0,
     body (getLatest this env) = BlockBody cs0
     ∧ nodeMap (viewModel env') !! key this
       = Some (setChildrenF
                 ((if decide (oldParent = Some (key this))
                   then unlinked (key nodeToAppend) cs0 else cs0)
                  ++ [key nodeToAppend])
                 (getLatest this env)))
  ∧ (∀ k, k ≠ key this → k ≠ key nodeToAppend →
     nodeMap (viewModel env') !! k
     = if decide (oldParent = Some k)
       then unlinkF (key nodeToAppend) <$> nodeMap (viewModel env) !! k
       else nodeMap (viewModel env) !! k)
  ∧ (oldParent ≠ Some (key nodeToAppend) →
     nodeMap (viewModel env') !! key nodeToAppend
     = Some (setParentF (Some (key this)) (getLatest nodeToAppend env)))
  ∧ selection env' = selection env
  ∧ readOnly env' = readOnly env
  ∧ usedKeys env' = usedKeys env.
Proof.
  intros H Hne oldParent. apply append_inv in H.
  destruct H as (_ & sf & children & Hsf & Hbody & Hnm & _ & Hsel & Hro & Hused).
  set (kB := key this) in *. set (kC := key nodeToAppend) in *.
  set (nm := nodeMap (viewModel env)) in *.
  set (nm1 := <[kB := fields (getLatest this env)]> nm) in *.
  set (fC := default (fields nodeToAppend) (nm1 !! kC)) in *.
  set (nm2 := <[kC := fC]> nm1) in *.
  set (nm3 := detached kC (parent fC) nm2) in *.
  set (nm4 := alter (setParentF (Some kB)) kC nm3) in *.
  assert (HfC : fC = fields (getLatest nodeToAppend env)).
  { unfold fC, nm1. rewrite lookup_insert_ne by done. by rewrite fields_getLatest. }
  split; [|split; [|split; [|done]]].
  - unfold nm4 in Hsf. rewrite lookup_alter_ne in Hsf by done.
    unfold nm3 in Hsf. rewrite lookup_detached, HfC in Hsf. fold oldParent in Hsf.
    unfold nm2, nm1 in Hsf.
    rewrite lookup_insert_ne, lookup_insert_eq in Hsf by done.
    rewrite Hnm, lookup_insert_eq.
    destruct (fields (getLatest this env)) as [p fl b] eqn:Hlatest.
    destruct (decide (oldParent = Some kB)) as [Hold|Hold].
    + simpl in Hsf. injection Hsf as <-. unfold unlinkF in Hbody |- *. simpl in *.
      destruct b as [t u|cs0|]; simpl in Hbody; [done| |done].
      injection Hbody as <-. by exists cs0.
    + injection Hsf as <-. simpl in Hbody. exists children. by subst b.
  - intros k HkB HkC. rewrite Hnm, lookup_insert_ne by done.
    unfold nm4. rewrite lookup_alter_ne by done.
    unfold nm3. rewrite lookup_detached, HfC. fold oldParent.
    unfold nm2, nm1. by rewrite !lookup_insert_ne by done.
  - intros Hself. rewrite Hnm, lookup_insert_ne by done.
    unfold nm4. rewrite lookup_alter_eq.
    unfold nm3. rewrite lookup_detached, HfC. fold oldParent.
    rewrite decide_False by done. unfold nm2. rewrite lookup_insert_eq. simpl.
    by rewrite HfC.
Qed.

(** X5 on the node "c" moved from the block "other" to the root. *)
Lemma X5_append_changes_nothing_else_witness :
  let env' := (returned (append rootRef (nodeRef "c") docAppend) (rootRef, docAppend)).2 in
  nodeMap (viewModel env') !! "root" = Some (blockFields None ["a"; "t"; "c"])
  ∧ nodeMap (viewModel env') !! "other" = Some (blockFields None [])
  ∧ nodeMap (viewModel env') !! "a" = nodeMap (viewModel docAppend) !! "a"
  ∧ nodeMap (viewModel env') !! "c" = Some (textFields "root" 0 "c" None)
  ∧ selection env' = selection docAppend.
Proof.
  intros env'.
  destruct (X5_append_changes_nothing_else rootRef (nodeRef "c") docAppend
    (returned (append rootRef (nodeRef "c") docAppend) (rootRef, docAppend)).1 env')
    as ((cs0 & Hcs0 & Hblock) & Hothers & Hnode & Hsel & _).
  - vm_compute. reflexivity.
  - discriminate.
  - split; [|split; [|split; [|split]]].
    + vm_compute in Hcs0. injection Hcs0 as <-.
      etrans; [exact Hblock|reflexivity].
    + rewrite (Hothers "other") by discriminate. reflexivity.
    + rewrite (Hothers "a") by discriminate. reflexivity.
    + etrans; [apply Hnode; discriminate|reflexivity].
    + exact Hsel.
Defined.

(** X6.  After [append] has returned, [getLastChild] of the block returns
    the appended node, whose parent is the block, and so does the last
    element of [getChildren]. *)
Theorem X6_appended_node_is_last_child (this nodeToAppend : OutlineNode) (env : Env)
    (w : OutlineNode) (env' : Env) :
  append this nodeToAppend env = Ok (w, env') →
  ∃ f,
    parent f = Some (key this)
    ∧ getLastChild this env' = Ok (Some (mkNode (key nodeToAppend) f))
    ∧ bindR (getChildren this env') (λ l, Ok (last l))
      = Ok (Some (mkNode (key nodeToAppend) f)).
Proof.
  intros H. destruct (append_node_registered _ _ _ _ _ H) as (f & Hf & Hp).
  apply append_inv in H.
  destruct H as (_ & sf & children & _ & _ & Hnm & _).
  exists f. split; [done|].
  assert (HB : nodeMap (viewModel env') !! key this
    = Some (setChildrenF (children ++ [key nodeToAppend]) sf)).
  { by rewrite Hnm, lookup_insert_eq. }
  assert (Hres : getNodeByKey (key nodeToAppend) env' = Some (mkNode (key nodeToAppend) f)).
  { unfold getNodeByKey. by rewrite Hf. }
  unfold getLastChild, getChildren.
  rewrite (getLatest_registered _ _ _ HB). simpl. split.
  - rewrite decide_False by (rewrite length_app; simpl; lia).
    rewrite last_lookup_pred, last_snoc. simpl. by rewrite Hres.
  - rewrite omap_app. simpl. rewrite Hres. simpl. by rewrite last_snoc.
Qed.

(** X6 on the node "c" appended to the root. *)
Lemma X6_appended_node_is_last_child_witness :
  let env' := (returned (append rootRef (nodeRef "c") docAppend) (rootRef, docAppend)).2 in
  ∃ f,
    parent f = Some "root"
    ∧ getLastChild rootRef env' = Ok (Some (mkNode "c" f))
    ∧ bindR (getChildren rootRef env') (λ l, Ok (last l)) = Ok (Some (mkNode "c" f)).
Proof.
  intros env'.
  apply (X6_appended_node_is_last_child rootRef (nodeRef "c") docAppend
    (returned (append rootRef (nodeRef "c") docAppend) (rootRef, docAppend)).1 env').
  vm_compute. reflexivity.
Defined.

(** X7.  Appending the same node to the same block twice in a row is the
    same as appending it once: when the linkage of parents and children
    held for the node's key before the first call, the second call leaves
    the registry, the dirty set and the selection as the first call left
    them. *)
Theorem X7_append_twice_is_append_once (B C : OutlineNode) (env : Env)
    (w1 : OutlineNode) (env1 : Env) (w2 : OutlineNode) (env2 : Env) :
  append B C env = Ok (w1, env1) →
  append B C env1 = Ok (w2, env2) →
  key B ≠ key C →
  parentLinked (registryWith [B; C] env) (key C) →
  nodeMap (viewModel env2) = nodeMap (viewModel env1)
  ∧ dirtySubTrees (viewModel env2) = dirtySubTrees (viewModel env1)
  ∧ selection env2 = selection env1.
Proof.
  intros H1 H2 Hne Hlinked.
  destruct (append_node_registered _ _ _ _ _ H1) as (fC1 & HC1 & HpC1).
  destruct (append_linked_inv _ _ _ _ _ H1 Hlinked)
    as (nm4 & sf & ch & Hsf & Hbody & Hnot & Hm1 & Hd1 & _).
  apply append_inv in H2.
  destruct H2 as (_ & sf' & ch' & Hsf' & Hbody' & Hm2 & Hd2 & Hsel2 & _).
  set (kB := key B) in *. set (kC := key C) in *.
  set (m1 := nodeMap (viewModel env1)) in *.
  set (fB1 := setChildrenF (ch ++ [kC]) sf) in *.
  assert (HB1 : m1 !! kB = Some fB1) by (by rewrite Hm1, lookup_insert_eq).
  assert (Hn1 : <[kB := fields (getLatest B env1)]> m1 = m1).
  { apply insert_id. rewrite fields_getLatest. fold kB m1. by rewrite HB1. }
  rewrite Hn1 in Hsf', Hm2, Hd2. fold kC in HC1. rewrite HC1 in Hsf', Hm2, Hd2.
  simpl in Hsf', Hm2, Hd2.
  rewrite (insert_id _ _ _ HC1), HpC1 in Hsf', Hm2, Hd2. simpl in Hsf', Hm2, Hd2.
  rewrite lookup_alter_ne, lookup_alter_eq, HB1 in Hsf' by done.
  simpl in Hsf'. injection Hsf' as <-.
  unfold unlinkF, fB1 in Hbody'. simpl in Hbody'.
  rewrite (unlinked_snoc _ _ Hnot) in Hbody'. injection Hbody' as <-.
  assert (Hmap : nodeMap (viewModel env2) = m1).
  { rewrite Hm2. apply map_eq. intros i.
    destruct (decide (kB = i)) as [<-|HiB].
    - rewrite lookup_insert_eq, HB1. done.
    - rewrite lookup_insert_ne by done.
      destruct (decide (kC = i)) as [<-|HiC].
      + rewrite lookup_alter_eq, lookup_alter_ne, HC1 by done. simpl.
        by rewrite setParentF_same.
      + by rewrite !lookup_alter_ne by done. }
  split; [done|]. split; [|done].
  rewrite Hd2, Hd1. destruct (last ch) as [k|] eqn:Hlast; [|done].
  assert (HkC : k ≠ kC).
  { intros ->. apply Hnot. apply last_Some in Hlast as [l ->].
    apply elem_of_app. right. by apply list_elem_of_singleton. }
  rewrite !isEmptyTextNode_txt.
  assert (Htxt : alter (setParentF (Some kB)) kC (alter (unlinkF kC) kB m1) !! k ≫= txt
    = nm4 !! k ≫= txt).
  { rewrite lookup_alter_ne by done. rewrite lookup_alter.
    destruct (decide (kB = k)) as [<-|HkB].
    - rewrite HB1, Hsf. simpl. rewrite txt_unlinkF. unfold txt, fB1. simpl.
      by rewrite Hbody.
    - by rewrite Hm1, lookup_insert_ne. }
  rewrite Htxt. destruct (bool_decide _); [|done].
  by rewrite (assoc_L (∪)), (idemp_L (∪)).
Qed.

(** X7 on the node "c" appended twice to the root. *)
Lemma X7_append_twice_is_append_once_witness :
  let r1 := returned (append rootRef (nodeRef "c") docAppend) (rootRef, docAppend) in
  let r2 := returned (append rootRef (nodeRef "c") r1.2) r1 in
  nodeMap (viewModel r2.2) = nodeMap (viewModel r1.2)
  ∧ dirtySubTrees (viewModel r2.2) = dirtySubTrees (viewModel r1.2)
  ∧ selection r2.2 = selection r1.2.
Proof.
  intros r1 r2.
  apply (X7_append_twice_is_append_once rootRef (nodeRef "c") docAppend r1.1 r1.2 r2.1 r2.2).
  - vm_compute. reflexivity.
  - vm_compute. reflexivity.
  - discriminate.
  - apply (bool_decide_unpack _). vm_compute. exact I.
Defined.

(** X8.  [append] does not check for cycles: a block can be appended to
    itself, it is then its own last child, and [getLastTextNode] on it
    recurses until the call stack is exhausted, whatever the depth
    available. *)
Theorem X8_self_append_makes_text_search_overflow (B : OutlineNode) (env : Env)
    (w : OutlineNode) (env' : Env) (depth : nat) :
  append B B env = Ok (w, env') →
  (∃ f, getLastChild B env' = Ok (Some (mkNode (key B) f)))
  ∧ getLastTextNode depth B env' = Err RangeError.
Proof.
  intros H. split.
  - destruct (append_node_registered _ _ _ _ _ H) as (f & Hf & _).
    apply append_inv in H. destruct H as (_ & sf & children & _ & _ & Hnm & _).
    rewrite Hnm, lookup_insert_eq in Hf. injection Hf as <-.
    eexists. unfold getLastChild.
    assert (HB : nodeMap (viewModel env') !! key B
      = Some (setChildrenF (children ++ [key B]) sf)) by (by rewrite Hnm, lookup_insert_eq).
    rewrite (getLatest_registered _ _ _ HB). simpl.
    rewrite decide_False by (rewrite length_app; simpl; lia).
    rewrite last_lookup_pred, last_snoc. simpl. unfold getNodeByKey. rewrite HB.
    reflexivity.
  - apply append_inv in H. destruct H as (_ & sf & children & _ & _ & Hnm & _).
    eapply (getLastTextNode_self_child (key B));
      [by rewrite Hnm, lookup_insert_eq|reflexivity|reflexivity].
Qed.

(** X8 on the root of the nested document appended to itself. *)
Lemma X8_self_append_makes_text_search_overflow_witness :
  let env' := (returned (append rootRef rootRef docNested) (rootRef, docNested)).2 in
  (∃ f, getLastChild rootRef env' = Ok (Some (mkNode "root" f)))
  ∧ getLastTextNode 1000 rootRef env' = Err RangeError.
Proof.
  intros env'.
  apply (X8_self_append_makes_text_search_overflow rootRef docNested
    (returned (append rootRef rootRef docNested) (rootRef, docNested)).1 env' 1000).
  vm_compute. reflexivity.
Defined.

(** X9.  [clear] removes the children that [getChildren] returns: when it
    returns on a registered block whose stored child keys are distinct and
    not its own, and whose children that resolve have the block as parent,
    the stored child keys that do not resolve stay in the child list, in
    order, before the key of the new empty text node; the children that
    resolve are no longer registered and every node outside the block is
    as before; one key has been handed out; without [restoreSelection]
    the selection is as before. *)
Theorem X9_clear_keeps_keys_that_do_not_resolve (B : OutlineNode)
    (restoreSelection : bool) (env : Env) (w : OutlineNode) (env' : Env)
    (fB : NodeFields) (cs : list NodeKey) :
  clear B restoreSelection env = Ok (w, env') →
  nodeMap (viewModel env) !! key B = Some fB →
  body fB = BlockBody cs →
  NoDup cs →
  key B ∉ cs →
  Forall (λ k, nodeMap (viewModel env) !! k = None
               ∨ nodeMap (viewModel env) !! k ≫= parent = Some (key B)) cs →
  ∃ k,
    (k ∉ usedKeys env)
    ∧ childKeys (key B) env'
      = Some (filter (λ j, nodeMap (viewModel env) !! j = None) cs ++ [k])
    ∧ (∀ j, j ≠ key B → j ≠ k →
         nodeMap (viewModel env') !! j
         = if decide (j ∈ cs) then None else nodeMap (viewModel env) !! j)
    ∧ usedKeys env' = {[k]} ∪ usedKeys env
    ∧ (restoreSelection = false → selection env' = selection env).
Proof.
  intros H HB Hbody Hnd HkB Hchildren.
  destruct (clear_inv _ _ _ _ _ _ _ H HB Hbody Hnd HkB Hchildren)
    as (k & Hused & _ & HB' & _ & Hothers & Hu & Hsel).
  exists k. repeat split; try done.
  - apply childKeys_Some. by eexists.
  - by intros ->.
Qed.

(** X9 on a block with a live child between two keys that do not resolve. *)
Lemma X9_clear_keeps_keys_that_do_not_resolve_witness :
  let env := docDangling in
  let env' := (returned (clear rootRef false env) (rootRef, env)).2 in
  ∃ k,
    (k ∉ usedKeys env)
    ∧ childKeys "root" env'
      = Some (filter (λ j, nodeMap (viewModel env) !! j = None)
                ["gone1"; "t"; "gone2"] ++ [k])
    ∧ (∀ j, j ≠ "root" → j ≠ k →
         nodeMap (viewModel env') !! j
         = if decide (j ∈ ["gone1"; "t"; "gone2"]) then None
           else nodeMap (viewModel env) !! j)
    ∧ usedKeys env' = {[k]} ∪ usedKeys env
    ∧ (false = false → selection env' = selection env).
Proof.
  intros env env'.
  apply (X9_clear_keeps_keys_that_do_not_resolve rootRef false env
    (returned (clear rootRef false env) (rootRef, env)).1 env'
    (blockFields None ["gone1"; "t"; "gone2"]) ["gone1"; "t"; "gone2"]).
  - vm_compute. reflexivity.
  - reflexivity.
  - reflexivity.
  - apply (bool_decide_unpack _). vm_compute. exact I.
  - apply (bool_decide_unpack _). vm_compute. exact I.
  - apply (bool_decide_unpack _). vm_compute. exact I.
Defined.

(** X10.  Clearing a block of the tree twice: the second call removes the
    empty text node that the first one appended and appends another one
    under a key that differs from the first; the block ends with the second
    key as its only child and the first placeholder is no longer
    registered. *)
Theorem X10_clear_twice_replaces_the_placeholder (B : OutlineNode) (r1 r2 : bool)
    (env : Env) (w1 : OutlineNode) (env1 : Env) (w2 : OutlineNode) (env2 : Env)
    (fB : NodeFields) (cs : list NodeKey) :
  clear B r1 env = Ok (w1, env1) →
  clear B r2 env1 = Ok (w2, env2) →
  nodeMap (viewModel env) !! key B = Some fB →
  body fB = BlockBody cs →
  NoDup cs →
  key B ∉ cs →
  Forall (λ k, nodeMap (viewModel env) !! k ≫= parent = Some (key B)) cs →
  ∃ k1 k2,
    k1 ≠ k2
    ∧ childKeys (key B) env1 = Some [k1]
    ∧ childKeys (key B) env2 = Some [k2]
    ∧ nodeMap (viewModel env2) !! k1 = None
    ∧ nodeMap (viewModel env2) !! k2
      = Some (mkFields (Some (key B)) 0 (TextBody "" None)).
Proof.
  intros H1 H2 HB Hbody Hnd HkB Hchildren.
  assert (Hchildren' : Forall (λ k, nodeMap (viewModel env) !! k = None
     ∨ nodeMap (viewModel env) !! k ≫= parent = Some (key B)) cs).
  { eapply Forall_impl; [exact Hchildren|]. intros k Hk. by right. }
  destruct (clear_inv _ _ _ _ _ _ _ H1 HB Hbody Hnd HkB Hchildren')
    as (k1 & Hused1 & Hk1B & HB1 & Hk1 & _ & Hu1 & _).
  assert (Hnone : filter (λ j, nodeMap (viewModel env) !! j = None) cs = []).
  { apply filter_Forall_nil. eapply Forall_impl; [exact Hchildren|].
    intros j Hj Hn. simpl in Hj. by rewrite Hn in Hj. }
  rewrite Hnone in HB1. simpl in HB1.
  destruct (clear_inv _ _ _ _ _ (setChildrenF [k1] fB) [k1] H2 HB1)
    as (k2 & Hused2 & Hk2B & HB2 & Hk2 & Hothers2 & _).
  { done. }
  { apply NoDup_singleton. }
  { apply not_elem_of_cons. split; [congruence|apply not_elem_of_nil]. }
  { apply Forall_singleton. right. by rewrite Hk1. }
  assert (Hne : k1 ≠ k2).
  { intros <-. apply Hused2. rewrite Hu1. apply elem_of_union_l.
    by apply elem_of_singleton. }
  rewrite filter_cons_False in HB2 by (by rewrite Hk1). simpl in HB2.
  exists k1, k2. repeat split; try done.
  - apply childKeys_Some. by eexists.
  - apply childKeys_Some. by eexists.
  - rewrite (Hothers2 k1) by done. rewrite decide_True; [done|]. by left.
Qed.

(** X10 on the block of the merge example. *)
Lemma X10_clear_twice_replaces_the_placeholder_witness :
  let env := docMerge (Some someSelection) in
  let env1 := (returned (clear rootRef true env) (rootRef, env)).2 in
  let env2 := (returned (clear rootRef false env1) (rootRef, env1)).2 in
  ∃ k1 k2,
    k1 ≠ k2
    ∧ childKeys "root" env1 = Some [k1]
    ∧ childKeys "root" env2 = Some [k2]
    ∧ nodeMap (viewModel env2) !! k1 = None
    ∧ nodeMap (viewModel env2) !! k2
      = Some (mkFields (Some "root") 0 (TextBody "" None)).
Proof.
  intros env env1 env2.
  apply (X10_clear_twice_replaces_the_placeholder rootRef true false env
    (returned (clear rootRef true env) (rootRef, env)).1 env1
    (returned (clear rootRef false env1) (rootRef, env1)).1 env2
    (blockFields None ["t1"; "t2"; "t3"]) ["t1"; "t2"; "t3"]).
  - vm_compute. reflexivity.
  - vm_compute. reflexivity.
  - reflexivity.
  - reflexivity.
  - apply (bool_decide_unpack _). vm_compute. exact I.
  - apply (bool_decide_unpack _). vm_compute. exact I.
  - apply (bool_decide_unpack _). vm_compute. exact I.
Defined.

(** X11.  [normalizeTextNodes] changes nothing and returns when no two
    neighbours among the children of the block join: two neighbours join
    when both are text nodes, neither immutable nor segmented, with the
    same flags, and the first has no url or the url of the second.  What
    the loop remembers across a child that is no such text node has no
    effect. *)
Theorem X11_no_joining_neighbours_no_change (this : OutlineNode)
    (restoreSelection : bool) (env : Env) (children : list OutlineNode) :
  readOnly env = false →
  getChildren this env = Ok children →
  adjacentJoin children = false →
  normalizeTextNodes this restoreSelection env = Ok (tt, env).
Proof.
  intros Hro Hch Hjoin. unfold normalizeTextNodes.
  assert (Hgate : shouldErrorOnReadOnly env = Ok (tt, env)).
  { unfold shouldErrorOnReadOnly. by rewrite Hro. }
  rewrite (bind_eq _ _ _ _ _ Hgate). unfold bind at 1, liftR. rewrite Hch.
  apply normalizeLoop_no_merge. by rewrite (scanMerges_children _ _ _ Hch).
Qed.

(** X11 on a link, an immutable text node and a plain text node. *)
Lemma X11_no_joining_neighbours_no_change_witness :
  let env := docLinkImmutablePlain (Some someSelection) in
  normalizeTextNodes rootRef true env = Ok (tt, env).
Proof.
  intros env.
  apply (X11_no_joining_neighbours_no_change rootRef true env
    [mkNode "t1" (textFields "root" 0 "a" (Some "https://example.org"));
     mkNode "t2" (textFields "root" IS_IMMUTABLE "b" None);
     mkNode "t3" (textFields "root" 0 "c" None)]).
  - reflexivity.
  - vm_compute. reflexivity.
  - vm_compute. reflexivity.
Defined.

(** X12.  When two neighbours among the children of the block join and
    there is no selection, [normalizeTextNodes] fails with an
    InvariantViolation, with and without [restoreSelection]. *)
Theorem X12_joining_neighbours_need_a_selection (this : OutlineNode)
    (restoreSelection : bool) (env : Env) (children : list OutlineNode) :
  readOnly env = false →
  getChildren this env = Ok children →
  adjacentJoin children = true →
  selection env = None →
  normalizeTextNodes this restoreSelection env = Err InvariantViolation.
Proof.
  intros Hro Hch Hjoin Hsel. unfold normalizeTextNodes.
  assert (Hgate : shouldErrorOnReadOnly env = Ok (tt, env)).
  { unfold shouldErrorOnReadOnly. by rewrite Hro. }
  rewrite (bind_eq _ _ _ _ _ Hgate). unfold bind at 1, liftR. rewrite Hch.
  apply normalizeLoop_no_selection; [done|].
  by rewrite (scanMerges_children _ _ _ Hch).
Qed.

(** X12 on a plain text node followed by a link with the same flags. *)
Lemma X12_joining_neighbours_need_a_selection_witness :
  normalizeTextNodes rootRef false (docPlainThenLink None) = Err InvariantViolation.
Proof.
  apply (X12_joining_neighbours_need_a_selection rootRef false (docPlainThenLink None)
    [mkNode "t1" (textFields "root" 0 "ab" None);
     mkNode "t2" (textFields "root" 0 "cd" (Some "https://example.org"))]).
  - reflexivity.
  - vm_compute. reflexivity.
  - vm_compute. reflexivity.
  - reflexivity.
Defined.

(** X13.  A call of [normalizeTextNodes] without [restoreSelection] that
    returns leaves the selection as it was: the anchor and the focus stay
    where they were, also when their node has been merged into another one
    and removed, and the selection is not marked dirty. *)
Theorem X13_normalize_without_restore_keeps_selection (this : OutlineNode)
    (env : Env) (u : unit) (env' : Env) :
  normalizeTextNodes this false env = Ok (u, env') →
  selection env' = selection env.
Proof.
  unfold normalizeTextNodes. intros H.
  inv_bind H. apply shouldErrorOnReadOnly_inv in Hstep as [_ ->].
  inv_bind H. unfold liftR in Hstep.
  destruct (getChildren this env) as [children|]; [|done].
  injection Hstep as <- <-.
  by eapply normalizeLoop_false_selection.
Qed.

(** X13 on the two text nodes "ab" and "cd" with both ends of the
    selection in the second one. *)
Lemma X13_normalize_without_restore_keeps_selection_witness :
  let env := docTwoTexts (Some selectionInSecond) in
  let env' := (returned (normalizeTextNodes rootRef false env) (tt, env)).2 in
  selection env' = Some selectionInSecond
  ∧ nodeMap (viewModel env') !! "t2" = None.
Proof.
  intros env env'. split.
  - apply (X13_normalize_without_restore_keeps_selection rootRef env tt env').
    vm_compute. reflexivity.
  - vm_compute. reflexivity.
Defined.

(** X14.  When a merge returns, on a batch [first :: rest] of nodes with
    distinct keys and with or without [restoreSelection], the registered
    text of [first] is its text followed by the texts of the nodes of
    [rest] in order, and no node of [rest] is registered any more. *)
Theorem X14_merge_concatenates_and_removes (first : OutlineNode)
    (rest : list OutlineNode) (restoreSelection : bool) (env : Env)
    (u : unit) (env' : Env) :
  combineAdjacentTextNodes (first :: rest) restoreSelection env = Ok (u, env') →
  NoDup (key <$> first :: rest) →
  ∃ t,
    getTextContent first env = Ok t
    ∧ registeredText (key first) env' = Some (t +:+ concatTexts rest env)
    ∧ Forall (λ n, nodeMap (viewModel env') !! key n = None) rest.
Proof. apply combineAdjacentTextNodes_text. Qed.

(** X14 on the three text nodes of the merge example. *)
Lemma X14_merge_concatenates_and_removes_witness :
  let env := docMerge (Some someSelection) in
  let batch := [nodeRef "t1"; nodeRef "t2"; nodeRef "t3"] in
  let env' := (returned (combineAdjacentTextNodes batch false env) (tt, env)).2 in
  ∃ t,
    getTextContent (nodeRef "t1") env = Ok t
    ∧ registeredText "t1" env'
      = Some (t +:+ concatTexts [nodeRef "t2"; nodeRef "t3"] env)
    ∧ Forall (λ n, nodeMap (viewModel env') !! key n = None)
        [nodeRef "t2"; nodeRef "t3"].
Proof.
  intros env batch env'.
  apply (X14_merge_concatenates_and_removes (nodeRef "t1")
    [nodeRef "t2"; nodeRef "t3"] false env tt env').
  - vm_compute. reflexivity.
  - apply (bool_decide_unpack _). vm_compute. exact I.
Defined.

(** X15.  When a merge with [restoreSelection] set returns, on a batch
    [first :: rest] of nodes with distinct keys, an end of the selection
    whose node is not in [rest] keeps its key and its offset; this
    includes an end in [first]. *)
Theorem X15_merge_keeps_ends_outside_the_batch (first : OutlineNode)
    (rest : list OutlineNode) (env : Env) (u : unit) (env' : Env) (sel : Selection) :
  combineAdjacentTextNodes (first :: rest) true env = Ok (u, env') →
  selection env = Some sel →
  NoDup (key <$> first :: rest) →
  ∃ sel',
    selection env' = Some sel'
    ∧ (anchorKey sel ∉ key <$> rest → anchorOf sel' = anchorOf sel)
    ∧ (focusKey sel ∉ key <$> rest → focusOf sel' = focusOf sel).
Proof.
  intros H Hsel Hnd.
  destruct (combineAdjacentTextNodes_inv _ _ _ _ _ _ H Hsel Hnd)
    as (sel' & t & Hsel' & _ & _ & _ & Ha & Hf).
  exists sel'. split; [done|]. split.
  - intros Hout. by rewrite (offsetBefore_not_elem _ _ _ _ Hout) in Ha.
  - intros Hout. by rewrite (offsetBefore_not_elem _ _ _ _ Hout) in Hf.
Qed.

(** X15 on the two text nodes "ab" and "cd": the anchor in the first
    node stays; the focus in the second is moved. *)
Lemma X15_merge_keeps_ends_outside_the_batch_witness :
  let sel := mkSelection "t1" 1 "t2" 1 false in
  let env := docTwoTexts (Some sel) in
  let env' := (returned (combineAdjacentTextNodes [nodeRef "t1"; nodeRef "t2"] true env)
                 (tt, env)).2 in
  ∃ sel',
    selection env' = Some sel'
    ∧ (anchorKey sel ∉ key <$> [nodeRef "t2"] → anchorOf sel' = anchorOf sel)
    ∧ (focusKey sel ∉ key <$> [nodeRef "t2"] → focusOf sel' = focusOf sel).
Proof.
  intros sel env env'.
  apply (X15_merge_keeps_ends_outside_the_batch (nodeRef "t1") [nodeRef "t2"]
    env tt env' sel).
  - vm_compute. reflexivity.
  - reflexivity.
  - apply (bool_decide_unpack _). vm_compute. exact I.
Defined.

(** X16.  In a read-only transaction the three mutators of a block fail
    with a ReadOnlyViolation before anything else is looked at: whatever
    the block, the node to append and the selection are. *)
Theorem X16_read_only_refuses_mutators (this nodeToAppend : OutlineNode)
    (restoreSelection : bool) (env : Env) :
  readOnly env = true →
  append this nodeToAppend env = Err ReadOnlyViolation
  ∧ clear this restoreSelection env = Err ReadOnlyViolation
  ∧ normalizeTextNodes this restoreSelection env = Err ReadOnlyViolation.
Proof.
  intros Hro.
  assert (Hgate : shouldErrorOnReadOnly env = Err ReadOnlyViolation).
  { unfold shouldErrorOnReadOnly. by rewrite Hro. }
  unfold append, clear, normalizeTextNodes.
  by rewrite !(bind_Err _ _ _ _ Hgate).
Qed.

(** X16 on the merge example without a selection, read-only, with a
    reference to a node that is not registered as the block. *)
Lemma X16_read_only_refuses_mutators_witness :
  let env := readOnlyEnv (docMerge None) in
  append (nodeRef "nowhere") (nodeRef "t1") env = Err ReadOnlyViolation
  ∧ clear (nodeRef "nowhere") true env = Err ReadOnlyViolation
  ∧ normalizeTextNodes (nodeRef "nowhere") true env = Err ReadOnlyViolation.
Proof.
  intros env.
  apply (X16_read_only_refuses_mutators (nodeRef "nowhere") (nodeRef "t1") true env).
  reflexivity.
Defined.

(** X17.  [append] returns, and returns a version of the block, in a
    transaction that is not read-only, on a registered block, when the
    previous parent of the node to append, if it resolves once the node is
    entered in the registry, is a block: whether or not the node is
    registered, has a parent, or is listed by that parent. *)
Theorem X17_append_returns (this nodeToAppend : OutlineNode) (env : Env)
    (fB : NodeFields) :
  readOnly env = false →
  nodeMap (viewModel env) !! key this = Some fB →
  isBlockNode fB = true →
  (∀ p fp, parent (getLatest nodeToAppend env) = Some p →
     registryWith [nodeToAppend] env !! p = Some fp → isBlockNode fp = true) →
  ∃ w env', append this nodeToAppend env = Ok (w, env') ∧ key w = key this.
Proof.
  intros Hro HB HfB Hold.
  destruct (append_returns _ _ _ _ Hro HB HfB Hold) as (w & env' & H).
  exists w, env'. split; [done|].
  unfold append in H. inv_bind H. inv_bind H.
  apply getWritableNode_inv in Hstep0 as (-> & _).
  do 8 (inv_bind H). unfold ret in H. injection H as <- _.
  apply key_getLatest.
Qed.

(** X17 on moving the child "c" of the block "other" under "root". *)
Lemma X17_append_returns_witness :
  ∃ w env', append rootRef (nodeRef "c") docAppend = Ok (w, env') ∧ key w = "root".
Proof.
  apply (X17_append_returns rootRef (nodeRef "c") docAppend
    (blockFields None ["a"; "t"])).
  - reflexivity.
  - reflexivity.
  - reflexivity.
  - intros p fp Hp Hfp. vm_compute in Hp. injection Hp as <-.
    vm_compute in Hfp. injection Hfp as <-. reflexivity.
Defined.

(** X18.  On a registry whose child lists have no cycle -- some rank
    decreases from every registered node to each of its stored children
    that resolve -- the two text searches on a registered block return, a
    node or none, without a stack overflow and without any other error,
    as soon as the depth available exceeds the rank of the block. *)
Theorem X18_text_search_returns_without_cycle (rank : NodeKey → nat) (env : Env)
    (depth : nat) (this : OutlineNode) (f : NodeFields) :
  ranked rank env →
  nodeMap (viewModel env) !! key this = Some f →
  isBlockNode f = true →
  rank (key this) < depth →
  (∃ r, getFirstTextNode depth this env = Ok r)
  ∧ (∃ r, getLastTextNode depth this env = Ok r).
Proof.
  intros Hranked. revert this f.
  induction depth as [|d IH]; intros this f Hf Hblock Hrank; [lia|].
  destruct (getChildren_ranked _ _ _ _ Hranked Hf Hblock) as (children & Hch & Hlower).
  assert (Hrec : ∀ c : OutlineNode, c ∈ children → isBlockNode c = true →
    (∃ r, getFirstTextNode d c env = Ok r) ∧ (∃ r, getLastTextNode d c env = Ok r)).
  { intros c Hc Hcb. destruct (Hlower c Hc) as [Hreg Hlt].
    apply (IH c (fields c)); [done|done|lia]. }
  split.
  - simpl. rewrite Hch. simpl. apply textNodeLoop_returns.
    intros c Hc Hcb. by apply Hrec.
  - simpl. rewrite Hch. simpl. apply textNodeLoop_returns.
    intros c Hc Hcb. apply Hrec; [|done]. by apply elem_of_reverse.
Qed.

(** X18 on the root of the nested document, of rank 2, with depth 3. *)
Lemma X18_text_search_returns_without_cycle_witness :
  (∃ r, getFirstTextNode 3 rootRef docNested = Ok r)
  ∧ (∃ r, getLastTextNode 3 rootRef docNested = Ok r).
Proof.
  apply (X18_text_search_returns_without_cycle rankNested docNested 3 rootRef
    (blockFields None ["b1"; "t3"])).
  - apply (bool_decide_unpack _). vm_compute. exact I.
  - reflexivity.
  - reflexivity.
  - vm_compute. lia.
Defined.

(** X19.  [clear] returns, and returns a version of the block, in a
    transaction that is not read-only, on a registered block whose stored
    child keys are distinct and not its own and whose children that
    resolve have the block as parent; with [restoreSelection], when there
    is a selection to place. *)
Theorem X19_clear_returns (B : OutlineNode) (restoreSelection : bool) (env : Env)
    (fB : NodeFields) (cs : list NodeKey) :
  readOnly env = false →
  nodeMap (viewModel env) !! key B = Some fB →
  body fB = BlockBody cs →
  NoDup cs →
  key B ∉ cs →
  Forall (λ k, nodeMap (viewModel env) !! k = None
               ∨ nodeMap (viewModel env) !! k ≫= parent = Some (key B)) cs →
  (restoreSelection = true → is_Some (selection env)) →
  ∃ w env', clear B restoreSelection env = Ok (w, env') ∧ key w = key B.
Proof.
  intros Hro HB Hbody Hnd HkB Hchildren Hsel.
  destruct (clear_returns _ _ _ _ _ Hro HB Hbody Hnd HkB Hchildren Hsel)
    as (w & env' & H).
  exists w, env'. split; [done|].
  unfold clear in H. inv_bind H. inv_bind H.
  apply getWritableNode_inv in Hstep0 as (-> & _).
  do 5 (inv_bind H). unfold ret in H. injection H as <- _.
  apply key_getLatest.
Qed.

(** X19 on a block with a live child between two keys that do not
    resolve, without a selection. *)
Lemma X19_clear_returns_witness :
  ∃ w env', clear rootRef false docDangling = Ok (w, env') ∧ key w = "root".
Proof.
  apply (X19_clear_returns rootRef false docDangling
    (blockFields None ["gone1"; "t"; "gone2"]) ["gone1"; "t"; "gone2"]).
  - reflexivity.
  - reflexivity.
  - reflexivity.
  - apply (bool_decide_unpack _). vm_compute. exact I.
  - apply (bool_decide_unpack _). vm_compute. exact I.
  - apply (bool_decide_unpack _). vm_compute. exact I.
  - discriminate.
Defined.

(** X20.  When the children of a block of the tree form one batch -- all
    of them text nodes that are neither immutable nor segmented, each
    joining the one before it -- and [normalizeTextNodes] returns, the first
    child is the only child left, its text is the texts of all the children
    in order, and the other children are no longer registered. *)
Theorem X20_one_batch_becomes_one_node (this : OutlineNode)
    (restoreSelection : bool) (env : Env) (u : unit) (env' : Env)
    (fB : NodeFields) (first : OutlineNode) (rest : list OutlineNode) :
  normalizeTextNodes this restoreSelection env = Ok (u, env') →
  nodeMap (viewModel env) !! key this = Some fB →
  body fB = BlockBody (key <$> first :: rest) →
  getChildren this env = Ok (first :: rest) →
  NoDup (key <$> first :: rest) →
  key this ∉ key <$> first :: rest →
  Forall (λ c : OutlineNode, parent c = Some (key this)) rest →
  oneBatch (first :: rest) = true →
  childKeys (key this) env' = Some [key first]
  ∧ registeredText (key first) env' = Some (textOf first +:+ concatTexts rest env)
  ∧ Forall (λ n, nodeMap (viewModel env') !! key n = None) rest.
Proof.
  intros H HB Hbody Hch Hnd HkB Hparent Hone.
  unfold normalizeTextNodes in H.
  inv_bind H. apply shouldErrorOnReadOnly_inv in Hstep as [_ ->].
  inv_bind H. unfold liftR in Hstep. rewrite Hch in Hstep.
  injection Hstep as <- <-.
  rewrite normalizeLoop_oneBatch in H
    by (by rewrite (getChildren_latest _ _ _ Hch)).
  rewrite (getChildren_latest _ _ _ Hch) in H.
  assert (Hreg : ∀ n, n ∈ first :: rest →
    nodeMap (viewModel env) !! key n = Some (fields n)).
  { intros n Hn. pose proof (getChildren_registered _ _ _ n Hch Hn) as Hreg.
    unfold getNodeByKey in Hreg.
    destruct (nodeMap (viewModel env) !! key n) as [f|]; [|done].
    simpl in Hreg. destruct n as [k fn]. simpl in *. by injection Hreg as ->. }
  assert (Hfirst : nodeMap (viewModel env) !! key first = Some (fields first)).
  { apply Hreg. by left. }
  assert (Htext : getTextContent first env = Ok (textOf first)).
  { rewrite oneBatch_cons in Hone.
    apply andb_true_iff in Hone as [Hq _]. apply andb_true_iff in Hq as [Hq _].
    destruct (qualifies_inv _ Hq) as (t & url & Hb & _).
    unfold getTextContent. rewrite (getLatest_registered _ _ _ Hfirst). simpl.
    unfold textOf. by rewrite Hb. }
  unfold closeBatch in H. destruct (decide (1 < length (first :: rest))) as [Hlen|Hlen].
  - destruct (combineAdjacentTextNodes_text _ _ _ _ _ _ H Hnd)
      as (t & Ht & Htxt & Hremoved).
    rewrite Htext in Ht. injection Ht as <-.
    split; [|by split].
    apply childKeys_Some.
    exists (setChildrenF (filter (λ k, k ∉ key <$> rest) (key <$> first :: rest)) fB).
    split.
    + apply (combineAdjacentTextNodes_parent _ _ _ _ _ _ _ _ _ H HB Hbody); try done.
      apply Forall_forall. intros n Hn. exists (fields n). split.
      * apply Hreg. by right.
      * rewrite Forall_forall in Hparent. by apply Hparent.
    + simpl. f_equal. simpl in Hnd. apply NoDup_cons in Hnd as [Hn _].
      rewrite filter_cons_True by done. f_equal.
      apply filter_Forall_nil. apply Forall_forall. by intros k Hk Hout.
  - injection H as _ <-. destruct rest as [|n rest]; [|simpl in Hlen; lia].
    split; [|split; [|done]].
    + apply childKeys_Some. exists fB. split; [done|exact Hbody].
    + unfold registeredText. rewrite Hfirst. simpl.
      rewrite append_empty_r. unfold getTextContent in Htext.
      rewrite (getLatest_registered _ _ _ Hfirst) in Htext. simpl in Htext.
      unfold txt. destruct (body first); by simplify_eq.
Qed.

(** X20 on three plain text nodes with the same flags. *)
Lemma X20_one_batch_becomes_one_node_witness :
  let env := docThreeTexts (Some someSelection) in
  let first := mkNode "t1" (textFields "root" 0 "ab" None) in
  let rest := [mkNode "t2" (textFields "root" 0 "cd" None);
               mkNode "t3" (textFields "root" 0 "ef" None)] in
  let env' := (returned (normalizeTextNodes rootRef true env) (tt, env)).2 in
  childKeys "root" env' = Some ["t1"]
  ∧ registeredText "t1" env' = Some (textOf first +:+ concatTexts rest env)
  ∧ Forall (λ n, nodeMap (viewModel env') !! key n = None) rest.
Proof.
  intros env first rest env'.
  apply (X20_one_batch_becomes_one_node rootRef true env tt env'
    (blockFields None ["t1"; "t2"; "t3"]) first rest).
  - vm_compute. reflexivity.
  - reflexivity.
  - reflexivity.
  - vm_compute. reflexivity.
  - apply (bool_decide_unpack _). vm_compute. exact I.
  - apply (bool_decide_unpack _). vm_compute. exact I.
  - apply (bool_decide_unpack _). vm_compute. exact I.
  - vm_compute. reflexivity.
Defined.

